(** * Higher/lower card game: odds engine, payouts, prediction resolution
      and side missions.

    A shallow embedding of the round-resolution core of the card game
    ([models/card.py], [models/deck.py], [logic/observer.py],
    [logic/side_missions.py], [logic/infinite_game.py]) together with the
    properties its specification states about it.

    Conventions of the embedding:
    - Python [int] is [Z]; Python [float] is the kernel's binary64
      [PrimFloat.float], with the same IEEE 754 operations;
    - a Python list is a [list] whose head is index 0, so [list.pop()]
      takes the last element;
    - a raised exception is an explicit [Raises] result;
    - terminal output ([show_message], [display_card]) and the save file
      are outside the embedding. *)

From Stdlib Require Import ZArith String Ascii List Bool Lia.
From Stdlib Require Import PrimFloat FloatOps SpecFloat FloatAxioms.
From stdpp Require Import base option list gmap strings.

Local Open Scope Z_scope.

(** ** Python results *)

Inductive exn :=
  | DeckEmptyError
  | InvalidPredictionError
  | IndexError
  | KeyError
  | ValueError
  | OverflowError
  | ZeroDivisionError
  | EOFError.

Inductive result (A : Type) :=
  | Returns (a : A)
  | Raises (e : exn).
Arguments Returns {A} a.
Arguments Raises {A} e.

(** Sequencing: an exception of the first computation ends the whole one.
    stdpp's [x ← r; k] notation is used for it. *)
#[global] Instance result_ret : MRet result := @Returns.
#[global] Instance result_bind : MBind result := fun A B k r =>
  match r with
  | Returns a => k a
  | Raises e => Raises e
  end.

(** ** models/card.py *)

Module Suit.
Inductive t := CLUBS | DIAMONDS | HEARTS | SPADES | JOKER.

(** Definition order of the enumeration, as [for suit in Suit] walks it. *)
Definition members : list t := [CLUBS; DIAMONDS; HEARTS; SPADES; JOKER].

Definition eqb (a b : t) : bool :=
  match a, b with
  | CLUBS, CLUBS | DIAMONDS, DIAMONDS | HEARTS, HEARTS
  | SPADES, SPADES | JOKER, JOKER => true
  | _, _ => false
  end.
End Suit.

Module Rank.
Inductive t :=
  | JOKER | TWO | THREE | FOUR | FIVE | SIX | SEVEN | EIGHT | NINE | TEN
  | JACK | QUEEN | KING | ACE.

(** The numeric value of the [IntEnum] member. *)
Definition value (r : t) : Z :=
  match r with
  | JOKER => 0 | TWO => 2 | THREE => 3 | FOUR => 4 | FIVE => 5 | SIX => 6
  | SEVEN => 7 | EIGHT => 8 | NINE => 9 | TEN => 10 | JACK => 11
  | QUEEN => 12 | KING => 13 | ACE => 14
  end.

(** [IntEnum] members compare as their integer values. *)
Definition eqb (a b : t) : bool := value a =? value b.
Definition ltb (a b : t) : bool := value a <? value b.
Definition gtb (a b : t) : bool := value a >? value b.

(** Definition order of the enumeration, as [for rank in Rank] walks it. *)
Definition members : list t :=
  [JOKER; TWO; THREE; FOUR; FIVE; SIX; SEVEN; EIGHT; NINE; TEN;
   JACK; QUEEN; KING; ACE].
End Rank.

Record Card := mkCard { rank : Rank.t; suit : Suit.t }.

(** The right-hand operand of a comparison may be any Python object;
    [__eq__] and [__lt__] test [isinstance(other, Card)]. *)
Inductive object :=
  | CardObj (c : Card)
  | IntObj (z : Z)
  | NoneObj.

Inductive rich_cmp :=
  | NotImplemented
  | Bool (b : bool).

Definition __eq__ (self : Card) (other : object) : rich_cmp :=
  match other with
  | CardObj other => Bool (Rank.eqb (rank self) (rank other))
  | _ => NotImplemented
  end.

Definition __lt__ (self : Card) (other : object) : rich_cmp :=
  match other with
  | CardObj other => Bool (Rank.ltb (rank self) (rank other))
  | _ => NotImplemented
  end.

(** [a == b] and [a < b] on two cards: the left operand's method answers,
    so the reflected method is never consulted. *)
Definition card_eq (a b : Card) : bool :=
  match __eq__ a (CardObj b) with
  | Bool r => r
  | NotImplemented =>
      match __eq__ b (CardObj a) with Bool r => r | NotImplemented => false end
  end.

Definition card_lt (a b : Card) : bool :=
  match __lt__ a (CardObj b) with
  | Bool r => r
  | NotImplemented => false
  end.

Definition is_joker (c : Card) : bool :=
  Rank.eqb (rank c) Rank.JOKER || Suit.eqb (suit c) Suit.JOKER.

(** ** models/deck.py *)

Module Deck.
(** The deck object holds one field, the list [_cards]. *)
Record t := mk { _cards : list Card }.

Definition _create_standard_deck (include_jokers : bool) (jokers_count : Z)
  : list Card :=
  let cards :=
    flat_map (fun s =>
      if Suit.eqb s Suit.JOKER then []
      else flat_map (fun r =>
             if Rank.eqb r Rank.JOKER then [] else [mkCard r s])
           Rank.members)
      Suit.members in
  if include_jokers
  then cards ++ repeat (mkCard Rank.JOKER Suit.JOKER) (Z.to_nat jokers_count)
  else cards.

(** [list.pop()]: removes and returns the last item; [IndexError] on an
    empty list. The first component is the list after the call. *)
Definition pop {A} (l : list A) : list A * result A :=
  match last l with
  | Some x => (removelast l, Returns x)
  | None => (l, Raises IndexError)
  end.

(** [deal]: the deck after the call and what the call returns or raises. *)
Definition deal (d : t) : t * result Card :=
  match _cards d with
  | [] => (d, Raises DeckEmptyError)
  | _ :: _ => let '(cards, r) := pop (_cards d) in (mk cards, r)
  end.

Definition len (d : t) : Z := Z.of_nat (length (_cards d)).

Definition remaining_cards (d : t) : list Card := _cards d.
End Deck.

(** [n] successive calls of [deal]: the deck left and the cards returned,
    in the order dealt. Dealing stops at the first call that raises. *)
Fixpoint deal_many (d : Deck.t) (n : nat) : Deck.t * list Card :=
  match n with
  | O => (d, [])
  | S n' =>
      match Deck.deal d with
      | (d', Returns c) =>
          let '(d'', dealt) := deal_many d' n' in (d'', c :: dealt)
      | (d', Raises _) => (d', [])
      end
  end.

(** ** Predictions (logic/infinite_game.py) *)

Inductive Prediction := HIGHER | LOWER.

Definition _is_prediction_correct
  (current_card next_card : Card) (prediction : Prediction) (reverse : bool)
  : bool :=
  if Rank.eqb (rank next_card) (rank current_card) then false
  else
    let correct :=
      match prediction with
      | HIGHER => Rank.gtb (rank next_card) (rank current_card)
      | LOWER => Rank.ltb (rank next_card) (rank current_card)
      end in
    if reverse then negb correct else correct.

(** ** Python numbers *)

(** The binary64 value nearest to a natural number below [2^63] (ties to
    even): the kernel's conversion of a 63-bit integer. *)
Definition float_of_uint63 (n : Z) : float := of_uint63 (Uint63Axioms.of_Z n).

(** [float(n)] for an [int]: the nearest binary64 value, ties to even;
    [OverflowError] when [n] is beyond the largest finite float. Magnitudes
    below [2^63] go through the primitive conversion, larger ones through
    the same rounding written out on the integer. *)
Definition float_of_int (n : Z) : result float :=
  if Z.abs n <? 2 ^ 63 then
    let f := float_of_uint63 (Z.abs n) in
    Returns (if n <? 0 then (- f)%float else f)
  else
    let f := SF2Prim (binary_normalize prec emax n 0 false) in
    if is_infinity f then Raises OverflowError else Returns f.

(** [a / b] on two [int]s. For operands below [2^53] in magnitude (every
    count of cards is) the quotient is the IEEE quotient of the converted
    operands. *)
Definition int_truediv (a b : Z) : result float :=
  if b =? 0 then Raises ZeroDivisionError
  else
    x ← float_of_int a;
    y ← float_of_int b;
    Returns (x / y)%float.

(** [x / y] on two [float]s. *)
Definition float_truediv (x y : float) : result float :=
  if (y =? 0)%float then Raises ZeroDivisionError else Returns (x / y)%float.

(** Nearest integer to [num / den] for [0 < den], ties to the even one. *)
Definition round_half_even (num den : Z) : Z :=
  let q := num / den in
  let r := num mod den in
  match 2 * r ?= den with
  | Lt => q
  | Gt => q + 1
  | Eq => if Z.even q then q else q + 1
  end.

(** [round(x)] for a [float]: an [int], ties to even; [ValueError] on NaN
    and [OverflowError] on an infinity. *)
Definition py_round (x : float) : result Z :=
  match Prim2SF x with
  | S754_nan => Raises ValueError
  | S754_infinity _ => Raises OverflowError
  | S754_zero _ => Returns 0
  | S754_finite s m e =>
      let n := if 0 <=? e then Z.pos m * 2 ^ e
               else round_half_even (Z.pos m) (2 ^ (- e)) in
      Returns (if s then - n else n)
  end.

(** ** models/session.py *)

Record UpgradeState := mkUpgradeState {
  odds_level : N;
  bet_level : N;
  ai_counter : bool;
  joker_level : N
}.

Definition odds_multiplier (u : UpgradeState) : Z := 2 ^ Z.of_N (odds_level u).
Definition bet_multiplier (u : UpgradeState) : Z := 2 ^ Z.of_N (bet_level u).
Definition joker_multiplier (u : UpgradeState) : Z := 2 ^ Z.of_N (joker_level u).

Record SessionData := mkSessionData {
  balance : Z;
  total_credits : Z;
  base_bet : Z;
  decks_completed : Z;
  win_streak : Z;
  max_win_streak : Z;
  upgrades : UpgradeState;
  side_missions_enabled : bool;
  calibration_enabled : bool;
  achievements : gmap string bool;
  visited_shop : bool;
  visited_settings : bool
}.

Definition set_balance (s : SessionData) (b : Z) : SessionData :=
  mkSessionData b (total_credits s) (base_bet s) (decks_completed s)
    (win_streak s) (max_win_streak s) (upgrades s) (side_missions_enabled s)
    (calibration_enabled s) (achievements s) (visited_shop s)
    (visited_settings s).

Definition set_total_credits (s : SessionData) (c : Z) : SessionData :=
  mkSessionData (balance s) c (base_bet s) (decks_completed s)
    (win_streak s) (max_win_streak s) (upgrades s) (side_missions_enabled s)
    (calibration_enabled s) (achievements s) (visited_shop s)
    (visited_settings s).

Definition set_win_streak (s : SessionData) (w : Z) : SessionData :=
  mkSessionData (balance s) (total_credits s) (base_bet s) (decks_completed s)
    w (max_win_streak s) (upgrades s) (side_missions_enabled s)
    (calibration_enabled s) (achievements s) (visited_shop s)
    (visited_settings s).

Definition set_max_win_streak (s : SessionData) (w : Z) : SessionData :=
  mkSessionData (balance s) (total_credits s) (base_bet s) (decks_completed s)
    (win_streak s) w (upgrades s) (side_missions_enabled s)
    (calibration_enabled s) (achievements s) (visited_shop s)
    (visited_settings s).

Definition set_achievements (s : SessionData) (a : gmap string bool)
  : SessionData :=
  mkSessionData (balance s) (total_credits s) (base_bet s) (decks_completed s)
    (win_streak s) (max_win_streak s) (upgrades s) (side_missions_enabled s)
    (calibration_enabled s) a (visited_shop s) (visited_settings s).

(** ** logic/observer.py *)

Record WinOdds := mkWinOdds { higher : float; lower : float; joker : float }.

#[global] Instance rank_eq_dec : EqDecision Rank.t.
Proof. solve_decision. Defined.

#[global] Instance rank_countable : Countable Rank.t.
Proof.
  refine (inj_countable'
    (fun r => Z.to_nat (Rank.value r))
    (fun n => nth n
      [Rank.JOKER; Rank.JOKER; Rank.TWO; Rank.THREE; Rank.FOUR; Rank.FIVE;
       Rank.SIX; Rank.SEVEN; Rank.EIGHT; Rank.NINE; Rank.TEN; Rank.JACK;
       Rank.QUEEN; Rank.KING; Rank.ACE] Rank.JOKER) _).
  intros []; reflexivity.
Defined.

(** [collections.Counter(iterable)]: one more for each element met. *)
Definition Counter `{Countable K} (items : list K) : gmap K Z :=
  foldl (fun c k => <[k := default 0 (c !! k) + 1]> c) ∅ items.

Record AICardCounter := mkAICardCounter {
  _rank_counts : gmap Rank.t Z;
  _joker_count : Z;
  _total : Z
}.

(** The counter as [__init__] leaves it. *)
Definition AICardCounter_init : AICardCounter := mkAICardCounter ∅ 0 0.

(** [on_deck_updated] overwrites the three fields from the snapshot. *)
Definition on_deck_updated (self : AICardCounter) (remaining : list Card)
  : AICardCounter :=
  mkAICardCounter
    (Counter (map rank (List.filter (fun card => negb (is_joker card)) remaining)))
    (foldl (fun acc card => if is_joker card then acc + 1 else acc) 0 remaining)
    (Z.of_nat (length remaining)).

(** [sum(count for rank, count in counts.items() if keep rank)]. The sum of
    integers does not depend on the order in which the items are met. *)
Definition add_kept (keep : Rank.t -> bool) (r : Rank.t) (count acc : Z) : Z :=
  if keep r then acc + count else acc.

Definition sum_counts (keep : Rank.t -> bool) (counts : gmap Rank.t Z) : Z :=
  map_fold (add_kept keep) 0 counts.

(** The number of cards of a snapshot that pass a test; the properties of
    [win_odds] are stated with it. *)
Definition count_cards (p : Card -> bool) (cards : list Card) : Z :=
  Z.of_nat (length (List.filter p cards)).

Definition win_odds (self : AICardCounter) (current_card : Card)
  : result WinOdds :=
  if (_total self =? 0) || is_joker current_card
  then Returns (mkWinOdds 0 0 0)
  else
    let higher_count :=
      sum_counts (fun r => Rank.gtb r (rank current_card))
                 (_rank_counts self) in
    let lower_count :=
      sum_counts (fun r => Rank.ltb r (rank current_card))
                 (_rank_counts self) in
    joker_prob ← (if negb (_total self =? 0)
                  then int_truediv (_joker_count self) (_total self)
                  else Returns 0%float);
    higher_share ← int_truediv higher_count (_total self);
    lower_share ← int_truediv lower_count (_total self);
    let higher_prob := (higher_share + joker_prob)%float in
    let lower_prob := (lower_share + joker_prob)%float in
    Returns (mkWinOdds higher_prob lower_prob joker_prob).

(** ** Payouts (logic/infinite_game.py) *)

(** The fields [higher] and [lower] of the table are named
    [payout_higher] and [payout_lower] here, [higher] and [lower] being
    the fields of [WinOdds]. *)
Record PayoutTable := mkPayoutTable {
  stake : Z;
  payout_higher : option Z;
  payout_lower : option Z
}.

(** [_HOUSE_EDGE = 0.06]: the binary64 value the literal denotes. *)
Definition _HOUSE_EDGE : float := 0x1.eb851eb851eb8p-5%float.
Definition _FINAL_CREDITS : Z := 100000000.
Definition _BASE_JOKERS : Z := 2.
Definition _SIDE_MISSION_INTERVAL : Z := 15.

(** [stake * multiplier] as [_calculate_payout] evaluates it, before
    rounding: [((1 / p) * (1 - 0.06)) * odds_multiplier] times the stake. *)
Definition raw_payout (session : SessionData) (stake : Z) (probability : float)
  : result float :=
  inverse ← float_truediv 1 probability;
  let multiplier := (inverse * (1 - _HOUSE_EDGE))%float in
  upgrade ← float_of_int (odds_multiplier (upgrades session));
  let multiplier := (multiplier * upgrade)%float in
  stake_f ← float_of_int stake;
  Returns (stake_f * multiplier)%float.

Definition _calculate_payout (session : SessionData) (stake : Z)
  (probability : float) : result (option Z) :=
  if (probability <=? 0)%float then Returns None
  else
    product ← raw_payout session stake probability;
    payout ← py_round product;
    Returns (Some (Z.max stake payout)).

Definition _stake_amount (session : SessionData) : Z :=
  base_bet session * bet_multiplier (upgrades session).

Definition _build_payouts (session : SessionData) (odds : WinOdds)
  : result PayoutTable :=
  let stake := _stake_amount session in
  higher ← _calculate_payout session stake (higher odds);
  lower ← _calculate_payout session stake (lower odds);
  Returns (mkPayoutTable stake higher lower).

Definition _payout_for_prediction (prediction : Prediction)
  (payout_table : PayoutTable) : option Z :=
  match prediction with
  | HIGHER => payout_higher payout_table
  | LOWER => payout_lower payout_table
  end.

Definition _win_probability (odds : WinOdds) (prediction : Prediction)
  (reverse : bool) : float :=
  match prediction with
  | HIGHER => if reverse then lower odds else higher odds
  | LOWER => if reverse then higher odds else lower odds
  end.

(** ** Python strings

    A [str] is a sequence of code points; the embedding covers the code
    points 0..255 (one [ascii] each), with Python's whitespace and case
    tables for that range. *)

Definition isspace (c : ascii) : bool :=
  let n := N_of_ascii c in
  ((9 <=? n) && (n <=? 13) || (28 <=? n) && (n <=? 32)
   || (n =? 133) || (n =? 160))%N.

Definition lower_char (c : ascii) : ascii :=
  let n := N_of_ascii c in
  if ((65 <=? n) && (n <=? 90)
      || (192 <=? n) && (n <=? 222) && negb (n =? 215))%N
  then ascii_of_N (n + 32)
  else c.

Fixpoint lstrip_chars (s : list ascii) : list ascii :=
  match s with
  | c :: s' => if isspace c then lstrip_chars s' else s
  | [] => []
  end.

Definition rstrip_chars (s : list ascii) : list ascii :=
  rev (lstrip_chars (rev s)).

(** [s.strip()] and [s.lower()]. *)
Definition str_strip (s : string) : string :=
  string_of_list_ascii (rstrip_chars (lstrip_chars (list_ascii_of_string s))).

Definition str_lower (s : string) : string :=
  string_of_list_ascii (map lower_char (list_ascii_of_string s)).

(** [l[i]] on a list, with Python's negative indices and [IndexError]. *)
Definition py_getitem {A} (l : list A) (i : Z) : result A :=
  let n := Z.of_nat (length l) in
  let k := if i <? 0 then i + n else i in
  if (0 <=? k) && (k <? n)
  then match l !! Z.to_nat k with
       | Some x => Returns x
       | None => Raises IndexError
       end
  else Raises IndexError.

(** [list(range(n))]. *)
Definition range (n : Z) : list Z := map Z.of_nat (seq 0 (Z.to_nat n)).

(** [d[k]] on a dictionary, with [KeyError]. *)
Definition dict_getitem `{Countable K} {V} (d : gmap K V) (k : K) : result V :=
  match d !! k with
  | Some v => Returns v
  | None => Raises KeyError
  end.

(** ** Prediction parsing (logic/infinite_game.py) *)

(** [(a_char != b_char)] used as an integer. *)
Definition char_differs (a_char b_char : ascii) : Z :=
  if Ascii.eqb a_char b_char then 0 else 1.

(** The inner [for j, b_char in enumerate(b, 1)] loop, from index [j] on,
    over the characters of [b] still to be met. *)
Fixpoint levenshtein_inner (a_char : ascii) (previous_row : list Z)
  (bs : list ascii) (j : Z) (current_row : list Z) : result (list Z) :=
  match bs with
  | [] => Returns current_row
  | b_char :: bs' =>
      left_cell ← py_getitem current_row (j - 1);
      let insert := left_cell + 1 in
      up_cell ← py_getitem previous_row j;
      let delete := up_cell + 1 in
      diag_cell ← py_getitem previous_row (j - 1);
      let replace := diag_cell + char_differs a_char b_char in
      levenshtein_inner a_char previous_row bs' (j + 1)
        (current_row ++ [Z.min insert (Z.min delete replace)])
  end.

(** The outer [for i, a_char in enumerate(a, 1)] loop, from index [i] on. *)
Fixpoint levenshtein_outer (b : list ascii) (chars : list ascii) (i : Z)
  (previous_row : list Z) : result (list Z) :=
  match chars with
  | [] => Returns previous_row
  | a_char :: chars' =>
      current_row ← levenshtein_inner a_char previous_row b 1 [i];
      levenshtein_outer b chars' (i + 1) current_row
  end.

Definition len (s : string) : Z := Z.of_nat (String.length s).

Definition _levenshtein (a b : string) : result Z :=
  if String.eqb a b then Returns 0
  else if String.eqb a "" then Returns (len b)
  else if String.eqb b "" then Returns (len a)
  else
    let previous_row := range (len b + 1) in
    previous_row ←
      levenshtein_outer (list_ascii_of_string b) (list_ascii_of_string a) 1
                        previous_row;
    py_getitem previous_row (-1).

Definition fuzzy_targets : list string :=
  ["high"; "higher"; "low"; "lower"]%string.

Definition max_distance : Z := 1.

Fixpoint fuzzy_match_loop (word : string) (targets : list string)
  : result (option string) :=
  match targets with
  | [] => Returns None
  | target :: targets' =>
      distance ← _levenshtein word target;
      if distance <=? max_distance then Returns (Some target)
      else fuzzy_match_loop word targets'
  end.

Definition _fuzzy_match (word : string) : result (option string) :=
  fuzzy_match_loop word fuzzy_targets.

Definition aliases : gmap string Prediction :=
  list_to_map
    [("h", HIGHER); ("hi", HIGHER); ("high", HIGHER); ("higher", HIGHER);
     ("l", LOWER); ("lo", LOWER); ("low", LOWER); ("lower", LOWER)]%string.

Definition input_from_player (raw_prediction : string) : result Prediction :=
  let normalized := str_lower (str_strip raw_prediction) in
  if bool_decide (is_Some (aliases !! normalized))
  then dict_getitem aliases normalized
  else
    fuzzy ← _fuzzy_match normalized;
    match fuzzy with
    | Some target => dict_getitem aliases target
    | None => Raises InvalidPredictionError
    end.

(** ** logic/side_missions.py *)

Inductive SideMissionType :=
  | DOUBLE_OR_NOTHING
  | BIG_MONEY
  | LUCKY_SEVEN
  | GONE_BLIND
  | REVERSE_PSYCHOLOGY.

Record SideMissionDefinition := mkSideMissionDefinition {
  kind : SideMissionType;
  title : string;
  rounds : Z;
  wins_required : Z;
  bonus_multiplier : Z;
  reverse_logic : bool;
  blind_rounds : Z;
  skip_penalty_ratio : option float
}.

(** A mission object. It is mutated in place by the round resolver; the
    functions below return the object as it is after the call. *)
Record SideMissionState := mkSideMissionState {
  definition : SideMissionDefinition;
  rounds_left : Z;
  wins_in_row : Z;
  active : bool;
  completed : bool;
  failed : bool
}.

Definition is_blind (m : SideMissionState) : bool :=
  (blind_rounds (definition m) >? 0) && (rounds_left m >? 0).

Definition is_reverse (m : SideMissionState) : bool :=
  reverse_logic (definition m) && (rounds_left m >? 0).

(** The catalogue; fields left out of a constructor call take the
    dataclass defaults ([rounds = 0], [wins_required = 0],
    [bonus_multiplier = 1], [reverse_logic = False], [blind_rounds = 0],
    [skip_penalty_ratio = None]). [0.10] is written as the binary64 value
    the literal denotes. The [description] lines are display text and are
    left out. *)
Definition double_or_nothing : SideMissionDefinition :=
  mkSideMissionDefinition DOUBLE_OR_NOTHING "DOUBLE OR NOTHING"
    0 3 1 false 0 None.
Definition big_money : SideMissionDefinition :=
  mkSideMissionDefinition BIG_MONEY "BIG MONEY" 1 0 5 false 0 None.
Definition lucky_seven : SideMissionDefinition :=
  mkSideMissionDefinition LUCKY_SEVEN "LUCKY SEVEN" 7 0 3 false 0 None.
Definition gone_blind : SideMissionDefinition :=
  mkSideMissionDefinition GONE_BLIND "GONE BLIND" 3 0 1 false 3
    (Some 0x1.999999999999ap-4%float).
Definition reverse_psychology : SideMissionDefinition :=
  mkSideMissionDefinition REVERSE_PSYCHOLOGY "REVERSE PSYCHOLOGY"
    3 0 1 true 0 None.

Definition _DEFINITIONS : list SideMissionDefinition :=
  [double_or_nothing; big_money; lucky_seven; gone_blind; reverse_psychology].

(** [random.choice(_DEFINITIONS)]; [pick] is the draw of the generator. *)
Definition random_definition (pick : nat) : SideMissionDefinition :=
  nth (pick mod length _DEFINITIONS)%nat _DEFINITIONS double_or_nothing.

(** [start]: [definition.rounds or definition.wins_required] rounds. *)
Definition start (d : SideMissionDefinition) : SideMissionState :=
  let rounds := if rounds d =? 0 then wins_required d else rounds d in
  mkSideMissionState d rounds 0 true false false.

Definition set_rounds_left (m : SideMissionState) (n : Z) : SideMissionState :=
  mkSideMissionState (definition m) n (wins_in_row m) (active m)
    (completed m) (failed m).
Definition set_wins_in_row (m : SideMissionState) (n : Z) : SideMissionState :=
  mkSideMissionState (definition m) (rounds_left m) n (active m)
    (completed m) (failed m).
Definition set_active (m : SideMissionState) (b : bool) : SideMissionState :=
  mkSideMissionState (definition m) (rounds_left m) (wins_in_row m) b
    (completed m) (failed m).
Definition set_completed (m : SideMissionState) (b : bool) : SideMissionState :=
  mkSideMissionState (definition m) (rounds_left m) (wins_in_row m) (active m)
    b (failed m).
Definition set_failed (m : SideMissionState) (b : bool) : SideMissionState :=
  mkSideMissionState (definition m) (rounds_left m) (wins_in_row m) (active m)
    (completed m) b.

(** ** logic/game_state.py and logic/command_interpreter.py *)

Inductive GameState :=
  | STARTUP | DEALING | SHOPPING | SETTINGS | ACHIEVEMENTS | TERMINATED.

Record CommandResult := mkCommandResult {
  handled : bool;
  next_state : option GameState;
  should_exit : bool
}.

Inductive Command :=
  | ShopCommand
  | SettingsCommand
  | AchievementsCommand
  | SaveCommand
  | ExitCommand
  | HelpCommand.

(** What [execute] returns; its messages and the save are not modelled. *)
Definition execute (c : Command) : CommandResult :=
  match c with
  | ShopCommand => mkCommandResult true (Some SHOPPING) false
  | SettingsCommand => mkCommandResult true (Some SETTINGS) false
  | AchievementsCommand => mkCommandResult true (Some ACHIEVEMENTS) false
  | SaveCommand => mkCommandResult true None false
  | ExitCommand => mkCommandResult true None true
  | HelpCommand => mkCommandResult true None false
  end.

(** The command table [InfiniteGame.__init__] installs. *)
Definition commands : gmap string Command :=
  list_to_map
    [("shop", ShopCommand); ("store", ShopCommand);
     ("settings", SettingsCommand);
     ("achievements", AchievementsCommand); ("achieve", AchievementsCommand);
     ("save", SaveCommand); ("exit", ExitCommand); ("quit", ExitCommand);
     ("help", HelpCommand)]%string.

Definition interpret (raw_input : string) : option CommandResult :=
  let normalized := str_lower (str_strip raw_input) in
  match commands !! normalized with
  | None => None
  | Some command => Some (execute command)
  end.

(** ** The game object (logic/infinite_game.py) *)

Record InfiniteGame := mkInfiniteGame {
  _session : SessionData;
  _state : GameState;
  _deck : option Deck.t;
  _current_card : option Card;
  _ai_counter : AICardCounter;
  _active_side_mission : option SideMissionState;
  _rounds_completed : Z;
  _pending_side_mission : option SideMissionDefinition
}.

(** The fields as [__init__] sets them, for a given session. *)
Definition InfiniteGame_init (session : SessionData) : InfiniteGame :=
  mkInfiniteGame session STARTUP None None AICardCounter_init None 0 None.

Definition with_session (g : InfiniteGame) (s : SessionData) : InfiniteGame :=
  mkInfiniteGame s (_state g) (_deck g) (_current_card g) (_ai_counter g)
    (_active_side_mission g) (_rounds_completed g) (_pending_side_mission g).
Definition with_state (g : InfiniteGame) (st : GameState) : InfiniteGame :=
  mkInfiniteGame (_session g) st (_deck g) (_current_card g) (_ai_counter g)
    (_active_side_mission g) (_rounds_completed g) (_pending_side_mission g).
Definition with_active_side_mission (g : InfiniteGame)
  (m : option SideMissionState) : InfiniteGame :=
  mkInfiniteGame (_session g) (_state g) (_deck g) (_current_card g)
    (_ai_counter g) m (_rounds_completed g) (_pending_side_mission g).
Definition with_rounds_completed (g : InfiniteGame) (n : Z) : InfiniteGame :=
  mkInfiniteGame (_session g) (_state g) (_deck g) (_current_card g)
    (_ai_counter g) (_active_side_mission g) n (_pending_side_mission g).
Definition with_pending_side_mission (g : InfiniteGame)
  (d : option SideMissionDefinition) : InfiniteGame :=
  mkInfiniteGame (_session g) (_state g) (_deck g) (_current_card g)
    (_ai_counter g) (_active_side_mission g) (_rounds_completed g) d.

(** [achievements.get(key)] is truthy. *)
Definition achievement_unlocked (s : SessionData) (key : string) : bool :=
  default false (achievements s !! key).

Definition _unlock_achievement (self : InfiniteGame) (key : string)
  : InfiniteGame :=
  if achievement_unlocked (_session self) key then self
  else with_session self
         (set_achievements (_session self)
            (<[key := true]> (achievements (_session self)))).

Definition _double_balance_reward (self : InfiniteGame) : InfiniteGame :=
  let before := balance (_session self) in
  let s := set_balance (_session self) (balance (_session self) * 2) in
  with_session self (set_total_credits s (total_credits s + before)).

Definition _check_credit_achievements (self : InfiniteGame) : InfiniteGame :=
  let self :=
    if total_credits (_session self) >=? 1000000
    then _unlock_achievement self "high_roller" else self in
  if total_credits (_session self) >=? 100000000
  then _unlock_achievement self "vault_breaker" else self.

Definition _apply_bonus_multiplier (self : InfiniteGame) (payout : Z) : Z :=
  match _active_side_mission self with
  | None => payout
  | Some mission =>
      let multiplier := bonus_multiplier (definition mission) in
      if multiplier <=? 1 then payout else payout * multiplier
  end.

Definition _apply_win (self : InfiniteGame) (payout stake : Z) : InfiniteGame :=
  let s := set_balance (_session self) (balance (_session self) + payout) in
  let profit := payout - stake in
  with_session self
    (if profit >? 0 then set_total_credits s (total_credits s + profit) else s).

(** [_update_side_mission_after_round]: the game after the call, and the
    mission object the call worked on as it is afterwards ([None] when no
    mission was active). *)
Definition _update_side_mission_after_round (self : InfiniteGame) (win : bool)
  : InfiniteGame * option SideMissionState :=
  match _active_side_mission self with
  | None => (self, None)
  | Some mission =>
      let definition := definition mission in
      let '(self, mission) :=
        match kind definition with
        | DOUBLE_OR_NOTHING =>
            if win then
              let mission := set_wins_in_row mission (wins_in_row mission + 1) in
              if wins_in_row mission >=? wins_required definition
              then (_double_balance_reward self,
                    set_active (set_completed mission true) false)
              else (self, mission)
            else (self, set_active (set_failed mission true) false)
        | BIG_MONEY =>
            let mission :=
              if win then set_completed mission true
              else set_failed mission true in
            (self, set_active mission false)
        | LUCKY_SEVEN =>
            if win then
              let mission := set_rounds_left mission (rounds_left mission - 1) in
              if rounds_left mission <=? 0
              then (self, set_active (set_completed mission true) false)
              else (self, mission)
            else (self, set_active (set_failed mission true) false)
        | GONE_BLIND =>
            let mission := set_rounds_left mission (rounds_left mission - 1) in
            if rounds_left mission <=? 0
            then (self, set_active (set_completed mission true) false)
            else (self, mission)
        | REVERSE_PSYCHOLOGY =>
            if win then
              let mission := set_rounds_left mission (rounds_left mission - 1) in
              if rounds_left mission <=? 0
              then (self, set_active (set_completed mission true) false)
              else (self, mission)
            else (self, set_active (set_failed mission true) false)
        end in
      if negb (active mission) then
        let self :=
          if completed mission
          then _unlock_achievement self "shadow_operator" else self in
        (with_active_side_mission self None, Some mission)
      else (with_active_side_mission self (Some mission), Some mission)
  end.

Definition _maybe_schedule_side_mission (self : InfiniteGame) (pick : nat)
  : InfiniteGame :=
  if negb (side_missions_enabled (_session self)) then self
  else if bool_decide (is_Some (_active_side_mission self))
          || bool_decide (is_Some (_pending_side_mission self)) then self
  else if _rounds_completed self =? 0 then self
  else if negb (_rounds_completed self mod _SIDE_MISSION_INTERVAL =? 0)
  then self
  else with_pending_side_mission self (Some (random_definition pick)).

Definition _after_round (self : InfiniteGame) (win : bool)
  (win_probability : float) (pick : nat) : InfiniteGame :=
  let self := with_rounds_completed self (_rounds_completed self + 1) in
  let self :=
    if win then
      let s := _session self in
      let s := set_win_streak s (win_streak s + 1) in
      let s := set_max_win_streak s (Z.max (max_win_streak s) (win_streak s)) in
      let self := with_session self s in
      let self :=
        if win_streak (_session self) >=? 5
        then _unlock_achievement self "win_streak_5" else self in
      let self :=
        if win_streak (_session self) >=? 10
        then _unlock_achievement self "win_streak_10" else self in
      if (win_probability <? 0x1.999999999999ap-4)%float
      then _unlock_achievement self "statistical_anomaly" else self
    else with_session self (set_win_streak (_session self) 0) in
  let self := _check_credit_achievements self in
  _maybe_schedule_side_mission self pick.

Definition _apply_command_result (self : InfiniteGame) (r : CommandResult)
  : InfiniteGame * bool :=
  if should_exit r then (with_state self TERMINATED, true)
  else match next_state r with
       | Some st => (with_state self st, true)
       | None => (self, false)
       end.

Definition _apply_side_mission_skip (self : InfiniteGame)
  (definition : SideMissionDefinition) : result InfiniteGame :=
  match skip_penalty_ratio definition with
  | Some ratio =>
      balance_f ← float_of_int (balance (_session self));
      rounded ← py_round (balance_f * ratio)%float;
      let fee := Z.max 1 rounded in
      Returns (with_session self
                 (set_balance (_session self)
                    (Z.max 0 (balance (_session self) - fee))))
  | None => Returns self
  end.

Definition accept_words : list string := [""; "y"; "yes"; "accept"]%string.
Definition skip_words : list string := ["skip"; "s"; "n"; "no"]%string.

(** The [while True] prompt of [_offer_side_mission]. [inputs] are the
    lines [get_input] will deliver; the lines not consumed are returned.
    Reading past the last line raises [EOFError], as [input()] does. *)
Fixpoint offer_prompt (self : InfiniteGame) (definition : SideMissionDefinition)
  (inputs : list string) : result (InfiniteGame * list string) :=
  match inputs with
  | [] => Raises EOFError
  | line :: inputs' =>
      let raw_input := str_lower (str_strip line) in
      match interpret raw_input with
      | Some command_result =>
          let '(self, interrupted) :=
            _apply_command_result self command_result in
          if interrupted
          then Returns (with_pending_side_mission self (Some definition),
                        inputs')
          else offer_prompt self definition inputs'
      | None =>
          if bool_decide (raw_input ∈ accept_words)
          then Returns (with_active_side_mission self (Some (start definition)),
                        inputs')
          else if bool_decide (raw_input ∈ skip_words)
          then self ← _apply_side_mission_skip self definition;
               Returns (self, inputs')
          else offer_prompt self definition inputs'
      end
  end.

Definition _offer_side_mission (self : InfiniteGame) (inputs : list string)
  : result (InfiniteGame * list string) :=
  match _pending_side_mission self with
  | None => Returns (self, inputs)
  | Some definition =>
      if negb (side_missions_enabled (_session self))
      then Returns (with_pending_side_mission self None, inputs)
      else offer_prompt (with_pending_side_mission self None) definition inputs
  end.

(** ** The steps of a game

    The fields [_pending_side_mission], [_active_side_mission] and
    [_rounds_completed] are written by [__init__], by the bookkeeping at
    the end of [_run_round] and by [_offer_side_mission], which
    [_handle_dealing] calls when a mission is pending and none is active.
    All other code (wagers, the shop, the settings menu that toggles
    [side_missions_enabled], commands) leaves the three fields alone. *)

Inductive step : InfiniteGame -> InfiniteGame -> Prop :=
  | step_round self win win_probability pick :
      step self
        (_after_round (_update_side_mission_after_round self win).1
                      win win_probability pick)
  | step_offer self inputs self' rest :
      is_Some (_pending_side_mission self) ->
      _active_side_mission self = None ->
      _offer_side_mission self inputs = Returns (self', rest) ->
      step self self'
  | step_other self self' :
      _pending_side_mission self' = _pending_side_mission self ->
      _active_side_mission self' = _active_side_mission self ->
      _rounds_completed self' = _rounds_completed self ->
      step self self'.

Inductive reachable : InfiniteGame -> Prop :=
  | reachable_init session : reachable (InfiniteGame_init session)
  | reachable_step self self' : reachable self -> step self self' ->
      reachable self'.

(** ** The advancement table of the specification

    [table_advance] follows the words of the specification's per-kind
    table, not the code: what one resolved round does to a mission. The
    mission carried by the outcome has its counter updated; completing or
    failing then deactivates it. *)

Inductive advancement :=
  | Continues (m : SideMissionState)
  | Completes (doubles_balance : bool) (m : SideMissionState)
  | Fails (m : SideMissionState).

Definition table_advance (m : SideMissionState) (win : bool) : advancement :=
  let decremented := set_rounds_left m (rounds_left m - 1) in
  let count_down :=
    if rounds_left decremented =? 0 then Completes false decremented
    else Continues decremented in
  match kind (definition m), win with
  | DOUBLE_OR_NOTHING, true =>
      let counted := set_wins_in_row m (wins_in_row m + 1) in
      if wins_in_row counted =? 3 then Completes true counted
      else Continues counted
  | DOUBLE_OR_NOTHING, false => Fails m
  | BIG_MONEY, true => Completes false m
  | BIG_MONEY, false => Fails m
  | LUCKY_SEVEN, true => count_down
  | LUCKY_SEVEN, false => Fails m
  | GONE_BLIND, _ => count_down
  | REVERSE_PSYCHOLOGY, true => count_down
  | REVERSE_PSYCHOLOGY, false => Fails m
  end.

(** A mission as [start] makes it from a catalogue definition and as the
    rounds before its end leave it: active, neither completed nor failed,
    at least one round left, and for Double-or-nothing fewer than the 3
    wins required. *)
Definition mission_in_progress (m : SideMissionState) : bool :=
  active m && negb (completed m) && negb (failed m)
  && (1 <=? rounds_left m) && (0 <=? wins_in_row m)
  && match kind (definition m) with
     | DOUBLE_OR_NOTHING =>
         (wins_required (definition m) =? 3) && (wins_in_row m <? 3)
     | _ => true
     end.

(** ** Vocabulary of the side-mission properties *)

(** The side-mission fields and the feature switch, which the bookkeeping
    on achievements and credits leaves alone. *)
Definition same_mission_fields (g g' : InfiniteGame) : Prop :=
  _pending_side_mission g' = _pending_side_mission g /\
  _active_side_mission g' = _active_side_mission g /\
  _rounds_completed g' = _rounds_completed g /\
  side_missions_enabled (_session g') = side_missions_enabled (_session g).

(** When [_maybe_schedule_side_mission] queues a mission. *)
Definition schedule_due (g : InfiniteGame) : Prop :=
  side_missions_enabled (_session g) = true /\
  _active_side_mission g = None /\
  _pending_side_mission g = None /\
  _rounds_completed g <> 0 /\
  _rounds_completed g mod 15 = 0.

(** How the prompt of an offer can end: the mission is queued again (a
    command interrupted the prompt), started, or dropped. *)
Inductive offer_outcome (d : SideMissionDefinition) (g g' : InfiniteGame)
  : Prop :=
  | offer_requeued :
      _pending_side_mission g' = Some d ->
      _active_side_mission g' = _active_side_mission g ->
      offer_outcome d g g'
  | offer_accepted :
      _pending_side_mission g' = None ->
      _active_side_mission g' = Some (start d) ->
      offer_outcome d g g'
  | offer_dropped :
      _pending_side_mission g' = None ->
      _active_side_mission g' = _active_side_mission g ->
      offer_outcome d g g'.

(** What holds of the side-mission fields in every reachable game. *)
Definition side_mission_invariant (g : InfiniteGame) : Prop :=
  0 <= _rounds_completed g /\
  (forall d, _pending_side_mission g = Some d -> In d _DEFINITIONS) /\
  (forall m, _active_side_mission g = Some m ->
             mission_in_progress m = true) /\
  (is_Some (_pending_side_mission g) -> _active_side_mission g = None).

(** ** Levenshtein distance

    Two accounts of the distance the prediction parser relies on, neither
    taken from the code: the recurrence over prefixes, and single-character
    edits. *)

(** The recurrence over prefixes (Wagner and Fischer): the distance of two
    prefixes is decided by their last characters. A prefix is given by its
    characters from the last one back to the first. *)
Fixpoint lev (a : list ascii) : list ascii -> Z :=
  match a with
  | [] => fun b => Z.of_nat (length b)
  | x :: a' =>
      fix lev_row (b : list ascii) : Z :=
        match b with
        | [] => Z.of_nat (length a)
        | y :: b' =>
            Z.min (lev_row b' + 1)
              (Z.min (lev a' b + 1) (lev a' b' + char_differs x y))
        end
  end.

Definition levenshtein_distance (a b : string) : Z :=
  lev (rev (list_ascii_of_string a)) (rev (list_ascii_of_string b)).

(** One insertion, deletion or substitution of a single character. *)
Inductive edit : list ascii -> list ascii -> Prop :=
  | edit_insert p c s : edit (p ++ s) (p ++ c :: s)
  | edit_delete p c s : edit (p ++ c :: s) (p ++ s)
  | edit_substitute p c c' s : edit (p ++ c :: s) (p ++ c' :: s).

(** The word is the target or one single-character edit away from it. *)
Definition one_edit_apart (word target : string) : Prop :=
  word = target \/
  edit (list_ascii_of_string word) (list_ascii_of_string target).

(** The keys of the alias table. *)
Definition alias_words : list string :=
  ["h"; "hi"; "high"; "higher"; "l"; "lo"; "low"; "lower"]%string.

(** The rows the dynamic program keeps: the distances from the prefix [u]
    of the first word to every prefix of [b], shortest first. Prefixes are
    given last character first, as in [lev]. *)
Definition reversed_prefixes (b : list ascii) : list (list ascii) :=
  map (fun j => rev (firstn j b)) (seq 0 (S (length b))).

Definition distance_row (u b : list ascii) : list Z :=
  map (lev u) (reversed_prefixes b).

(** The inputs the parser accepts: a literal alias, or a word within
    Levenshtein distance 1 of a canonical word. *)
Definition accepted_word (normalized : string) : Prop :=
  normalized ∈ alias_words \/
  exists target, target ∈ fuzzy_targets /\
                 levenshtein_distance normalized target <= 1.

(** ** Sample data

    The snapshot of the specification's worked example. *)
Definition test_snapshot : list Card :=
  [mkCard Rank.SIX Suit.HEARTS; mkCard Rank.TWO Suit.SPADES;
   mkCard Rank.JOKER Suit.JOKER].

(** The session of a new game ([SessionData()]), no achievement unlocked. *)
Definition default_session : SessionData :=
  mkSessionData 5000 5000 200 0 0 0 (mkUpgradeState 0 0 false 0)
    true true ∅ false false.

(** A game in which a Double-or-nothing mission has seen two wins. *)
Definition game_two_wins : InfiniteGame :=
  with_active_side_mission (InfiniteGame_init default_session)
    (Some (set_wins_in_row (start double_or_nothing) 2)).

(** The side-mission bookkeeping of a run of resolved rounds: one
    advancement step per outcome. *)
Definition advance_rounds (g : InfiniteGame) (outcomes : list bool)
  : InfiniteGame :=
  foldl (fun g win => (_update_side_mission_after_round g win).1) g outcomes.

(** The game after [n] lost rounds from a fresh start. *)
Definition game_after_losses (n : nat) : InfiniteGame :=
  Nat.iter n
    (fun g => _after_round (_update_side_mission_after_round g false).1
                false 0x1p-1%float 0)
    (InfiniteGame_init default_session).

From Stdlib Require Import DecimalString Permutation.

(** * Further code of the game

    The functions around the ones above: the comparisons derived for
    cards, deck construction and shuffling, the deck watcher, the
    achievement catalogue, the shop, and the round loop of the game. *)

(** ** models/card.py: derived comparisons

    [functools.total_ordering] derives [__gt__], [__le__] and [__ge__]
    from [__lt__] and [__eq__]; [__ne__] is the default inversion of
    [__eq__]. *)

Definition __ne__ (self : Card) (other : object) : rich_cmp :=
  match __eq__ self other with
  | Bool r => Bool (negb r)
  | NotImplemented => NotImplemented
  end.

(** [self != other] on two cards. *)
Definition card_ne (a b : Card) : bool :=
  match __ne__ a (CardObj b) with
  | Bool r => r
  | NotImplemented => true
  end.

(** [_gt_from_lt]: [not (self < other) and self != other]. *)
Definition __gt__ (self : Card) (other : object) : rich_cmp :=
  match __lt__ self other with
  | NotImplemented => NotImplemented
  | Bool op_result =>
      match other with
      | CardObj o => Bool (negb op_result && card_ne self o)
      | _ => NotImplemented
      end
  end.

(** [_le_from_lt]: [self < other or self == other]. *)
Definition __le__ (self : Card) (other : object) : rich_cmp :=
  match __lt__ self other with
  | NotImplemented => NotImplemented
  | Bool op_result =>
      match other with
      | CardObj o => Bool (op_result || card_eq self o)
      | _ => NotImplemented
      end
  end.

(** [_ge_from_lt]: [not (self < other)]. *)
Definition __ge__ (self : Card) (other : object) : rich_cmp :=
  match __lt__ self other with
  | NotImplemented => NotImplemented
  | Bool op_result => Bool (negb op_result)
  end.

(** [a > b], [a <= b], [a >= b] on two cards: the left operand's method
    answers. *)
Definition card_gt (a b : Card) : bool :=
  match __gt__ a (CardObj b) with Bool r => r | NotImplemented => false end.
Definition card_le (a b : Card) : bool :=
  match __le__ a (CardObj b) with Bool r => r | NotImplemented => false end.
Definition card_ge (a b : Card) : bool :=
  match __ge__ a (CardObj b) with Bool r => r | NotImplemented => false end.

#[global] Instance suit_eq_dec : EqDecision Suit.t.
Proof. solve_decision. Defined.

#[global] Instance card_eq_dec : EqDecision Card.
Proof. solve_decision. Defined.

(** ** models/deck.py: construction and shuffling *)

(** [Deck(cards, include_jokers=..., jokers_count=...)]. *)
Definition Deck__init__ (cards : option (list Card)) (include_jokers : bool)
  (jokers_count : Z) : result Deck.t :=
  if jokers_count <? 0 then Raises ValueError
  else
    Returns (Deck.mk
               match cards with
               | Some cards => cards
               | None => Deck._create_standard_deck include_jokers jokers_count
               end).

(** The random generator: the numbers it will deliver, and how many have
    been taken. *)
Record Random := mkRandom { rng : nat -> nat; rng_used : nat }.

(** [randbelow(n)]: a number below [n]. *)
Definition randbelow (r : Random) (n : nat) : nat * Random :=
  ((rng r (rng_used r) mod n)%nat, mkRandom (rng r) (S (rng_used r))).

(** [x[i], x[j] = x[j], x[i]]. *)
Definition swap_items {A} (x : list A) (i j : nat) : list A :=
  match x !! j, x !! i with
  | Some xj, Some xi => <[j := xi]> (<[i := xj]> x)
  | _, _ => x
  end.

(** [random.shuffle(x)], the standard library's Fisher-Yates loop:
    [for i in reversed(range(1, len(x))): j = randbelow(i + 1); swap]. The
    loop is given from index [i] down. *)
Fixpoint shuffle_from {A} (i : nat) (x : list A) (r : Random)
  : list A * Random :=
  match i with
  | O => (x, r)
  | S i' =>
      let '(j, r) := randbelow r (i + 1) in
      shuffle_from i' (swap_items x i j) r
  end.

Definition random_shuffle {A} (x : list A) (r : Random) : list A * Random :=
  shuffle_from (length x - 1) x r.

(** [Deck.shuffle]. *)
Definition Deck_shuffle (d : Deck.t) (r : Random) : Deck.t * Random :=
  let '(cards, r) := random_shuffle (Deck._cards d) r in (Deck.mk cards, r).

(** ** logic/observer.py: the deck watcher

    Observers are objects compared by identity; [_observers] holds their
    references, and [objects] below is the store the references point
    into. *)

Record DeckWatcher := mkDeckWatcher { _observers : list nat }.

(** The watcher as [__init__] leaves it. *)
Definition DeckWatcher_init : DeckWatcher := mkDeckWatcher [].

Definition attach (self : DeckWatcher) (observer : nat) : DeckWatcher :=
  if bool_decide (observer ∈ _observers self) then self
  else mkDeckWatcher (_observers self ++ [observer]).

(** [list.remove(x)]: drops the first item equal to [x]. *)
Fixpoint list_remove (x : nat) (l : list nat) : list nat :=
  match l with
  | [] => []
  | y :: l' => if bool_decide (x = y) then l' else y :: list_remove x l'
  end.

Definition detach (self : DeckWatcher) (observer : nat) : DeckWatcher :=
  if bool_decide (observer ∈ _observers self)
  then mkDeckWatcher (list_remove observer (_observers self))
  else self.

(** [notify]: every reference in [_observers], in order, has its
    [on_deck_updated] called with the snapshot. [on_update] is that method
    for the class of the observers in the store. The second component is
    the sequence of calls made. *)
Definition notify {S} (on_update : S -> list Card -> S) (self : DeckWatcher)
  (objects : gmap nat S) (remaining : list Card)
  : gmap nat S * list (nat * list Card) :=
  let snapshot := remaining in
  foldl (fun '(objects, calls) observer =>
           (alter (fun o => on_update o snapshot) observer objects,
            calls ++ [(observer, snapshot)]))
        (objects, []) (_observers self).

(** ** models/achievements.py *)

(** A value read from the save file. No induction over values is needed:
    the truth value of a list or an object looks at its emptiness only. *)
#[local] Unset Elimination Schemes.
Inductive json :=
  | JNull
  | JBool (b : bool)
  | JInt (z : Z)
  | JFloat (f : float)
  | JStr (s : string)
  | JList (items : list json)
  | JObject (items : list (string * json)).
#[local] Set Elimination Schemes.

(** [bool(value)]. *)
Definition truthy (value : json) : bool :=
  match value with
  | JNull => false
  | JBool b => b
  | JInt z => negb (z =? 0)
  | JFloat f => negb (f =? 0)%float
  | JStr s => negb (String.eqb s "")
  | JList items => match items with [] => false | _ => true end
  | JObject items => match items with [] => false | _ => true end
  end.

(** The keys of [AchievementCatalog.DEFINITIONS], in order. *)
Definition achievement_keys : list string :=
  ["first_deck"; "win_streak_5"; "win_streak_10"; "statistical_anomaly";
   "market_manipulator"; "long_haul"; "vault_breaker"; "first_purchase";
   "shadow_operator"; "high_roller"]%string.

Definition default_state : gmap string bool :=
  list_to_map ((fun key => (key, false)) <$> achievement_keys).

(** [merge_state]: the stored items are walked, and those whose key the
    state has overwrite it. *)
Definition merge_item (key : string) (value : json) (state : gmap string bool)
  : gmap string bool :=
  if bool_decide (is_Some (state !! key)) then <[key := truthy value]> state
  else state.

Definition merge_state (stored : gmap string json) : gmap string bool :=
  map_fold merge_item default_state stored.

(** ** logic/shop.py *)

(** A shop item; its [description] is display text and is left out. *)
Record ShopItem := mkShopItem {
  item_key : string;
  item_name : string;
  base_cost : Z;
  max_level : option Z
}.

Definition _ODDS_ITEM : ShopItem :=
  mkShopItem "1" "Odds Augmenter" 4000 (Some 7).
Definition _BET_ITEM : ShopItem :=
  mkShopItem "2" "Bet Amplifier" 3000 (Some 7).
Definition _AI_ITEM : ShopItem :=
  mkShopItem "3" "AI Card Counter" 30000 (Some 1).
Definition _JOKER_ITEM : ShopItem :=
  mkShopItem "4" "Double Jokers" 60000 (Some 1).

(** The upgrade attributes [getattr] and [setattr] are used with. *)
Inductive level_attribute := attr_odds_level | attr_bet_level | attr_joker_level.

Definition get_level (u : UpgradeState) (a : level_attribute) : N :=
  match a with
  | attr_odds_level => odds_level u
  | attr_bet_level => bet_level u
  | attr_joker_level => joker_level u
  end.

Definition set_level (u : UpgradeState) (a : level_attribute) (n : N)
  : UpgradeState :=
  match a with
  | attr_odds_level => mkUpgradeState n (bet_level u) (ai_counter u) (joker_level u)
  | attr_bet_level => mkUpgradeState (odds_level u) n (ai_counter u) (joker_level u)
  | attr_joker_level => mkUpgradeState (odds_level u) (bet_level u) (ai_counter u) n
  end.

Definition set_ai_counter (u : UpgradeState) (b : bool) : UpgradeState :=
  mkUpgradeState (odds_level u) (bet_level u) b (joker_level u).

Definition set_upgrades (s : SessionData) (u : UpgradeState) : SessionData :=
  mkSessionData (balance s) (total_credits s) (base_bet s) (decks_completed s)
    (win_streak s) (max_win_streak s) u (side_missions_enabled s)
    (calibration_enabled s) (achievements s) (visited_shop s)
    (visited_settings s).

Definition set_visited_shop (s : SessionData) (b : bool) : SessionData :=
  mkSessionData (balance s) (total_credits s) (base_bet s) (decks_completed s)
    (win_streak s) (max_win_streak s) (upgrades s) (side_missions_enabled s)
    (calibration_enabled s) (achievements s) b (visited_settings s).

Definition _next_cost (item : ShopItem) (level : Z) : Z :=
  base_cost item * 2 ^ level.

Definition at_max_level (item : ShopItem) (level : Z) : bool :=
  match max_level item with
  | Some m => level >=? m
  | None => false
  end.

Definition _attempt_level_purchase (session : SessionData) (item : ShopItem)
  (attribute : level_attribute) : SessionData :=
  let current_level := Z.of_N (get_level (upgrades session) attribute) in
  if at_max_level item current_level then session
  else
    let cost := _next_cost item current_level in
    if balance session <? cost then session
    else
      let session := set_balance session (balance session - cost) in
      set_upgrades session
        (set_level (upgrades session) attribute (Z.to_N (current_level + 1))).

Definition _attempt_toggle_purchase (session : SessionData) (item : ShopItem)
  : SessionData :=
  let current := ai_counter (upgrades session) in
  if current then session
  else
    let cost := base_cost item in
    if balance session <? cost then session
    else
      let session := set_balance session (balance session - cost) in
      set_upgrades session (set_ai_counter (upgrades session) true).

(** The [while True] loop of [Shop.open], over the lines [get_input] will
    deliver; reading past the last line raises [EOFError]. *)
Fixpoint shop_loop (session : SessionData) (inputs : list string)
  : result (SessionData * list string) :=
  match inputs with
  | [] => Raises EOFError
  | line :: inputs' =>
      let choice := str_lower (str_strip line) in
      if bool_decide (choice ∈ ["b"; "back"; "exit"]%string)
      then Returns (session, inputs')
      else if bool_decide (choice ∈ [item_key _ODDS_ITEM; "odds"; "augmenter"]%string)
      then shop_loop (_attempt_level_purchase session _ODDS_ITEM attr_odds_level)
                     inputs'
      else if bool_decide (choice ∈ [item_key _BET_ITEM; "bet"; "stake"]%string)
      then shop_loop (_attempt_level_purchase session _BET_ITEM attr_bet_level)
                     inputs'
      else if bool_decide (choice ∈ [item_key _AI_ITEM; "ai"; "counter"]%string)
      then shop_loop (_attempt_toggle_purchase session _AI_ITEM) inputs'
      else if bool_decide (choice ∈ [item_key _JOKER_ITEM; "joker"; "jokers"]%string)
      then shop_loop (_attempt_level_purchase session _JOKER_ITEM attr_joker_level)
                     inputs'
      else shop_loop session inputs'
  end.

Definition Shop_open (session : SessionData) (inputs : list string)
  : result (SessionData * list string) :=
  shop_loop (set_visited_shop session true) inputs.

(** ** Vocabulary of the shop properties *)

(** What the upgrades of a session have cost at the shop's prices, up to
    a constant: a level item at level [n] has cost
    [base_cost * (2 ^ n - 1)] in all. *)
Definition upgrades_value (u : UpgradeState) : Z :=
  base_cost _ODDS_ITEM * 2 ^ Z.of_N (odds_level u)
  + base_cost _BET_ITEM * 2 ^ Z.of_N (bet_level u)
  + base_cost _JOKER_ITEM * 2 ^ Z.of_N (joker_level u)
  + (if ai_counter u then base_cost _AI_ITEM else 0).

(** What a visit to the shop may do to a session. *)
Definition purchases (s s' : SessionData) : Prop :=
  balance s' + upgrades_value (upgrades s') =
    balance s + upgrades_value (upgrades s) /\
  (balance s' = balance s \/ (0 <= balance s' /\ balance s' < balance s)) /\
  (odds_level (upgrades s) <= odds_level (upgrades s')
     <= N.max (odds_level (upgrades s)) 7)%N /\
  (bet_level (upgrades s) <= bet_level (upgrades s')
     <= N.max (bet_level (upgrades s)) 7)%N /\
  (joker_level (upgrades s) <= joker_level (upgrades s')
     <= N.max (joker_level (upgrades s)) 1)%N /\
  (ai_counter (upgrades s) = true -> ai_counter (upgrades s') = true) /\
  total_credits s' = total_credits s /\
  base_bet s' = base_bet s /\
  decks_completed s' = decks_completed s /\
  win_streak s' = win_streak s /\
  max_win_streak s' = max_win_streak s /\
  side_missions_enabled s' = side_missions_enabled s /\
  calibration_enabled s' = calibration_enabled s /\
  achievements s' = achievements s /\
  visited_settings s' = visited_settings s.

(** The words that leave a menu. *)
Definition leaves_menu (line : string) : Prop :=
  str_lower (str_strip line) ∈ ["b"; "back"; "exit"]%string.

(** ** logic/settings_menu.py *)

Definition set_side_missions_enabled (s : SessionData) (b : bool)
  : SessionData :=
  mkSessionData (balance s) (total_credits s) (base_bet s) (decks_completed s)
    (win_streak s) (max_win_streak s) (upgrades s) b
    (calibration_enabled s) (achievements s) (visited_shop s)
    (visited_settings s).

Definition set_calibration_enabled (s : SessionData) (b : bool)
  : SessionData :=
  mkSessionData (balance s) (total_credits s) (base_bet s) (decks_completed s)
    (win_streak s) (max_win_streak s) (upgrades s) (side_missions_enabled s)
    b (achievements s) (visited_shop s) (visited_settings s).

Definition set_visited_settings (s : SessionData) (b : bool) : SessionData :=
  mkSessionData (balance s) (total_credits s) (base_bet s) (decks_completed s)
    (win_streak s) (max_win_streak s) (upgrades s) (side_missions_enabled s)
    (calibration_enabled s) (achievements s) (visited_shop s) b.

Definition set_decks_completed (s : SessionData) (n : Z) : SessionData :=
  mkSessionData (balance s) (total_credits s) (base_bet s) n
    (win_streak s) (max_win_streak s) (upgrades s) (side_missions_enabled s)
    (calibration_enabled s) (achievements s) (visited_shop s)
    (visited_settings s).

(** The [while True] loop of [SettingsMenu.open]. The choices [1] and [2]
    toggle the visual settings, which are display state and not part of
    the session here: they leave it as it is. *)
Fixpoint settings_loop (session : SessionData) (inputs : list string)
  : result (SessionData * list string) :=
  match inputs with
  | [] => Raises EOFError
  | line :: inputs' =>
      let choice := str_lower (str_strip line) in
      if bool_decide (choice ∈ ["b"; "back"; "exit"]%string)
      then Returns (session, inputs')
      else if String.eqb choice "1" then settings_loop session inputs'
      else if String.eqb choice "2" then settings_loop session inputs'
      else if String.eqb choice "3"
      then settings_loop
             (set_side_missions_enabled session
                (negb (side_missions_enabled session))) inputs'
      else if String.eqb choice "4"
      then settings_loop
             (set_calibration_enabled session
                (negb (calibration_enabled session))) inputs'
      else settings_loop session inputs'
  end.

Definition SettingsMenu_open (session : SessionData) (inputs : list string)
  : result (SessionData * list string) :=
  settings_loop (set_visited_settings session true) inputs.

(** [AchievementsMenu.open] lists the achievements and waits for a line. *)
Definition AchievementsMenu_open (session : SessionData)
  (inputs : list string) : result (SessionData * list string) :=
  match inputs with
  | [] => Raises EOFError
  | _ :: inputs' => Returns (session, inputs')
  end.

(** ** logic/infinite_game.py: labels for the scanner *)

(** [str(n)] for an [int]. *)
Definition str_of_int (n : Z) : string :=
  DecimalString.NilZero.string_of_int (Z.to_int n).

Definition _rank_label (rank : Rank.t) : result string :=
  if Rank.value rank <=? 10 then Returns (str_of_int (Rank.value rank))
  else
    match rank with
    | Rank.JACK => Returns "J"
    | Rank.QUEEN => Returns "Q"
    | Rank.KING => Returns "K"
    | Rank.ACE => Returns "A"
    | _ => Raises KeyError
    end%string.

Definition _card_label_for_scanner (card : Card) : result string :=
  rank_label ← _rank_label (rank card);
  let suit_label :=
    match suit card with
    | Suit.HEARTS => "H"
    | Suit.DIAMONDS => "D"
    | Suit.CLUBS => "C"
    | Suit.SPADES => "S"
    | _ => "J"
    end%string in
  Returns (rank_label ++ suit_label)%string.

(** ** logic/infinite_game.py: achievements of decks and of the shop *)

Definition _record_deck_completion (self : InfiniteGame) : InfiniteGame :=
  let self :=
    with_session self
      (set_decks_completed (_session self)
         (decks_completed (_session self) + 1)) in
  let self :=
    if decks_completed (_session self) >=? 1
    then _unlock_achievement self "first_deck" else self in
  if decks_completed (_session self) >=? 5
  then _unlock_achievement self "long_haul" else self.

Definition _check_shop_achievement (self : InfiniteGame) : InfiniteGame :=
  let self :=
    if (0 <? odds_level (upgrades (_session self)))%N
       || (0 <? bet_level (upgrades (_session self)))%N
       || ai_counter (upgrades (_session self))
       || (0 <? joker_level (upgrades (_session self)))%N
    then _unlock_achievement self "first_purchase" else self in
  if (7 <=? odds_level (upgrades (_session self)))%N
     && (7 <=? bet_level (upgrades (_session self)))%N
     && ai_counter (upgrades (_session self))
     && (1 <=? joker_level (upgrades (_session self)))%N
  then _unlock_achievement self "market_manipulator" else self.

Definition _check_final_extraction (self : InfiniteGame) : InfiniteGame :=
  if total_credits (_session self) <? _FINAL_CREDITS then self
  else with_state self TERMINATED.

(** [_estimate_odds]. *)
Definition _estimate_odds (current_card : Card) : result WinOdds :=
  if is_joker current_card then Returns (mkWinOdds 0 0 0)
  else
    let position := Rank.value (rank current_card) - 1 in
    higher ← int_truediv (Z.max 0 (13 - position)) 13;
    lower ← int_truediv (Z.max 0 (position - 1)) 13;
    Returns (mkWinOdds higher lower 0).

(** ** The running game

    What a run of the game depends on besides the game object: the lines
    [get_input] will deliver, the random generator, and what the camera
    scanner will answer, call by call. Messages shown and the saves to
    disk are not part of the model. *)

(** An answer of [scan_card]: the label detected, [None] when the scanner
    was closed, or [RuntimeError]. *)
Inductive scan_outcome :=
  | ScanReturns (detected : option string)
  | ScanRaises.

Record World := mkWorld {
  game : InfiniteGame;
  inputs : list string;
  random : Random;
  scanner : nat -> scan_outcome;
  scans_made : nat
}.

(** What can be raised in a run: the exceptions met so far, and
    [RuntimeError]. *)
Inductive raised :=
  | Exn (e : exn)
  | RuntimeError.

(** How a computation ends: with a value, with an exception, or not within
    the number of loop iterations allowed. *)
Inductive outcome (A : Type) :=
  | Done (a : A)
  | Raised (e : raised)
  | OutOfFuel.
Arguments Done {A} a.
Arguments Raised {A} e.
Arguments OutOfFuel {A}.

Definition Run (A : Type) : Type := World -> outcome (A * World).

#[global] Instance run_ret : MRet Run := fun A a w => Done (a, w).
#[global] Instance run_bind : MBind Run := fun A B k m w =>
  match m w with
  | Done (a, w') => k a w'
  | Raised e => Raised e
  | OutOfFuel => OutOfFuel
  end.

Definition raise {A} (e : raised) : Run A := fun _ => Raised e.
Definition out_of_fuel {A} : Run A := fun _ => OutOfFuel.

(** A computation of the exception monad, run in place. *)
Definition lift {A} (r : result A) : Run A := fun w =>
  match r with
  | Returns a => Done (a, w)
  | Raises e => Raised (Exn e)
  end.

Definition get_game : Run InfiniteGame := fun w => Done (game w, w).
Definition put_game (g : InfiniteGame) : Run unit := fun w =>
  Done (tt, mkWorld g (inputs w) (random w) (scanner w) (scans_made w)).
Definition modify_game (f : InfiniteGame -> InfiniteGame) : Run unit :=
  fun w => put_game (f (game w)) w.
Definition get_inputs : Run (list string) := fun w => Done (inputs w, w).
Definition put_inputs (lines : list string) : Run unit := fun w =>
  Done (tt, mkWorld (game w) lines (random w) (scanner w) (scans_made w)).
Definition get_random : Run Random := fun w => Done (random w, w).
Definition put_random (r : Random) : Run unit := fun w =>
  Done (tt, mkWorld (game w) (inputs w) r (scanner w) (scans_made w)).

(** [scan_card(target_label)]: the next answer of the scanner. *)
Definition scan_card (target_label : string) : Run scan_outcome := fun w =>
  Done (scanner w (scans_made w),
        mkWorld (game w) (inputs w) (random w) (scanner w) (S (scans_made w))).

(** [random.choice(seq)]: [seq[randbelow(len(seq))]], [IndexError] on an
    empty sequence. *)
Definition random_choice {A} (seq : list A) : Run A :=
  match seq with
  | [] => raise (Exn IndexError)
  | x :: _ =>
      r ← get_random;
      let '(j, r) := randbelow r (length seq) in
      put_random r;;
      mret (nth j seq x)
  end.

Definition with_deck (g : InfiniteGame) (d : option Deck.t) : InfiniteGame :=
  mkInfiniteGame (_session g) (_state g) d (_current_card g) (_ai_counter g)
    (_active_side_mission g) (_rounds_completed g) (_pending_side_mission g).
Definition with_current_card (g : InfiniteGame) (c : option Card)
  : InfiniteGame :=
  mkInfiniteGame (_session g) (_state g) (_deck g) c (_ai_counter g)
    (_active_side_mission g) (_rounds_completed g) (_pending_side_mission g).
Definition with_ai_counter (g : InfiniteGame) (c : AICardCounter)
  : InfiniteGame :=
  mkInfiniteGame (_session g) (_state g) (_deck g) (_current_card g) c
    (_active_side_mission g) (_rounds_completed g) (_pending_side_mission g).

(** The watcher of the game: [__init__] attaches the card counter, object
    [0] of the store, and nothing is attached or detached later. *)
Definition _deck_watcher : DeckWatcher := attach DeckWatcher_init 0%nat.

(** [self._deck_watcher.notify(remaining)]. *)
Definition notify_watcher (self : InfiniteGame) (remaining : list Card)
  : InfiniteGame :=
  let '(objects, _) :=
    notify on_deck_updated _deck_watcher
      {[ 0%nat := _ai_counter self ]} remaining in
  match objects !! 0%nat with
  | Some counter => with_ai_counter self counter
  | None => self
  end.

Definition state_eqb (a b : GameState) : bool :=
  match a, b with
  | STARTUP, STARTUP | DEALING, DEALING | SHOPPING, SHOPPING
  | SETTINGS, SETTINGS | ACHIEVEMENTS, ACHIEVEMENTS
  | TERMINATED, TERMINATED => true
  | _, _ => false
  end.

(** [self._deck is None or len(self._deck) == 0]. *)
Definition deck_exhausted (self : InfiniteGame) : bool :=
  match _deck self with
  | None => true
  | Some deck => Deck.len deck =? 0
  end.

Definition _deal_card : Run Card :=
  self ← get_game;
  match _deck self with
  | None => raise RuntimeError
  | Some deck =>
      let '(deck, dealt) := Deck.deal deck in
      card ← lift dealt;
      put_game (notify_watcher (with_deck self (Some deck))
                  (Deck.remaining_cards deck));;
      mret card
  end.

Definition _calibration_target_card : Run (option Card) :=
  self ← get_game;
  match _deck self with
  | None => mret None
  | Some deck =>
      let candidates :=
        List.filter (fun card => negb (is_joker card))
          (Deck.remaining_cards deck) in
      match candidates with
      | [] => mret None
      | _ => card ← random_choice candidates; mret (Some card)
      end
  end.

(** [bool(detected)] for what the scanner returns. *)
Definition detected_truthy (detected : option string) : bool :=
  match detected with
  | Some label => negb (String.eqb label "")
  | None => false
  end.

(** The outsourcing fee: [max(1, int(round(balance * 0.10)))] leaves the
    balance, which does not go below 0. *)
Definition pay_calibration_fee (self : InfiniteGame) : result InfiniteGame :=
  balance_f ← float_of_int (balance (_session self));
  rounded ← py_round (balance_f * 0x1.999999999999ap-4)%float;
  let fee := Z.max 1 rounded in
  Returns (with_session self
             (set_balance (_session self)
                (Z.max 0 (balance (_session self) - fee)))).

(** The [while True] prompt of [_handle_calibration], over the lines
    [lines] that are left to read. *)
Fixpoint calibration_prompt (target_label : string) (lines : list string)
  : Run unit :=
  match lines with
  | [] => raise (Exn EOFError)
  | line :: lines' =>
      put_inputs lines';;
      let choice := str_lower (str_strip line) in
      if bool_decide (choice ∈ ["scan"; "s"]%string) then
        answer ← scan_card target_label;
        match answer with
        | ScanRaises => mret tt
        | ScanReturns detected =>
            if detected_truthy detected then mret tt
            else calibration_prompt target_label lines'
        end
      else if bool_decide (choice ∈ ["pay"; "p"; "outsource"]%string) then
        self ← get_game;
        self ← lift (pay_calibration_fee self);
        put_game self
      else calibration_prompt target_label lines'
  end.

Definition _handle_calibration : Run unit :=
  self ← get_game;
  if negb (calibration_enabled (_session self)) then mret tt
  else
    match _deck self with
    | None => mret tt
    | Some _ =>
        target_card ← _calibration_target_card;
        match target_card with
        | None => mret tt
        | Some target_card =>
            target_label ← lift (_card_label_for_scanner target_card);
            lines ← get_inputs;
            calibration_prompt target_label lines
        end
    end.

(** [self._deck.shuffle()] on a deck, with the generator of the run. *)
Definition shuffle_deck (deck : Deck.t) : Run Deck.t :=
  r ← get_random;
  let '(deck, r) := Deck_shuffle deck r in
  put_random r;;
  mret deck.

Definition _prime_new_deck (initial : bool) : Run unit :=
  (if negb initial then modify_game _record_deck_completion else mret tt);;
  self ← get_game;
  let jokers := _BASE_JOKERS * joker_multiplier (upgrades (_session self)) in
  deck ← lift (Deck__init__ None true jokers);
  deck ← shuffle_deck deck;
  put_game (notify_watcher (with_deck self (Some deck))
              (Deck.remaining_cards deck));;
  _handle_calibration.

(** [_deal_starting_card]: the [while True] loop, for at most [fuel]
    iterations. *)
Fixpoint _deal_starting_card (fuel : nat) : Run Card :=
  match fuel with
  | O => out_of_fuel
  | S fuel' =>
      self ← get_game;
      (if deck_exhausted self then _prime_new_deck false else mret tt);;
      card ← _deal_card;
      if negb (is_joker card) then mret card
      else _deal_starting_card fuel'
  end.

Definition _check_deck_depleted (fuel : nat) (next_card : option Card)
  : Run unit :=
  self ← get_game;
  if deck_exhausted self then
    _prime_new_deck false;;
    card ← _deal_starting_card fuel;
    modify_game (fun self => with_current_card self (Some card))
  else
    match next_card with
    | Some next_card =>
        modify_game (fun self => with_current_card self (Some next_card))
    | None => mret tt
    end.

(** The [while True] prompt of [_prompt_prediction], over the lines that
    are left to read. *)
Fixpoint prediction_prompt (payout_table : PayoutTable) (lines : list string)
  : Run (option Prediction) :=
  match lines with
  | [] => raise (Exn EOFError)
  | raw_input :: lines' =>
      put_inputs lines';;
      match interpret raw_input with
      | Some command_result =>
          self ← get_game;
          let '(self, interrupted) :=
            _apply_command_result self command_result in
          put_game self;;
          if interrupted then mret None
          else prediction_prompt payout_table lines'
      | None =>
          match input_from_player raw_input with
          | Raises InvalidPredictionError =>
              prediction_prompt payout_table lines'
          | Raises e => raise (Exn e)
          | Returns prediction =>
              match _payout_for_prediction prediction payout_table with
              | None => prediction_prompt payout_table lines'
              | Some _ => mret (Some prediction)
              end
          end
      end
  end.

Definition _prompt_prediction (payout_table : PayoutTable)
  : Run (option Prediction) :=
  lines ← get_inputs;
  prediction_prompt payout_table lines.

(** [_after_round] with the generator of the run: a number is drawn when
    [_maybe_schedule_side_mission] picks a mission, that is when a mission
    is pending afterwards and none was before. *)
Definition after_round (win : bool) (win_probability : float) : Run unit :=
  self ← get_game;
  r ← get_random;
  let '(pick, r) := randbelow r (length _DEFINITIONS) in
  let self' := _after_round self win win_probability pick in
  put_game self';;
  if bool_decide (is_Some (_pending_side_mission self'))
     && negb (bool_decide (is_Some (_pending_side_mission self)))
  then put_random r else mret tt.

(** The wager of a won round: the payout, raised by the bonus of the
    mission, is paid out. *)
Definition pay_out (prediction : Prediction) (payout_table : PayoutTable)
  (self : InfiniteGame) : InfiniteGame :=
  match _payout_for_prediction prediction payout_table with
  | Some payout =>
      let payout := _apply_bonus_multiplier self payout in
      _apply_win self payout (stake payout_table)
  | None => self
  end.

Definition _run_round (fuel : nat) : Run unit :=
  self ← get_game;
  match _current_card self with
  | None => mret tt
  | Some current_card =>
      let side_mission := _active_side_mission self in
      let reverse_active :=
        match side_mission with
        | Some side_mission => is_reverse side_mission
        | None => false
        end in
      exact_odds ← lift (win_odds (_ai_counter self) current_card);
      payout_table ← lift (_build_payouts (_session self) exact_odds);
      prediction ← _prompt_prediction payout_table;
      match prediction with
      | None => mret tt
      | Some prediction =>
          let win_probability :=
            _win_probability exact_odds prediction reverse_active in
          modify_game (fun self =>
            with_session self
              (set_balance (_session self)
                 (balance (_session self) - stake payout_table)));;
          next_card ← _deal_card;
          if is_joker next_card then
            modify_game (pay_out prediction payout_table);;
            modify_game (fun self =>
              (_update_side_mission_after_round self true).1);;
            after_round true win_probability;;
            modify_game _check_final_extraction;;
            card ← _deal_starting_card fuel;
            modify_game (fun self => with_current_card self (Some card));;
            _check_deck_depleted fuel None
          else
            let win :=
              _is_prediction_correct current_card next_card prediction
                reverse_active in
            (if win then modify_game (pay_out prediction payout_table)
             else mret tt);;
            modify_game (fun self =>
              (_update_side_mission_after_round self win).1);;
            after_round win win_probability;;
            self ← get_game;
            if balance (_session self) <=? 0
            then put_game (with_state self TERMINATED)
            else
              modify_game _check_final_extraction;;
              _check_deck_depleted fuel (Some next_card)
      end
  end.

(** [_offer_side_mission] on the lines of the run. *)
Definition offer_side_mission : Run unit :=
  self ← get_game;
  lines ← get_inputs;
  '(self, lines) ← lift (_offer_side_mission self lines);
  put_game self;;
  put_inputs lines.

(** [_handle_dealing]: the [while] loop, for at most [rounds] iterations;
    [fuel] bounds the loops that deal a starting card. *)
Fixpoint _handle_dealing (fuel rounds : nat) : Run unit :=
  match rounds with
  | O => out_of_fuel
  | S rounds' =>
      self ← get_game;
      if negb (state_eqb (_state self) DEALING) then mret tt
      else if balance (_session self) <=? 0
      then put_game (with_state self TERMINATED)
      else if balance (_session self) <? _stake_amount (_session self)
      then put_game (with_state self TERMINATED)
      else
        let play : Run unit :=
          self ← get_game;
          (if deck_exhausted self then
             _prime_new_deck false;;
             card ← _deal_starting_card fuel;
             modify_game (fun self => with_current_card self (Some card))
           else mret tt);;
          self ← get_game;
          (match _current_card self with
           | None =>
               card ← _deal_starting_card fuel;
               modify_game (fun self => with_current_card self (Some card))
           | Some _ => mret tt
           end);;
          _run_round fuel;;
          _handle_dealing fuel rounds' in
        if bool_decide (is_Some (_pending_side_mission self))
           && negb (bool_decide (is_Some (_active_side_mission self)))
        then
          offer_side_mission;;
          self ← get_game;
          if negb (state_eqb (_state self) DEALING) then mret tt
          else play
        else play
  end.

Definition _handle_startup (fuel : nat) : Run unit :=
  modify_game _check_shop_achievement;;
  modify_game _check_credit_achievements;;
  _prime_new_deck true;;
  card ← _deal_starting_card fuel;
  modify_game (fun self => with_current_card self (Some card));;
  modify_game (fun self => with_state self DEALING).

(** A menu that works on the session and reads lines. *)
Definition open_menu
  (menu : SessionData -> list string -> result (SessionData * list string))
  : Run unit :=
  self ← get_game;
  lines ← get_inputs;
  '(session, lines) ← lift (menu (_session self) lines);
  put_game (with_session self session);;
  put_inputs lines.

(** [run]: the [while] loop, for at most [turns] iterations. *)
Fixpoint run (fuel turns : nat) : Run unit :=
  match turns with
  | O => out_of_fuel
  | S turns' =>
      self ← get_game;
      match _state self with
      | TERMINATED => mret tt
      | STARTUP => _handle_startup fuel;; run fuel turns'
      | DEALING => _handle_dealing fuel fuel;; run fuel turns'
      | SHOPPING =>
          open_menu Shop_open;;
          modify_game _check_shop_achievement;;
          modify_game (fun self => with_state self DEALING);;
          run fuel turns'
      | SETTINGS =>
          open_menu SettingsMenu_open;;
          modify_game (fun self => with_state self DEALING);;
          run fuel turns'
      | ACHIEVEMENTS =>
          open_menu AchievementsMenu_open;;
          modify_game (fun self => with_state self DEALING);;
          run fuel turns'
      end
  end.

(** ** Vocabulary of the properties of a run *)

(** What holds of a computation at a world: of its value and the world it
    leaves when it ends, of the exception when it raises one, and [F]
    when the iterations allowed are used up. *)
Definition wp {A} (m : Run A) (Q : A -> World -> Prop) (E : raised -> Prop)
  (F : Prop) (w : World) : Prop :=
  match m w with
  | Done (a, w') => Q a w'
  | Raised e => E e
  | OutOfFuel => F
  end.

(** The card counter holds the counts of the cards left in the deck. *)
Definition in_sync (g : InfiniteGame) : Prop :=
  forall deck, _deck g = Some deck ->
    _ai_counter g =
      on_deck_updated AICardCounter_init (Deck.remaining_cards deck).

(** Past the start-up there is a current card. *)
Definition ready (g : InfiniteGame) : Prop :=
  _state g <> STARTUP -> is_Some (_current_card g).

(** The number of cards of the deck that are not jokers. *)
Definition non_jokers (g : InfiniteGame) : Z :=
  match _deck g with
  | Some deck =>
      count_cards (fun card => negb (is_joker card))
        (Deck.remaining_cards deck)
  | None => 0
  end.

(** Exhausted input and numbers beyond the range of a float. *)
Definition input_or_range_error (e : raised) : Prop :=
  e = Exn EOFError \/ e = Exn OverflowError \/ e = Exn ValueError.

(** What only grows in a session: the credits extracted, the decks
    completed, the best streak, the upgrades and the achievements; the
    base bet stays. *)
Definition session_progress (s s' : SessionData) : Prop :=
  total_credits s <= total_credits s' /\
  decks_completed s <= decks_completed s' /\
  max_win_streak s <= max_win_streak s' /\
  base_bet s' = base_bet s /\
  (odds_level (upgrades s) <= odds_level (upgrades s'))%N /\
  (bet_level (upgrades s) <= bet_level (upgrades s'))%N /\
  (joker_level (upgrades s) <= joker_level (upgrades s'))%N /\
  (ai_counter (upgrades s) = true -> ai_counter (upgrades s') = true) /\
  (forall key, achievement_unlocked s key = true ->
               achievement_unlocked s' key = true).

(** What a function of the game carries over from the game it is called
    on to the game it leaves. *)
Definition carries (g g' : InfiniteGame) : Prop :=
  (in_sync g -> in_sync g') /\
  (reachable g -> reachable g') /\
  (ready g -> ready g').

(** The deck, the counter and the current card are as before. *)
Definition same_table (g g' : InfiniteGame) : Prop :=
  _deck g' = _deck g /\
  _ai_counter g' = _ai_counter g /\
  _current_card g' = _current_card g.

(** The state of the game and the side-mission fields are as before. *)
Definition same_play (g g' : InfiniteGame) : Prop :=
  _state g' = _state g /\
  _pending_side_mission g' = _pending_side_mission g /\
  _active_side_mission g' = _active_side_mission g /\
  _rounds_completed g' = _rounds_completed g.

(** Bookkeeping on the session that does not move the balance. *)
Definition bookkeeping (g g' : InfiniteGame) : Prop :=
  same_table g g' /\ same_play g g' /\
  session_progress (_session g) (_session g') /\
  balance (_session g') = balance (_session g) /\
  side_missions_enabled (_session g') = side_missions_enabled (_session g).

(** Work on the deck: dealing, priming a new deck, the calibration. The
    play is as before, a current card stays one, the counter follows the
    deck, and a fee does not take the balance below 0. *)
Definition deck_work (g g' : InfiniteGame) : Prop :=
  same_play g g' /\
  (is_Some (_current_card g) -> is_Some (_current_card g')) /\
  (in_sync g -> in_sync g') /\
  session_progress (_session g) (_session g') /\
  (0 <= balance (_session g) -> 0 <= balance (_session g')).

(** With [strict], only exhausted input and range errors are excused;
    without, every exception is. *)
Definition excused (strict : Prop) (e : raised) : Prop :=
  strict -> input_or_range_error e.

(** What the calibration and the priming of a deck do besides the work
    on the deck: a fee may leave the balance, not below 0. *)
Definition fee_work (g g' : InfiniteGame) : Prop :=
  same_table g g' /\ same_play g g' /\
  session_progress (_session g) (_session g') /\
  (0 <= balance (_session g) -> 0 <= balance (_session g')).

(** ** Vocabulary of the bounds on iterations *)

Definition deck_length (g : InfiniteGame) : Z :=
  match _deck g with
  | Some deck => Deck.len deck
  | None => 0
  end.

(** The jokers left in the deck. *)
Definition jokers_left (g : InfiniteGame) : Z :=
  match _deck g with
  | Some deck => count_cards is_joker (Deck.remaining_cards deck)
  | None => 0
  end.

(** The jokers [_prime_new_deck] puts into a deck. *)
Definition jokers_per_deck (g : InfiniteGame) : Z :=
  _BASE_JOKERS * joker_multiplier (upgrades (_session g)).

(** A bound on the cards [_deal_starting_card] deals before it returns:
    the jokers on top of the first other card, or else the whole deck and
    then the jokers of a new one. *)
Definition deals_to_start (g : InfiniteGame) : Z :=
  if 1 <=? non_jokers g then jokers_left g + 1
  else deck_length g + jokers_per_deck g + 1.

(** The iterations that suffice for the decks of this game with its
    upgrades as they are. *)
Definition effort (g : InfiniteGame) : Z :=
  Z.max (deck_length g) (52 + jokers_per_deck g) + jokers_per_deck g + 1.

(** The jokers of a deck once the shop has sold its joker upgrade. *)
Definition most_jokers (g : InfiniteGame) : Z :=
  _BASE_JOKERS * 2 ^ Z.of_N (N.max (joker_level (upgrades (_session g))) 1).

(** The iterations that suffice whatever the shop sells. *)
Definition capacity (g : InfiniteGame) : Z :=
  Z.max (deck_length g) (52 + most_jokers g) + most_jokers g + 1.

(** The turns of [run] that suffice: one for each line read, and those of
    the start and the end. *)
Definition turns_needed (w : World) : nat :=
  (length (inputs w) +
   match _state (game w) with
   | STARTUP => 3
   | TERMINATED => 1
   | _ => 2
   end)%nat.

(** Work on the deck, as to the bounds: the upgrades and the state are as
    before, a current card stays one, the deck is no longer than the
    longer of the old and a new one, and no line is given back. *)
Definition deck_effort (w w' : World) : Prop :=
  upgrades (_session (game w')) = upgrades (_session (game w)) /\
  _state (game w') = _state (game w) /\
  (is_Some (_current_card (game w)) -> is_Some (_current_card (game w'))) /\
  deck_length (game w') <=
    Z.max (deck_length (game w)) (52 + jokers_per_deck (game w)) /\
  (length (inputs w') <= length (inputs w))%nat.

(** Play, as to the bounds: the upgrades are as before, the game does not
    go back to the start-up, a current card stays one, the deck is no
    longer than the longer of the old and a new one, and no line is given
    back. *)
Definition play_effort (w w' : World) : Prop :=
  upgrades (_session (game w')) = upgrades (_session (game w)) /\
  (_state (game w) <> STARTUP -> _state (game w') <> STARTUP) /\
  (is_Some (_current_card (game w)) -> is_Some (_current_card (game w'))) /\
  deck_length (game w') <=
    Z.max (deck_length (game w)) (52 + jokers_per_deck (game w)) /\
  (length (inputs w') <= length (inputs w))%nat.

(** What a menu does to the bounds: a line at least is read, and the
    joker upgrade stays within what the shop sells. *)
Definition menu_effort
  (menu : SessionData -> list string -> result (SessionData * list string))
  : Prop :=
  forall s lines s' rest,
    menu s lines = Returns (s', rest) ->
    (length rest < length lines)%nat /\
    N.max (joker_level (upgrades s')) 1 = N.max (joker_level (upgrades s)) 1.

(** ** Sample runs

    A new game on given lines, with a generator that always answers 0 and
    a scanner that detects nothing. *)
Definition sample_world (lines : list string) : World :=
  mkWorld (InfiniteGame_init default_session) lines
    (mkRandom (fun _ => 0%nat) 0) (fun _ => ScanReturns None) 0.

(** ** Vocabulary of the settings menu *)

(** How many of the lines read select the option [choice]. *)
Definition selections (choice : string) (read : list string) : nat :=
  length (List.filter
            (fun line => String.eqb (str_lower (str_strip line)) choice) read).

(** A switch selected [times] times. *)
Definition toggled (times : nat) (switch : bool) : bool :=
  if Nat.odd times then negb switch else switch.

(** ** Vocabulary of the calibration *)

(** The game is as before but for the balance, which is as before or is
    what a fee of at least 1 leaves of it: at most the balance less 1, and
    0 when that is below 0. *)
Definition only_a_fee (g g' : InfiniteGame) : Prop :=
  exists left,
    g' = with_session g (set_balance (_session g) left) /\
    (left = balance (_session g) \/
     (0 <= left /\ left <= Z.max 0 (balance (_session g) - 1))).


(** * Properties *)

(** ** Cards *)

Lemma rank_value_inj (a b : Rank.t) : Rank.value a = Rank.value b -> a = b.
Proof. destruct a, b; simpl; intros H; first [reflexivity | discriminate H]. Qed.

Lemma rank_eqb_eq (a b : Rank.t) : Rank.eqb a b = true <-> a = b.
Proof.
  unfold Rank.eqb. rewrite Z.eqb_eq. split.
  - apply rank_value_inj.
  - intros ->. reflexivity.
Qed.

Lemma rank_eqb_refl (a : Rank.t) : Rank.eqb a a = true.
Proof. apply rank_eqb_eq. reflexivity. Qed.

(** C9. Equality and ordering of cards look at the rank only: [a == b]
    holds exactly when the ranks are equal, whatever the suits, and [a < b]
    exactly when the rank of [a] is below the rank of [b]. *)
Theorem card_comparison_by_rank (a b : Card) :
  __eq__ a (CardObj b) = Bool (card_eq a b) /\
  __lt__ a (CardObj b) = Bool (card_lt a b) /\
  (card_eq a b = true <-> rank a = rank b) /\
  (card_lt a b = true <-> Rank.value (rank a) < Rank.value (rank b)) /\
  (forall s1 s2, card_eq (mkCard (rank a) s1) (mkCard (rank a) s2) = true).
Proof.
  repeat split.
  - unfold card_eq. simpl. intros H. apply rank_eqb_eq, H.
  - unfold card_eq. simpl. intros H. apply rank_eqb_eq, H.
  - unfold card_lt, Rank.ltb. simpl. apply Z.ltb_lt.
  - unfold card_lt, Rank.ltb. simpl. apply Z.ltb_lt.
  - intros s1 s2. unfold card_eq. simpl. apply rank_eqb_refl.
Qed.

Example king_of_clubs_equals_king_of_hearts :
  card_eq (mkCard Rank.KING Suit.CLUBS) (mkCard Rank.KING Suit.HEARTS) = true /\
  card_lt (mkCard Rank.TWO Suit.SPADES) (mkCard Rank.JACK Suit.DIAMONDS) = true.
Proof. split; reflexivity. Qed.

(** ** Dealing *)

Lemma pop_snoc {A} (l : list A) (x : A) :
  Deck.pop (l ++ [x]) = (l, Returns x).
Proof.
  unfold Deck.pop. rewrite last_snoc, removelast_last. reflexivity.
Qed.

Lemma deal_snoc (cs : list Card) (c : Card) :
  Deck.deal (Deck.mk (cs ++ [c])) = (Deck.mk cs, Returns c).
Proof.
  unfold Deck.deal. simpl Deck._cards. rewrite pop_snoc.
  destruct (cs ++ [c]) eqn:E; [|reflexivity].
  destruct cs; discriminate E.
Qed.

(** C8. [deal] on an empty deck raises the empty-deck error and leaves the
    deck as it was; on a deck whose card list is [cs ++ [c]] it returns the
    last card [c], leaves [cs], and the length drops by exactly one. Every
    deck is of one of the two shapes. *)
Theorem deal_spec (d : Deck.t) :
  (Deck._cards d = [] -> Deck.deal d = (d, Raises DeckEmptyError)) /\
  (forall cs c, Deck._cards d = cs ++ [c] ->
     Deck.deal d = (Deck.mk cs, Returns c) /\
     Deck.len (Deck.deal d).1 = Deck.len d - 1) /\
  (Deck._cards d = [] \/ exists cs c, Deck._cards d = cs ++ [c]).
Proof.
  destruct d as [cards]. simpl. repeat split.
  - intros ->. reflexivity.
  - subst cards. apply deal_snoc.
  - subst cards. rewrite deal_snoc. unfold Deck.len. simpl.
    rewrite length_app. simpl. lia.
  - destruct cards as [|c cs] using rev_ind; [left; reflexivity|].
    right. eauto.
Qed.

(** Dealing a deck out returns every card of the sequence once, the last
    one first, and leaves the deck empty: no position is dealt twice. *)
Lemma deal_many_all (cs : list Card) :
  deal_many (Deck.mk cs) (length cs) = (Deck.mk [], rev cs).
Proof.
  induction cs as [|c cs IH] using rev_ind; [reflexivity|].
  rewrite length_app, Nat.add_1_r, rev_app_distr. cbn [deal_many].
  rewrite deal_snoc, IH. reflexivity.
Qed.

(** ** Prediction correctness *)

(** C2. Equal ranks are a loss for either prediction and either setting of
    [reverse]; when the ranks differ the result is the strict comparison
    the prediction names, inverted exactly when [reverse] is set. *)
Theorem is_prediction_correct_spec
  (current_card next_card : Card) (prediction : Prediction) (reverse : bool) :
  (rank next_card = rank current_card ->
     _is_prediction_correct current_card next_card prediction reverse = false) /\
  (rank next_card <> rank current_card ->
     _is_prediction_correct current_card next_card prediction reverse =
     xorb reverse
       match prediction with
       | HIGHER => Rank.value (rank current_card) <? Rank.value (rank next_card)
       | LOWER => Rank.value (rank next_card) <? Rank.value (rank current_card)
       end).
Proof.
  unfold _is_prediction_correct. split.
  - intros ->. rewrite rank_eqb_refl. reflexivity.
  - intros Hne.
    destruct (Rank.eqb (rank next_card) (rank current_card)) eqn:E.
    + apply rank_eqb_eq in E. contradiction.
    + unfold Rank.gtb, Rank.ltb. rewrite Z.gtb_ltb.
      destruct prediction, reverse; simpl; try reflexivity;
        match goal with |- negb ?b = _ => destruct b; reflexivity end.
Qed.

(** C10. For two cards of different rank and a fixed [reverse] flag,
    exactly one of the two predictions is scored correct. *)
Theorem exactly_one_prediction_correct
  (current_card next_card : Card) (reverse : bool) :
  Rank.eqb (rank next_card) (rank current_card) = false ->
  _is_prediction_correct current_card next_card HIGHER reverse =
  negb (_is_prediction_correct current_card next_card LOWER reverse).
Proof.
  intros E. unfold _is_prediction_correct. rewrite E.
  unfold Rank.eqb in E. apply Z.eqb_neq in E.
  unfold Rank.gtb, Rank.ltb. rewrite Z.gtb_ltb.
  destruct (Z.ltb_spec (Rank.value (rank current_card))
                       (Rank.value (rank next_card)));
  destruct (Z.ltb_spec (Rank.value (rank next_card))
                       (Rank.value (rank current_card)));
  destruct reverse; simpl; first [reflexivity | lia].
Qed.

Lemma exactly_one_prediction_correct_witness :
  Rank.eqb Rank.SEVEN Rank.FIVE = false /\
  _is_prediction_correct (mkCard Rank.FIVE Suit.CLUBS)
    (mkCard Rank.SEVEN Suit.SPADES) HIGHER true =
  negb (_is_prediction_correct (mkCard Rank.FIVE Suit.CLUBS)
          (mkCard Rank.SEVEN Suit.SPADES) LOWER true).
Proof.
  split; [reflexivity|].
  apply (exactly_one_prediction_correct (mkCard Rank.FIVE Suit.CLUBS)
           (mkCard Rank.SEVEN Suit.SPADES) true).
  reflexivity.
Defined.

(** ** Exact odds *)

Lemma float_of_int_small (n : Z) :
  0 <= n < 2 ^ 63 -> float_of_int n = Returns (float_of_uint63 n).
Proof.
  intros [H0 H1]. unfold float_of_int.
  rewrite Z.abs_eq by assumption.
  destruct (Z.ltb_spec n (2 ^ 63)); [|lia].
  destruct (Z.ltb_spec n 0); [lia|]. reflexivity.
Qed.

Lemma int_truediv_small (a b : Z) :
  0 <= a < 2 ^ 63 -> 0 < b < 2 ^ 63 ->
  int_truediv a b = Returns (float_of_uint63 a / float_of_uint63 b)%float.
Proof.
  intros Ha Hb. unfold int_truediv.
  destruct (Z.eqb_spec b 0); [lia|].
  rewrite !float_of_int_small by lia. reflexivity.
Qed.

Section CounterSums.
Variable keep : Rank.t -> bool.

Lemma add_kept_comm (j1 j2 : Rank.t) (z1 z2 y : Z) :
  add_kept keep j1 z1 (add_kept keep j2 z2 y) =
  add_kept keep j2 z2 (add_kept keep j1 z1 y).
Proof. unfold add_kept. destruct (keep j1), (keep j2); lia. Qed.

(** Counting one more occurrence of [k] adds one to the sum when [k] is
    kept and leaves it alone otherwise. *)
Lemma sum_counts_increment (counts : gmap Rank.t Z) (k : Rank.t) :
  sum_counts keep (<[k := default 0 (counts !! k) + 1]> counts) =
  sum_counts keep counts + (if keep k then 1 else 0).
Proof.
  unfold sum_counts.
  destruct (counts !! k) as [c|] eqn:Hk; simpl.
  - rewrite <- (insert_delete_eq counts k (c + 1)).
    rewrite map_fold_insert_L;
      [|intros; apply add_kept_comm|apply lookup_delete_eq].
    rewrite (map_fold_delete_L (add_kept keep) 0 k c counts);
      [|intros; apply add_kept_comm|exact Hk].
    unfold add_kept. destruct (keep k); lia.
  - rewrite map_fold_insert_L;
      [|intros; apply add_kept_comm|exact Hk].
    unfold add_kept. destruct (keep k); lia.
Qed.

Lemma Counter_snoc (l : list Rank.t) (k : Rank.t) :
  Counter (l ++ [k]) = <[k := default 0 (Counter l !! k) + 1]> (Counter l).
Proof. unfold Counter. rewrite foldl_app. reflexivity. Qed.

(** The sum over a [Counter] of the counts of the kept ranks is the
    number of kept items in the list that was counted. *)
Lemma sum_counts_Counter (l : list Rank.t) :
  sum_counts keep (Counter l) = Z.of_nat (length (List.filter keep l)).
Proof.
  induction l as [|k l IH] using rev_ind.
  - reflexivity.
  - rewrite Counter_snoc, sum_counts_increment, IH.
    rewrite List.filter_app, length_app. simpl.
    destruct (keep k); simpl; lia.
Qed.
End CounterSums.

Lemma filter_map_rank_non_joker (keep : Rank.t -> bool) (cards : list Card) :
  List.filter keep
    (map rank (List.filter (fun card => negb (is_joker card)) cards)) =
  map rank
    (List.filter (fun card => negb (is_joker card) && keep (rank card)) cards).
Proof.
  induction cards as [|c cards IH]; [reflexivity|]. simpl.
  destruct (is_joker c); simpl; [exact IH|].
  destruct (keep (rank c)); simpl; rewrite IH; reflexivity.
Qed.

Lemma joker_fold_count (cards : list Card) (acc : Z) :
  foldl (fun acc card => if is_joker card then acc + 1 else acc) acc cards =
  acc + Z.of_nat (length (List.filter is_joker cards)).
Proof.
  revert acc. induction cards as [|c cards IH]; intros acc; simpl; [lia|].
  rewrite IH. destruct (is_joker c); simpl; lia.
Qed.

Lemma filter_length_le {A} (p : A -> bool) (l : list A) :
  (length (List.filter p l) <= length l)%nat.
Proof.
  induction l as [|x l IH]; simpl; [lia|]. destruct (p x); simpl; lia.
Qed.

Lemma count_cards_bounds (p : Card -> bool) (cards : list Card) :
  0 <= count_cards p cards <= Z.of_nat (length cards).
Proof.
  unfold count_cards. pose proof (filter_length_le p cards). lia.
Qed.

(** The integer counts [win_odds] works with after [on_deck_updated]. *)
Lemma win_odds_counts (self : AICardCounter) (remaining : list Card)
  (keep : Rank.t -> bool) :
  sum_counts keep (_rank_counts (on_deck_updated self remaining)) =
    count_cards (fun c => negb (is_joker c) && keep (rank c)) remaining /\
  _joker_count (on_deck_updated self remaining) =
    count_cards is_joker remaining /\
  _total (on_deck_updated self remaining) = Z.of_nat (length remaining).
Proof.
  unfold on_deck_updated, count_cards. simpl. repeat split.
  - rewrite sum_counts_Counter, filter_map_rank_non_joker, length_map.
    reflexivity.
  - rewrite joker_fold_count. lia.
Qed.

(** The general case of [win_odds]: a snapshot that is not empty and a
    current card that is no joker. The snapshot has fewer than [2^53]
    cards, so that every count is a binary64 value and Python's quotient
    of two counts is the IEEE quotient of these values. *)
Lemma win_odds_general_case (self : AICardCounter) (remaining : list Card)
  (current_card : Card) :
  remaining <> [] ->
  is_joker current_card = false ->
  Z.of_nat (length remaining) < 2 ^ 53 ->
  let total := Z.of_nat (length remaining) in
  let share n := (float_of_uint63 n / float_of_uint63 total)%float in
  win_odds (on_deck_updated self remaining) current_card =
  Returns
    (mkWinOdds
       (share (count_cards (fun c => negb (is_joker c) &&
                 (Rank.value (rank c) >? Rank.value (rank current_card)))
               remaining)
        + share (count_cards is_joker remaining))
       (share (count_cards (fun c => negb (is_joker c) &&
                 (Rank.value (rank c) <? Rank.value (rank current_card)))
               remaining)
        + share (count_cards is_joker remaining))
       (share (count_cards is_joker remaining))).
Proof.
  intros Hne Hjoker Hlen total share.
  unfold win_odds.
  destruct (win_odds_counts self remaining
              (fun r => Rank.gtb r (rank current_card))) as (Hh & Hj & Ht).
  destruct (win_odds_counts self remaining
              (fun r => Rank.ltb r (rank current_card))) as (Hl & _ & _).
  rewrite Hh, Hl, Hj, Ht, Hjoker. fold total.
  assert (Hpos : 0 < total).
  { unfold total. destruct remaining; [contradiction|simpl; lia]. }
  destruct (Z.eqb_spec total 0) as [|_]; [lia|]. simpl.
  pose proof (count_cards_bounds is_joker remaining).
  pose proof (count_cards_bounds (fun c => negb (is_joker c) &&
     Rank.gtb (rank c) (rank current_card)) remaining).
  pose proof (count_cards_bounds (fun c => negb (is_joker c) &&
     Rank.ltb (rank c) (rank current_card)) remaining).
  assert (Hpow : 2 ^ 53 < 2 ^ 63) by reflexivity.
  rewrite !int_truediv_small by (fold total; lia).
  reflexivity.
Qed.

(** The two degenerate cases of [win_odds]. *)
Lemma win_odds_degenerate (self : AICardCounter) (current_card : Card) :
  _total self = 0 \/ is_joker current_card = true ->
  win_odds self current_card = Returns (mkWinOdds 0 0 0).
Proof.
  intros [H|H]; unfold win_odds; rewrite H; [reflexivity|].
  rewrite orb_true_r. reflexivity.
Qed.

(** The three counts are over disjoint sets of cards of the snapshot. *)
Lemma win_odds_counts_disjoint (remaining : list Card) (current_card : Card) :
  count_cards (fun c => negb (is_joker c) &&
     (Rank.value (rank c) >? Rank.value (rank current_card))) remaining
  + count_cards (fun c => negb (is_joker c) &&
     (Rank.value (rank c) <? Rank.value (rank current_card))) remaining
  + count_cards is_joker remaining
  <= Z.of_nat (length remaining).
Proof.
  unfold count_cards.
  induction remaining as [|c remaining IH]; simpl; [lia|].
  destruct (is_joker c); simpl; [lia|].
  destruct (Z.gtb_spec (Rank.value (rank c)) (Rank.value (rank current_card)));
  destruct (Z.ltb_spec (Rank.value (rank c)) (Rank.value (rank current_card)));
  simpl; lia.
Qed.

(** C1. After a snapshot has been broadcast, [win_odds] returns (0,0,0)
    when the snapshot is empty or the current card is a joker; otherwise
    higher = (non-joker cards of strictly greater rank)/total +
    jokers/total, lower = (non-joker cards of strictly smaller rank)/total
    + jokers/total and joker = jokers/total, where total is the size of
    the snapshot and [/] and [+] are Python's float operations. *)
Theorem win_odds_spec (self : AICardCounter) (remaining : list Card)
  (current_card : Card) :
  Z.of_nat (length remaining) < 2 ^ 53 ->
  let total := Z.of_nat (length remaining) in
  let joker_count := count_cards is_joker remaining in
  let higher_count :=
    count_cards (fun c => negb (is_joker c) &&
      (Rank.value (rank c) >? Rank.value (rank current_card))) remaining in
  let lower_count :=
    count_cards (fun c => negb (is_joker c) &&
      (Rank.value (rank c) <? Rank.value (rank current_card))) remaining in
  let share n := (float_of_uint63 n / float_of_uint63 total)%float in
  win_odds (on_deck_updated self remaining) current_card =
  Returns
    (if match remaining with [] => true | _ :: _ => false end
        || is_joker current_card
     then mkWinOdds 0 0 0
     else mkWinOdds (share higher_count + share joker_count)
                    (share lower_count + share joker_count)
                    (share joker_count)).
Proof.
  intros Hlen total joker_count higher_count lower_count share.
  destruct (is_joker current_card) eqn:Hjoker.
  - (* the current card is a joker *)
    rewrite orb_true_r. apply win_odds_degenerate. right. exact Hjoker.
  - rewrite orb_false_r.
    destruct remaining as [|c remaining'] eqn:Hsnapshot.
    + (* nothing remains *)
      apply win_odds_degenerate. left. reflexivity.
    + (* the general case *)
      apply win_odds_general_case; [discriminate|exact Hjoker|exact Hlen].
Qed.

Lemma win_odds_spec_witness :
  (Z.of_nat (length test_snapshot) < 2 ^ 53) /\
  win_odds (on_deck_updated AICardCounter_init test_snapshot)
           (mkCard Rank.FIVE Suit.CLUBS) =
  Returns (mkWinOdds (1 / 3 + 1 / 3) (1 / 3 + 1 / 3) (1 / 3))%float.
Proof.
  split; [reflexivity|].
  exact (win_odds_spec AICardCounter_init test_snapshot
           (mkCard Rank.FIVE Suit.CLUBS) eq_refl).
Defined.

Example win_odds_empty_snapshot :
  win_odds (on_deck_updated AICardCounter_init [])
           (mkCard Rank.ACE Suit.SPADES) = Returns (mkWinOdds 0 0 0).
Proof. reflexivity. Qed.

(** C6, as the specification words it, fails on the snapshot
    {SIX of hearts, TWO of spades, JOKER} with a FIVE as current card:
    the three probabilities are 2/3, 2/3 and 1/3. *)
Lemma win_odds_sum_above_one :
  exists odds : WinOdds,
    win_odds (on_deck_updated AICardCounter_init test_snapshot)
             (mkCard Rank.FIVE Suit.CLUBS) = Returns odds /\
    (higher odds + lower odds + joker odds <=? 1)%float = false /\
    (1 <? higher odds + lower odds + joker odds)%float = true.
Proof.
  eexists. split; [vm_compute; reflexivity|]. split; vm_compute; reflexivity.
Qed.

(** C6, amended. The probabilities [win_odds] returns are built from three
    counts over disjoint cards, with
    [higher_count + lower_count + joker_count <= total]: the shares
    higher_count/total, lower_count/total and joker_count/total sum to at
    most 1, and the joker share is added into both [higher] and [lower]. *)
Theorem win_odds_shares_bounded (self : AICardCounter)
  (remaining : list Card) (current_card : Card) :
  Z.of_nat (length remaining) < 2 ^ 53 ->
  let total := Z.of_nat (length remaining) in
  let joker_count := count_cards is_joker remaining in
  let higher_count :=
    count_cards (fun c => negb (is_joker c) &&
      (Rank.value (rank c) >? Rank.value (rank current_card))) remaining in
  let lower_count :=
    count_cards (fun c => negb (is_joker c) &&
      (Rank.value (rank c) <? Rank.value (rank current_card))) remaining in
  let share n := (float_of_uint63 n / float_of_uint63 total)%float in
  (0 <= higher_count) /\ (0 <= lower_count) /\ (0 <= joker_count) /\
  (higher_count + lower_count + joker_count <= total) /\
  exists odds : WinOdds,
    win_odds (on_deck_updated self remaining) current_card = Returns odds /\
    (odds = mkWinOdds 0 0 0 \/
     odds = mkWinOdds (share higher_count + share joker_count)
                      (share lower_count + share joker_count)
                      (share joker_count)).
Proof.
  intros Hlen total joker_count higher_count lower_count share.
  pose proof (count_cards_bounds is_joker remaining).
  pose proof (count_cards_bounds (fun c => negb (is_joker c) &&
     (Rank.value (rank c) >? Rank.value (rank current_card))) remaining).
  pose proof (count_cards_bounds (fun c => negb (is_joker c) &&
     (Rank.value (rank c) <? Rank.value (rank current_card))) remaining).
  repeat split; try (subst higher_count lower_count joker_count; lia).
  - apply win_odds_counts_disjoint.
  - destruct (is_joker current_card) eqn:Hjoker.
    { exists (mkWinOdds 0 0 0). split; [|left; reflexivity].
      apply win_odds_degenerate. right. exact Hjoker. }
    destruct remaining as [|c remaining'] eqn:Hsnapshot.
    { exists (mkWinOdds 0 0 0). split; [|left; reflexivity].
      apply win_odds_degenerate. left. reflexivity. }
    eexists. split; [|right; reflexivity].
    apply win_odds_general_case; [discriminate|exact Hjoker|exact Hlen].
Qed.

Lemma win_odds_shares_bounded_witness :
  (Z.of_nat (length test_snapshot) < 2 ^ 53) /\
  (1 + 1 + 1 <= 3) /\
  exists odds : WinOdds,
    win_odds (on_deck_updated AICardCounter_init test_snapshot)
             (mkCard Rank.FIVE Suit.CLUBS) = Returns odds /\
    (odds = mkWinOdds 0 0 0 \/
     odds = mkWinOdds (1 / 3 + 1 / 3) (1 / 3 + 1 / 3) (1 / 3))%float.
Proof.
  split; [reflexivity|].
  pose proof (win_odds_shares_bounded AICardCounter_init test_snapshot
                (mkCard Rank.FIVE Suit.CLUBS) eq_refl) as H.
  exact (conj (proj1 (proj2 (proj2 (proj2 H))))
              (proj2 (proj2 (proj2 (proj2 H))))).
Defined.

(** ** Payouts *)

Lemma bind_returns_inv {A B} (r : result A) (k : A -> result B) (b : B) :
  r ≫= k = Returns b -> exists a, r = Returns a /\ k a = Returns b.
Proof. destruct r as [a|e]; simpl; [eauto|discriminate]. Qed.

(** A float that is not [<= 0] is not zero (it is positive or NaN), so the
    division [1 / probability] never divides by zero. *)
Lemma not_leb_zero_not_zero (p : float) :
  (p <=? 0)%float = false -> (p =? 0)%float = false.
Proof.
  rewrite FloatAxioms.leb_spec, FloatAxioms.eqb_spec.
  change (Prim2SF 0) with (S754_zero false).
  destruct (Prim2SF p) as [s|s| |s m e]; try destruct s; cbn; congruence.
Qed.

(** A product that is a finite float is always rounded. *)
Lemma py_round_finite (x : float) :
  is_nan x = false -> is_infinity x = false -> exists n, py_round x = Returns n.
Proof.
  intros Hn Hi. unfold py_round, Prim2SF. rewrite Hn, Hi.
  destruct (is_zero x); [eauto|].
  destruct (Z.frexp x) as [r e].
  destruct (shr_fexp _ _ _ _ _) as [s e'].
  destruct (shr_m s); eauto.
Qed.

(** The product for a stake and an upgrade level of realistic size (the
    shop stops at level 7): no conversion overflows. *)
Lemma raw_payout_returns (session : SessionData) (stake : Z)
  (probability : float) :
  (probability <=? 0)%float = false ->
  0 <= stake < 2 ^ 63 ->
  (odds_level (upgrades session) < 63)%N ->
  raw_payout session stake probability =
  Returns (float_of_uint63 stake *
           (1 / probability * (1 - _HOUSE_EDGE) *
            float_of_uint63 (2 ^ Z.of_N (odds_level (upgrades session)))))%float.
Proof.
  intros Hp Hstake Hlevel. unfold raw_payout, float_truediv, odds_multiplier.
  rewrite (not_leb_zero_not_zero _ Hp). cbn [mbind result_bind].
  assert (Hpow : 0 <= 2 ^ Z.of_N (odds_level (upgrades session)) < 2 ^ 63).
  { split; [apply Z.pow_nonneg; lia|apply Z.pow_lt_mono_r; lia]. }
  rewrite (float_of_int_small _ Hpow). cbn [mbind result_bind].
  rewrite (float_of_int_small _ Hstake). reflexivity.
Qed.

(** C3. The payout is [None] exactly when the probability is [<= 0];
    otherwise it is [max(stake, round(stake * ((1/p) * (1 - 0.06) *
    odds_multiplier)))] in Python's float arithmetic, the division never
    being by zero and the rounding being Python's [round], which answers
    whenever the product is finite; so every payout offered is at least
    the stake. *)
Theorem calculate_payout_spec (session : SessionData) (stake : Z)
  (probability : float) :
  (_calculate_payout session stake probability = Returns None <->
   (probability <=? 0)%float = true) /\
  ((probability <=? 0)%float = false ->
   _calculate_payout session stake probability =
   (rounded ← raw_payout session stake probability ≫= py_round;
    Returns (Some (Z.max stake rounded)))) /\
  ((probability <=? 0)%float = false ->
   0 <= stake < 2 ^ 63 ->
   (odds_level (upgrades session) < 63)%N ->
   let product :=
     (float_of_uint63 stake *
      (1 / probability * (1 - _HOUSE_EDGE) *
       float_of_uint63 (odds_multiplier (upgrades session))))%float in
   is_nan product = false -> is_infinity product = false ->
   exists rounded,
     py_round product = Returns rounded /\
     _calculate_payout session stake probability =
       Returns (Some (Z.max stake rounded))) /\
  (forall payout,
     _calculate_payout session stake probability = Returns (Some payout) ->
     stake <= payout).
Proof.
  unfold _calculate_payout.
  destruct (probability <=? 0)%float eqn:Hp.
  - (* no payout *)
    repeat split; intros; try discriminate; congruence.
  - split; [|split; [|split]].
    + (* never [None] *)
      split; [|discriminate].
      destruct (raw_payout session stake probability) as [x|e]; simpl;
        [|discriminate].
      destruct (py_round x); simpl; discriminate.
    + (* the formula *)
      intros _.
      destruct (raw_payout session stake probability) as [x|e]; reflexivity.
    + (* it returns on a finite product *)
      intros _ Hstake Hlevel Hnan Hinf.
      rewrite (raw_payout_returns session stake probability Hp Hstake Hlevel).
      cbn [mbind result_bind]. fold (odds_multiplier (upgrades session)).
      destruct (py_round_finite _ Hnan Hinf) as [rounded Hr].
      exists rounded. rewrite Hr. split; reflexivity.
    + (* at least the stake *)
      intros payout H.
      apply bind_returns_inv in H as (x & _ & H).
      apply bind_returns_inv in H as (r & _ & H).
      injection H as <-. lia.
Qed.

Lemma calculate_payout_spec_witness :
  ((0x1.ccccccccccccdp-1 <=? 0)%float = false) /\
  _calculate_payout default_session 100 0x1.ccccccccccccdp-1%float =
    Returns (Some 104).
Proof.
  split; [reflexivity|].
  exact (proj1 (proj2 (calculate_payout_spec default_session 100
                         0x1.ccccccccccccdp-1%float)) eq_refl).
Defined.

(** The two calls of the test suite: probability 0.0 and probability 0.9
    (the float [0x1.ccccccccccccdp-1]) on a stake of 100 with no upgrade. *)
Example calculate_payout_zero_probability :
  _calculate_payout default_session 100 0 = Returns None.
Proof. reflexivity. Qed.

Example calculate_payout_likely_win :
  exists payout,
    _calculate_payout default_session 100 0x1.ccccccccccccdp-1%float =
      Returns (Some payout) /\ 100 <= payout.
Proof. exists 104. split; [reflexivity|lia]. Qed.

(** ** Levenshtein distance: the recurrence *)

Lemma lev_nil_l (b : list ascii) : lev [] b = Z.of_nat (length b).
Proof. reflexivity. Qed.

Lemma lev_nil_r (a : list ascii) : lev a [] = Z.of_nat (length a).
Proof. destruct a; reflexivity. Qed.

Lemma lev_cons (x y : ascii) (a b : list ascii) :
  lev (x :: a) (y :: b) =
  Z.min (lev (x :: a) b + 1)
    (Z.min (lev a (y :: b) + 1) (lev a b + char_differs x y)).
Proof. reflexivity. Qed.

Lemma char_differs_cases (x y : ascii) :
  (x = y /\ char_differs x y = 0) \/ (x <> y /\ char_differs x y = 1).
Proof.
  unfold char_differs. destruct (Ascii.eqb_spec x y); [left|right]; auto.
Qed.

Lemma char_differs_refl (x : ascii) : char_differs x x = 0.
Proof. unfold char_differs. rewrite Ascii.eqb_refl. reflexivity. Qed.

Lemma lev_nonneg (a b : list ascii) : 0 <= lev a b.
Proof.
  revert b. induction a as [|x a IHa]; intros b.
  - rewrite lev_nil_l. lia.
  - induction b as [|y b IHb].
    + rewrite lev_nil_r. lia.
    + rewrite lev_cons. pose proof (IHa (y :: b)). pose proof (IHa b).
      destruct (char_differs_cases x y) as [[_ ->]|[_ ->]]; lia.
Qed.

Lemma lev_refl (a : list ascii) : lev a a = 0.
Proof.
  induction a as [|x a IH]; [reflexivity|].
  rewrite lev_cons, IH, char_differs_refl.
  pose proof (lev_nonneg (x :: a) a). pose proof (lev_nonneg a (x :: a)).
  lia.
Qed.

Lemma edit_cons (c : ascii) (a b : list ascii) :
  edit a b -> edit (c :: a) (c :: b).
Proof.
  intros [p x s|p x s|p x x' s].
  - apply (edit_insert (c :: p)).
  - apply (edit_delete (c :: p)).
  - apply (edit_substitute (c :: p)).
Qed.

Lemma edit_rev (a b : list ascii) : edit a b -> edit (rev a) (rev b).
Proof.
  intros [p x s|p x s|p x x' s];
    rewrite ?rev_app_distr; simpl; rewrite <- ?app_assoc; simpl.
  - apply edit_insert.
  - apply edit_delete.
  - apply edit_substitute.
Qed.

(** A distance of zero means equal words, and a distance of at most one
    means equal words or a single edit. *)
Lemma lev_small (a : list ascii) : forall b,
  (lev a b = 0 -> a = b) /\ (lev a b <= 1 -> a = b \/ edit a b).
Proof.
  induction a as [|x a IHa]; intros b.
  - rewrite lev_nil_l. split.
    + destruct b; simpl; [reflexivity|lia].
    + destruct b as [|y [|z b]]; simpl; [left; reflexivity| |lia].
      intros _. right. apply (edit_insert [] y []).
  - induction b as [|y b IHb].
    + rewrite lev_nil_r. split; [simpl; lia|].
      destruct a as [|z a]; simpl; [|lia].
      intros _. right. apply (edit_delete [] x []).
    + rewrite lev_cons.
      pose proof (lev_nonneg (x :: a) b) as Hl.
      pose proof (lev_nonneg a (y :: b)) as Hu.
      pose proof (lev_nonneg a b) as Hd.
      destruct (IHa (y :: b)) as [Hu0 _].
      destruct (IHa b) as [Hd0 Hd1].
      destruct IHb as [Hl0 _].
      destruct (char_differs_cases x y) as [[<- ->]|[Hne ->]].
      * split.
        -- intros H. f_equal. apply Hd0. lia.
        -- intros H.
           destruct (Z.eq_dec (lev (x :: a) b) 0) as [E|E].
           { right. rewrite <- (Hl0 E). apply (edit_insert [] x (x :: a)). }
           destruct (Z.eq_dec (lev a (x :: b)) 0) as [E'|E'].
           { right. rewrite (Hu0 E'). apply (edit_delete [] x (x :: b)). }
           destruct Hd1 as [->|He]; [lia|left; reflexivity|].
           right. apply edit_cons, He.
      * split; [lia|].
        intros H.
        destruct (Z.eq_dec (lev (x :: a) b) 0) as [E|E].
        { right. rewrite <- (Hl0 E). apply (edit_insert [] y (x :: a)). }
        destruct (Z.eq_dec (lev a (y :: b)) 0) as [E'|E'].
        { right. rewrite (Hu0 E'). apply (edit_delete [] x (y :: b)). }
        assert (a = b) as -> by (apply Hd0; lia).
        right. apply (edit_substitute [] x y b).
Qed.

Lemma lev_insert_head (c : ascii) (s : list ascii) : lev s (c :: s) <= 1.
Proof.
  destruct s as [|x s]; [cbn; lia|].
  rewrite lev_cons, lev_refl.
  pose proof (lev_nonneg s (c :: x :: s)). pose proof (lev_nonneg s (x :: s)).
  destruct (char_differs_cases x c) as [[_ ->]|[_ ->]]; lia.
Qed.

Lemma lev_delete_head (c : ascii) (s : list ascii) : lev (c :: s) s <= 1.
Proof.
  destruct s as [|y s]; [simpl; lia|].
  rewrite lev_cons, lev_refl.
  pose proof (lev_nonneg (c :: y :: s) s). pose proof (lev_nonneg (y :: s) s).
  destruct (char_differs_cases c y) as [[_ ->]|[_ ->]]; lia.
Qed.

Lemma lev_cons_same (c : ascii) (a b : list ascii) :
  lev (c :: a) (c :: b) <= lev a b.
Proof. rewrite lev_cons, char_differs_refl. lia. Qed.

Lemma lev_edit (a b : list ascii) : edit a b -> lev a b <= 1.
Proof.
  intros [p x s|p x s|p x x' s]; induction p as [|q p IH]; cbn [app].
  - apply lev_insert_head.
  - etransitivity; [apply lev_cons_same|exact IH].
  - apply lev_delete_head.
  - etransitivity; [apply lev_cons_same|exact IH].
  - rewrite lev_cons, lev_refl.
    destruct (char_differs_cases x x') as [[_ ->]|[_ ->]]; lia.
  - etransitivity; [apply lev_cons_same|exact IH].
Qed.

Lemma lev_at_most_one (a b : list ascii) :
  lev a b <= 1 <-> a = b \/ edit a b.
Proof.
  split.
  - apply lev_small.
  - intros [->|H]; [rewrite lev_refl; lia|apply lev_edit, H].
Qed.

Lemma list_ascii_of_string_inj (a b : string) :
  list_ascii_of_string a = list_ascii_of_string b -> a = b.
Proof.
  intros H. rewrite <- (string_of_list_ascii_of_string a),
    <- (string_of_list_ascii_of_string b), H. reflexivity.
Qed.

(** A distance of at most one by the recurrence is one edit at most. *)
Lemma levenshtein_distance_at_most_one (a b : string) :
  levenshtein_distance a b <= 1 <-> one_edit_apart a b.
Proof.
  unfold levenshtein_distance, one_edit_apart. rewrite lev_at_most_one.
  split; intros [H|H].
  - left. apply list_ascii_of_string_inj.
    rewrite <- (rev_involutive (list_ascii_of_string a)), H.
    apply rev_involutive.
  - right. apply edit_rev in H. rewrite !rev_involutive in H. exact H.
  - left. rewrite H. reflexivity.
  - right. apply edit_rev, H.
Qed.

(** ** Levenshtein distance: the dynamic program of the code *)

Lemma py_getitem_nat {A} (l : list A) (k : nat) (x : A) :
  l !! k = Some x -> py_getitem l (Z.of_nat k) = Returns x.
Proof.
  intros H. pose proof (lookup_lt_Some _ _ _ H) as Hk.
  unfold py_getitem.
  destruct (Z.ltb_spec (Z.of_nat k) 0); [lia|].
  destruct (Z.leb_spec 0 (Z.of_nat k)); [|lia].
  destruct (Z.ltb_spec (Z.of_nat k) (Z.of_nat (length l))); [|lia].
  simpl. rewrite Nat2Z.id, H. reflexivity.
Qed.

Lemma py_getitem_last {A} (l : list A) (x : A) :
  py_getitem (l ++ [x]) (-1) = Returns x.
Proof.
  unfold py_getitem. rewrite length_app. simpl length.
  change (-1 <? 0) with true. cbv iota.
  replace (-1 + Z.of_nat (length l + 1)) with (Z.of_nat (length l)) by lia.
  destruct (Z.leb_spec 0 (Z.of_nat (length l))); [|lia].
  destruct (Z.ltb_spec (Z.of_nat (length l)) (Z.of_nat (length l + 1)));
    [|lia].
  simpl. rewrite Nat2Z.id.
  rewrite lookup_app_r by lia. rewrite Nat.sub_diag. reflexivity.
Qed.

Lemma reversed_prefixes_snoc (l : list ascii) (y : ascii) :
  reversed_prefixes (l ++ [y]) = reversed_prefixes l ++ [y :: rev l].
Proof.
  unfold reversed_prefixes. rewrite length_app. simpl length.
  replace (S (length l + 1)) with (S (length l) + 1)%nat by lia.
  rewrite seq_app, map_app. f_equal.
  - apply map_ext_in. intros j Hj. apply in_seq in Hj.
    rewrite firstn_app.
    replace (j - length l)%nat with 0%nat by lia.
    simpl. rewrite app_nil_r. reflexivity.
  - cbn [seq Nat.add map].
    replace (S (length l)) with (length (l ++ [y]))
      by (rewrite length_app; simpl; lia).
    rewrite firstn_all, rev_app_distr. reflexivity.
Qed.

Lemma distance_row_snoc (u l : list ascii) (y : ascii) :
  distance_row u (l ++ [y]) = distance_row u l ++ [lev u (y :: rev l)].
Proof.
  unfold distance_row. rewrite reversed_prefixes_snoc, map_app. reflexivity.
Qed.

Lemma distance_row_nil (u : list ascii) :
  distance_row u [] = [Z.of_nat (length u)].
Proof. unfold distance_row. simpl. rewrite lev_nil_r. reflexivity. Qed.

Lemma distance_row_lookup (u b : list ascii) (k : nat) :
  (k <= length b)%nat ->
  distance_row u b !! k = Some (lev u (rev (firstn k b))).
Proof.
  intros Hk. unfold distance_row, reversed_prefixes.
  rewrite !list_lookup_fmap.
  rewrite (lookup_seq_lt 0 (S (length b)) k) by lia. reflexivity.
Qed.

(** The cell at the end of a prefix and the cell one character further. *)
Lemma distance_row_at_split (u l1 l2 : list ascii) :
  distance_row u (l1 ++ l2) !! length l1 = Some (lev u (rev l1)).
Proof.
  rewrite distance_row_lookup by (rewrite length_app; lia).
  rewrite firstn_app, firstn_all, Nat.sub_diag. simpl.
  rewrite app_nil_r. reflexivity.
Qed.

Lemma distance_row_after_split (u l1 l2 : list ascii) (y : ascii) :
  distance_row u (l1 ++ y :: l2) !! S (length l1) =
  Some (lev u (y :: rev l1)).
Proof.
  replace (l1 ++ y :: l2) with ((l1 ++ [y]) ++ l2)
    by (rewrite <- app_assoc; reflexivity).
  replace (S (length l1)) with (length (l1 ++ [y]))
    by (rewrite length_app; simpl; lia).
  rewrite distance_row_at_split, rev_app_distr. reflexivity.
Qed.

(** The inner loop extends the current row to the whole of [b]. *)
Lemma levenshtein_inner_row (x : ascii) (u : list ascii) :
  forall bs done,
    levenshtein_inner x (distance_row u (done ++ bs)) bs
      (Z.of_nat (S (length done))) (distance_row (x :: u) done) =
    Returns (distance_row (x :: u) (done ++ bs)).
Proof.
  induction bs as [|y bs IH]; intros done.
  - simpl. rewrite app_nil_r. reflexivity.
  - cbn [levenshtein_inner].
    replace (Z.of_nat (S (length done)) - 1) with (Z.of_nat (length done))
      by lia.
    pose proof (distance_row_at_split (x :: u) done []) as Hleft.
    rewrite app_nil_r in Hleft.
    rewrite (py_getitem_nat (distance_row (x :: u) done) _ _ Hleft).
    cbn [mbind result_bind].
    rewrite (py_getitem_nat _ _ _ (distance_row_after_split u done bs y)).
    cbn [mbind result_bind].
    rewrite (py_getitem_nat _ _ _ (distance_row_at_split u done (y :: bs))).
    cbn [mbind result_bind].
    rewrite <- lev_cons, <- distance_row_snoc.
    replace (Z.of_nat (S (length done)) + 1)
      with (Z.of_nat (S (length (done ++ [y]))))
      by (rewrite length_app; simpl; lia).
    replace (done ++ y :: bs) with ((done ++ [y]) ++ bs)
      by (rewrite <- app_assoc; reflexivity).
    apply IH.
Qed.

(** The outer loop ends on the row of the whole of [a]. *)
Lemma levenshtein_outer_row (b : list ascii) :
  forall chars done,
    levenshtein_outer b chars (Z.of_nat (S (length done)))
      (distance_row (rev done) b) =
    Returns (distance_row (rev (done ++ chars)) b).
Proof.
  induction chars as [|x chars IH]; intros done.
  - simpl. rewrite app_nil_r. reflexivity.
  - cbn [levenshtein_outer].
    pose proof (levenshtein_inner_row x (rev done) b []) as Hin.
    cbn [app length] in Hin. rewrite distance_row_nil in Hin.
    cbn [length] in Hin. rewrite length_rev in Hin.
    change (Z.of_nat 1) with 1 in Hin. rewrite Hin.
    cbn [mbind result_bind].
    replace (Z.of_nat (S (length done)) + 1)
      with (Z.of_nat (S (length (done ++ [x]))))
      by (rewrite length_app; simpl; lia).
    replace (x :: rev done) with (rev (done ++ [x]))
      by (rewrite rev_app_distr; reflexivity).
    replace (done ++ x :: chars) with ((done ++ [x]) ++ chars)
      by (rewrite <- app_assoc; reflexivity).
    apply IH.
Qed.

Lemma range_distance_row (b : list ascii) :
  range (Z.of_nat (length b) + 1) = distance_row [] b.
Proof.
  unfold range, distance_row, reversed_prefixes.
  replace (Z.to_nat (Z.of_nat (length b) + 1)) with (S (length b)) by lia.
  rewrite map_map. apply map_ext_in. intros j Hj. apply in_seq in Hj.
  rewrite lev_nil_l, length_rev, length_firstn. f_equal. lia.
Qed.

Lemma string_length_chars (s : string) :
  String.length s = length (list_ascii_of_string s).
Proof. induction s as [|c s IH]; simpl; [reflexivity|f_equal; exact IH]. Qed.

Lemma string_eqb_empty (s : string) :
  String.eqb s "" = true <-> list_ascii_of_string s = [].
Proof.
  destruct s; simpl; split; intros H; first [reflexivity|discriminate H].
Qed.

(** The code computes the recurrence: [_levenshtein] never raises and
    returns the Levenshtein distance of its arguments. *)
Lemma levenshtein_refines_recurrence (a b : string) :
  _levenshtein a b = Returns (levenshtein_distance a b).
Proof.
  unfold _levenshtein, levenshtein_distance, len.
  destruct (String.eqb_spec a b) as [->|_].
  { rewrite lev_refl. reflexivity. }
  destruct (String.eqb a "") eqn:Ea.
  { apply string_eqb_empty in Ea. rewrite Ea. simpl rev.
    rewrite lev_nil_l, length_rev, string_length_chars. reflexivity. }
  destruct (String.eqb b "") eqn:Eb.
  { apply string_eqb_empty in Eb. rewrite Eb. simpl rev.
    rewrite lev_nil_r, length_rev, string_length_chars. reflexivity. }
  rewrite string_length_chars, range_distance_row.
  pose proof (levenshtein_outer_row (list_ascii_of_string b)
                (list_ascii_of_string a) []) as Hout.
  cbn [app length rev] in Hout. change (Z.of_nat 1) with 1 in Hout.
  rewrite Hout. cbn [mbind result_bind].
  assert (Hb : list_ascii_of_string b <> []).
  { intros E. apply string_eqb_empty in E. congruence. }
  destruct (list_ascii_of_string b) as [|y l _] using rev_ind.
  - contradiction.
  - rewrite distance_row_snoc, py_getitem_last, rev_app_distr. reflexivity.
Qed.

(** ** Prediction parsing *)

Lemma alias_lookup (word : string) :
  is_Some (aliases !! word) <-> word ∈ alias_words.
Proof.
  unfold aliases. rewrite <- not_eq_None_Some, <- not_elem_of_list_to_map.
  change (word ∉ alias_words -> False) with (~ word ∉ alias_words).
  split; [apply dec_stable|auto].
Qed.

Lemma fuzzy_match_loop_find (word : string) (targets : list string) :
  fuzzy_match_loop word targets =
  Returns (List.find
             (fun target => levenshtein_distance word target <=? max_distance)
             targets).
Proof.
  induction targets as [|target targets IH]; [reflexivity|].
  cbn [fuzzy_match_loop List.find].
  rewrite levenshtein_refines_recurrence. cbn [mbind result_bind].
  destruct (_ <=? _); [reflexivity|exact IH].
Qed.

Lemma fuzzy_target_has_alias (target : string) :
  In target fuzzy_targets -> exists p, dict_getitem aliases target = Returns p.
Proof.
  intros H. repeat (destruct H as [<-|H]; [eexists; vm_compute; reflexivity|]).
  destruct H.
Qed.

(** Being within distance 1 of a canonical word is being that word or a
    single-character typo of it. *)
Lemma accepted_word_one_edit (normalized : string) :
  accepted_word normalized <->
  normalized ∈ alias_words \/
  exists target, target ∈ fuzzy_targets /\ one_edit_apart normalized target.
Proof.
  unfold accepted_word.
  split; (intros [H|(target & Hin & H)];
    [left; exact H
    |right; exists target; split;
       [exact Hin|apply levenshtein_distance_at_most_one, H]]).
Qed.

(** C7. Parsing returns a prediction exactly when the trimmed, lower-cased
    input is a literal alias or within Levenshtein distance 1 of one of
    "high", "higher", "low", "lower" (that is, one of these words or a
    single-character insertion, deletion or substitution away from it);
    every other input raises the invalid-prediction error, and no other
    exception is raised. *)
Theorem input_from_player_spec (raw_prediction : string) :
  let normalized := str_lower (str_strip raw_prediction) in
  ((exists p, input_from_player raw_prediction = Returns p) <->
   accepted_word normalized) /\
  (input_from_player raw_prediction = Raises InvalidPredictionError <->
   ~ accepted_word normalized) /\
  (forall e, input_from_player raw_prediction = Raises e ->
             e = InvalidPredictionError) /\
  (accepted_word normalized <->
   normalized ∈ alias_words \/
   exists target, target ∈ fuzzy_targets /\
                  one_edit_apart normalized target).
Proof.
  intros normalized.
  refine ((fun H => conj (proj1 H) (conj (proj1 (proj2 H))
             (conj (proj2 (proj2 H)) (accepted_word_one_edit normalized))))
          _).
  unfold input_from_player. fold normalized.
  unfold _fuzzy_match. rewrite fuzzy_match_loop_find.
  cbn [mbind result_bind].
  destruct (bool_decide_reflect (is_Some (aliases !! normalized)))
    as [Halias|Halias].
  - (* a literal alias *)
    assert (Hacc : accepted_word normalized)
      by (left; apply alias_lookup, Halias).
    destruct Halias as [p Hp]. unfold dict_getitem. rewrite Hp.
    repeat split; eauto; try discriminate.
    intros Hno. contradiction.
  - destruct (List.find _ fuzzy_targets) as [target|] eqn:Hfind.
    + (* a canonical word within distance 1 *)
      apply find_some in Hfind as [Hin Hle].
      apply Z.leb_le in Hle. unfold max_distance in Hle.
      assert (Hacc : accepted_word normalized).
      { right. exists target. split; [apply list_elem_of_In, Hin|exact Hle]. }
      destruct (fuzzy_target_has_alias target Hin) as [p ->].
      repeat split; eauto; try discriminate.
      intros Hno. contradiction.
    + (* neither *)
      assert (Hno : ~ accepted_word normalized).
      { intros [Hin|(target & Hin & Hle)].
        - apply Halias, alias_lookup, Hin.
        - apply list_elem_of_In in Hin.
          pose proof (find_none _ _ Hfind target Hin) as Hf. simpl in Hf.
          apply Z.leb_gt in Hf. unfold max_distance in Hf. lia. }
      repeat split; eauto; try discriminate.
      * intros [p Hp]. discriminate Hp.
      * intros Hacc. contradiction.
      * intros e He. injection He as <-. reflexivity.
Qed.

(** The inputs of the test suite. *)
Example input_from_player_examples :
  input_from_player "higher" = Returns HIGHER /\
  input_from_player "h" = Returns HIGHER /\
  input_from_player "hi" = Returns HIGHER /\
  input_from_player "HigheR" = Returns HIGHER /\
  input_from_player "L" = Returns LOWER /\
  input_from_player "highe" = Returns HIGHER /\
  input_from_player "lowr" = Returns LOWER /\
  input_from_player "Hawkeye is my dream job!" =
    Raises InvalidPredictionError /\
  input_from_player "equal" = Raises InvalidPredictionError.
Proof. vm_compute. repeat split. Qed.

(** ** Side missions *)

(** The kinds that count rounds down share one argument: the mission
    completes when the decremented counter is zero and continues, still in
    progress, otherwise. *)
Ltac count_down_case Hwf Hk Hunlock Hbal :=
  let H1 := fresh "H1" in
  let H2 := fresh "H2" in
  rewrite andb_true_r in Hwf; apply andb_prop in Hwf as [H1 H2];
  apply Z.leb_le in H1;
  match goal with
  | |- context [?n - 1 =? 0] =>
      destruct (Z.eqb_spec (n - 1) 0);
      [ destruct (Z.leb_spec (n - 1) 0); [|lia]; simpl;
        repeat split; try apply Hunlock; apply Hbal
      | destruct (Z.leb_spec (n - 1) 0); [lia|]; simpl;
        repeat split; unfold mission_in_progress; simpl; rewrite Hk, H2;
        destruct (Z.leb_spec 1 (n - 1)); [reflexivity|lia] ]
  end.

(** One advancement step follows the table. *)
Lemma update_side_mission_table (self : InfiniteGame)
  (mission : SideMissionState) (win : bool) :
  _active_side_mission self = Some mission ->
  mission_in_progress mission = true ->
  let after := _update_side_mission_after_round self win in
  match table_advance mission win with
  | Continues m =>
      after.2 = Some m /\
      _active_side_mission after.1 = Some m /\
      mission_in_progress m = true /\
      _session after.1 = _session self
  | Completes doubles m =>
      after.2 = Some (set_active (set_completed m true) false) /\
      _active_side_mission after.1 = None /\
      balance (_session after.1) =
        (if doubles then 2 * balance (_session self)
         else balance (_session self)) /\
      total_credits (_session after.1) =
        (if doubles
         then total_credits (_session self) + balance (_session self)
         else total_credits (_session self)) /\
      achievement_unlocked (_session after.1) "shadow_operator" = true
  | Fails m =>
      after.2 = Some (set_active (set_failed m true) false) /\
      _active_side_mission after.1 = None /\
      _session after.1 = _session self
  end.
Proof.
  intros Hactive Hwf after. subst after.
  unfold _update_side_mission_after_round. rewrite Hactive.
  unfold mission_in_progress in Hwf.
  destruct mission as [d rl wr a c f]. simpl in Hwf.
  destruct a, c, f; try discriminate Hwf. simpl in Hwf.
  unfold table_advance. simpl.
  assert (Hunlock : forall g,
    achievement_unlocked (_session (_unlock_achievement g "shadow_operator"))
      "shadow_operator" = true).
  { intros g. unfold _unlock_achievement.
    destruct (achievement_unlocked (_session g) "shadow_operator") eqn:E;
      [exact E|].
    unfold achievement_unlocked. simpl. rewrite lookup_insert_eq.
    reflexivity. }
  assert (Hbal : forall g, balance (_session (_unlock_achievement g
      "shadow_operator")) = balance (_session g) /\
      total_credits (_session (_unlock_achievement g "shadow_operator")) =
      total_credits (_session g)).
  { intros g. unfold _unlock_achievement.
    destruct (achievement_unlocked _ _); split; reflexivity. }
  destruct (kind d) eqn:Hk, win; simpl.
  - (* Double or nothing, win *)
    apply andb_prop in Hwf as [Hwf Hdon].
    apply andb_prop in Hdon as [Hreq Hlt].
    apply Z.eqb_eq in Hreq. rewrite Hreq.
    destruct (Z.eqb_spec (wr + 1) 3) as [E|E].
    + destruct (Z.geb_spec (wr + 1) 3); [|lia]. simpl.
      repeat split; try apply Hunlock.
      * rewrite (proj1 (Hbal _)). simpl. lia.
      * rewrite (proj2 (Hbal _)). simpl. reflexivity.
    + apply Z.ltb_lt in Hlt.
      destruct (Z.geb_spec (wr + 1) 3); [lia|]. simpl.
      repeat split. unfold mission_in_progress. simpl. rewrite Hk, Hreq.
      apply andb_prop in Hwf as [H1 H2]. rewrite H1. simpl.
      apply Z.leb_le in H2.
      destruct (Z.leb_spec 0 (wr + 1)); [|lia].
      destruct (Z.ltb_spec (wr + 1) 3); [|lia]. reflexivity.
  - (* Double or nothing, loss *)
    repeat split.
  - (* Big money, win *)
    repeat split; try apply Hunlock; apply Hbal.
  - (* Big money, loss *)
    repeat split.
  - (* Lucky seven, win *)
    count_down_case Hwf Hk Hunlock Hbal.
  - (* Lucky seven, loss *)
    repeat split.
  - (* Gone blind, win *)
    count_down_case Hwf Hk Hunlock Hbal.
  - (* Gone blind, loss *)
    count_down_case Hwf Hk Hunlock Hbal.
  - (* Reverse psychology, win *)
    count_down_case Hwf Hk Hunlock Hbal.
  - (* Reverse psychology, loss *)
    repeat split.
Qed.

(** The advancement step writes nothing but the session and the active
    slot. *)
Lemma update_side_mission_frame (self : InfiniteGame) (win : bool) :
  let after := _update_side_mission_after_round self win in
  _pending_side_mission after.1 = _pending_side_mission self /\
  _rounds_completed after.1 = _rounds_completed self /\
  _state after.1 = _state self.
Proof.
  simpl. unfold _update_side_mission_after_round.
  destruct (_active_side_mission self) as [mission|]; [|repeat split].
  destruct (kind (definition mission)), win; simpl;
    repeat match goal with
    | |- context [if ?b then _ else _] => destruct b; simpl
    end;
    repeat split;
    unfold _unlock_achievement;
    repeat match goal with
    | |- context [if ?b then _ else _] => destruct b; simpl
    end;
    reflexivity.
Qed.

(** C4. One advancement step of an active mission follows the per-kind
    table of the specification: the mission continues with its counter
    updated, or completes (Double-or-nothing doubling the balance at the
    third win), or fails; completing and failing deactivate the mission
    and clear the active slot, and only completing unlocks the reward.
    The step leaves the pending mission and the round count alone. *)
Theorem update_side_mission_follows_table (self : InfiniteGame)
  (mission : SideMissionState) (win : bool) :
  _active_side_mission self = Some mission ->
  mission_in_progress mission = true ->
  let after := _update_side_mission_after_round self win in
  match table_advance mission win with
  | Continues m =>
      after.2 = Some m /\
      _active_side_mission after.1 = Some m /\
      mission_in_progress m = true /\
      _session after.1 = _session self
  | Completes doubles m =>
      after.2 = Some (set_active (set_completed m true) false) /\
      _active_side_mission after.1 = None /\
      balance (_session after.1) =
        (if doubles then 2 * balance (_session self)
         else balance (_session self)) /\
      total_credits (_session after.1) =
        (if doubles
         then total_credits (_session self) + balance (_session self)
         else total_credits (_session self)) /\
      achievement_unlocked (_session after.1) "shadow_operator" = true
  | Fails m =>
      after.2 = Some (set_active (set_failed m true) false) /\
      _active_side_mission after.1 = None /\
      _session after.1 = _session self
  end /\
  _pending_side_mission after.1 = _pending_side_mission self /\
  _rounds_completed after.1 = _rounds_completed self.
Proof.
  intros Hactive Hprogress after. subst after. split.
  - (* the table *)
    pose proof (update_side_mission_table self mission win Hactive Hprogress)
      as Htable.
    destruct (table_advance mission win); exact Htable.
  - (* the frame *)
    destruct (update_side_mission_frame self win) as (Hp & Hr & _).
    split; assumption.
Qed.

Lemma update_side_mission_follows_table_witness :
  _active_side_mission game_two_wins =
    Some (set_wins_in_row (start double_or_nothing) 2) /\
  mission_in_progress (set_wins_in_row (start double_or_nothing) 2) = true /\
  (_update_side_mission_after_round game_two_wins true).2 =
    Some (set_active
            (set_completed (set_wins_in_row (start double_or_nothing) 3) true)
            false) /\
  _active_side_mission (_update_side_mission_after_round game_two_wins true).1
    = None /\
  balance (_session (_update_side_mission_after_round game_two_wins true).1)
    = 10000 /\
  total_credits
    (_session (_update_side_mission_after_round game_two_wins true).1)
    = 10000 /\
  achievement_unlocked
    (_session (_update_side_mission_after_round game_two_wins true).1)
    "shadow_operator" = true.
Proof.
  split; [reflexivity|]. split; [reflexivity|].
  exact (proj1 (update_side_mission_follows_table game_two_wins
                  (set_wins_in_row (start double_or_nothing) 2) true
                  eq_refl eq_refl)).
Defined.

(** ** Scheduling and offering side missions *)

Lemma same_mission_fields_refl g : same_mission_fields g g.
Proof. repeat split. Qed.

Lemma same_mission_fields_trans g1 g2 g3 :
  same_mission_fields g1 g2 -> same_mission_fields g2 g3 ->
  same_mission_fields g1 g3.
Proof.
  intros (? & ? & ? & ?) (? & ? & ? & ?). repeat split; congruence.
Qed.

Lemma unlock_achievement_fields g key :
  same_mission_fields g (_unlock_achievement g key).
Proof.
  unfold _unlock_achievement.
  destruct (achievement_unlocked _ _); repeat split.
Qed.

Lemma check_credit_achievements_fields g :
  same_mission_fields g (_check_credit_achievements g).
Proof.
  unfold _check_credit_achievements.
  eapply same_mission_fields_trans.
  2: { destruct (_ >=? 100000000);
       [apply unlock_achievement_fields|apply same_mission_fields_refl]. }
  destruct (_ >=? 1000000);
    [apply unlock_achievement_fields|apply same_mission_fields_refl].
Qed.

Lemma maybe_schedule_spec g pick :
  (schedule_due g /\
   _maybe_schedule_side_mission g pick =
     with_pending_side_mission g (Some (random_definition pick))) \/
  (~ schedule_due g /\ _maybe_schedule_side_mission g pick = g).
Proof.
  unfold _maybe_schedule_side_mission, schedule_due, _SIDE_MISSION_INTERVAL.
  destruct (side_missions_enabled (_session g)); simpl;
    [|right; split; [intros (? & _); discriminate|reflexivity]].
  destruct (_active_side_mission g) as [m|]; simpl.
  { right. split; [intros (_ & ? & _); discriminate|reflexivity]. }
  destruct (_pending_side_mission g) as [d|]; simpl.
  { right. split; [intros (_ & _ & ? & _); discriminate|reflexivity]. }
  destruct (Z.eqb_spec (_rounds_completed g) 0); simpl.
  { right. split; [intros (_ & _ & _ & ? & _); contradiction|reflexivity]. }
  destruct (Z.eqb_spec (_rounds_completed g mod 15) 0); simpl.
  - left. repeat split; assumption.
  - right. split; [intros (_ & _ & _ & _ & ?); contradiction|reflexivity].
Qed.

Lemma after_round_spec g win p pick :
  let g' := _after_round g win p pick in
  _active_side_mission g' = _active_side_mission g /\
  _rounds_completed g' = _rounds_completed g + 1 /\
  side_missions_enabled (_session g') = side_missions_enabled (_session g) /\
  (_pending_side_mission g' = _pending_side_mission g \/
   _pending_side_mission g' = Some (random_definition pick) /\
   _pending_side_mission g = None /\
   side_missions_enabled (_session g') = true /\
   _active_side_mission g' = None /\
   _rounds_completed g' <> 0 /\
   _rounds_completed g' mod 15 = 0).
Proof.
  unfold _after_round.
  set (g1 := with_rounds_completed g (_rounds_completed g + 1)).
  set (g2 := if win then _ else _).
  assert (H2 : same_mission_fields g1 g2).
  { subst g2. destruct win; [|repeat split].
    set (g3 := with_session g1 _).
    assert (H3 : same_mission_fields g1 g3) by repeat split.
    eapply same_mission_fields_trans; [exact H3|].
    eapply same_mission_fields_trans.
    2: { destruct (_ <? _)%float;
         [apply unlock_achievement_fields|apply same_mission_fields_refl]. }
    eapply same_mission_fields_trans.
    2: { destruct (_ >=? 10);
         [apply unlock_achievement_fields|apply same_mission_fields_refl]. }
    destruct (_ >=? 5);
      [apply unlock_achievement_fields|apply same_mission_fields_refl]. }
  pose proof (check_credit_achievements_fields g2) as H3.
  pose proof (same_mission_fields_trans _ _ _ H2 H3) as (Hp & Ha & Hr & He).
  set (g4 := _check_credit_achievements g2) in *.
  simpl in Hp, Ha, Hr, He.
  destruct (maybe_schedule_spec g4 pick) as [(Hdue & ->)|(_ & ->)]; simpl.
  - repeat split; try assumption. right.
    destruct Hdue as (D1 & D2 & D3 & D4 & D5).
    repeat split; simpl; congruence.
  - repeat split; try assumption. left. assumption.
Qed.

Lemma apply_command_result_fields g r :
  same_mission_fields g (_apply_command_result g r).1.
Proof.
  unfold _apply_command_result.
  destruct (should_exit r); [repeat split|].
  destruct (next_state r); repeat split.
Qed.

Lemma apply_side_mission_skip_fields g d g' :
  _apply_side_mission_skip g d = Returns g' -> same_mission_fields g g'.
Proof.
  unfold _apply_side_mission_skip.
  destruct (skip_penalty_ratio d) as [ratio|].
  - intros H. apply bind_returns_inv in H as (b & _ & H).
    apply bind_returns_inv in H as (r & _ & H).
    injection H as <-. repeat split.
  - intros H. injection H as <-. repeat split.
Qed.

Lemma offer_prompt_spec d inputs : forall g g' rest,
  _pending_side_mission g = None ->
  offer_prompt g d inputs = Returns (g', rest) ->
  _rounds_completed g' = _rounds_completed g /\
  side_missions_enabled (_session g') = side_missions_enabled (_session g) /\
  offer_outcome d g g'.
Proof.
  induction inputs as [|line inputs IH]; intros g g' rest Hnone H;
    [discriminate H|].
  simpl in H.
  destruct (interpret _) as [command_result|].
  - pose proof (apply_command_result_fields g command_result)
      as (Hp & Ha & Hr & He).
    destruct (_apply_command_result g command_result) as [g1 interrupted].
    simpl in Hp, Ha, Hr, He.
    destruct interrupted.
    + injection H as <- <-. simpl. repeat split; try assumption.
      apply offer_requeued; simpl; [reflexivity|assumption].
    + apply IH in H as (Hr' & He' & Ho); [|congruence].
      repeat split; try congruence.
      destruct Ho; [apply offer_requeued|apply offer_accepted
                   |apply offer_dropped]; congruence.
  - destruct (bool_decide _).
    + injection H as <- <-. simpl. repeat split.
      apply offer_accepted; simpl; [assumption|reflexivity].
    + destruct (bool_decide _).
      * apply bind_returns_inv in H as (g1 & Hskip & H).
        injection H as <- <-.
        apply apply_side_mission_skip_fields in Hskip
          as (Hp & Ha & Hr & He).
        repeat split; try assumption.
        apply offer_dropped; congruence.
      * apply IH in H; assumption.
Qed.

Lemma offer_side_mission_spec g d inputs g' rest :
  _pending_side_mission g = Some d ->
  _offer_side_mission g inputs = Returns (g', rest) ->
  _rounds_completed g' = _rounds_completed g /\
  side_missions_enabled (_session g') = side_missions_enabled (_session g) /\
  offer_outcome d g g'.
Proof.
  intros Hd H. unfold _offer_side_mission in H. rewrite Hd in H.
  destruct (side_missions_enabled (_session g)) eqn:He; simpl in H.
  - apply offer_prompt_spec in H as (Hr & He' & Ho); [|reflexivity].
    simpl in Hr, He'. repeat split; try congruence.
    destruct Ho as [? Ha|? Ha|? Ha]; simpl in Ha;
      [apply offer_requeued|apply offer_accepted|apply offer_dropped];
      assumption.
  - injection H as <- <-. simpl. repeat split; [assumption|].
    apply offer_dropped; reflexivity.
Qed.

Lemma random_definition_in (pick : nat) :
  In (random_definition pick) _DEFINITIONS.
Proof.
  unfold random_definition. apply nth_In.
  apply Nat.mod_upper_bound. discriminate.
Qed.

Lemma start_in_progress (d : SideMissionDefinition) :
  In d _DEFINITIONS -> mission_in_progress (start d) = true.
Proof.
  intros H. repeat (destruct H as [<-|H]; [reflexivity|]). destruct H.
Qed.

(** What the advancement step leaves in the active slot. *)
Lemma update_side_mission_slot (self : InfiniteGame) (win : bool) :
  let after := _update_side_mission_after_round self win in
  _pending_side_mission after.1 = _pending_side_mission self /\
  _rounds_completed after.1 = _rounds_completed self /\
  side_missions_enabled (_session after.1) =
    side_missions_enabled (_session self) /\
  ((forall m, _active_side_mission self = Some m ->
               mission_in_progress m = true) ->
   forall m', _active_side_mission after.1 = Some m' ->
              mission_in_progress m' = true).
Proof.
  simpl. unfold _update_side_mission_after_round.
  destruct (_active_side_mission self) as [mission|] eqn:Hactive.
  2: { repeat split. intros _ m' H. simpl in H. congruence. }
  split; [|split; [|split]].
  1-3: destruct (kind (definition mission)), win; simpl;
       repeat match goal with
       | |- context [if ?b then _ else _] => destruct b; simpl
       end;
       try reflexivity;
       match goal with
       | |- context [_unlock_achievement ?g ?k] =>
           destruct (unlock_achievement_fields g k) as (E1 & E2 & E3 & E4);
           simpl in E1, E2, E3, E4; congruence
       end.
  intros Hwf m' Hm'. specialize (Hwf mission eq_refl).
  pose proof (update_side_mission_table self mission win Hactive Hwf) as H.
  simpl in H. unfold _update_side_mission_after_round in H.
  rewrite Hactive in H.
  destruct (table_advance mission win) as [m|dbl m|m].
  - destruct H as (_ & Hslot & Hin & _). congruence.
  - destruct H as (_ & Hslot & _). congruence.
  - destruct H as (_ & Hslot & _). congruence.
Qed.

Lemma step_preserves_invariant g g' :
  side_mission_invariant g -> step g g' -> side_mission_invariant g'.
Proof.
  intros (Hrc & Hpend & Hact & Hone) Hstep.
  destruct Hstep as [self win p pick|self inputs self' rest Hp Ha Hoffer
                    |self self' Ep Ea Er].
  - pose proof (update_side_mission_slot self win) as (Up & Ur & _ & Ua).
    simpl in Up, Ur, Ua. specialize (Ua Hact).
    set (g1 := (_update_side_mission_after_round self win).1) in *.
    pose proof (after_round_spec g1 win p pick) as (Aa & Ar & _ & Ap).
    simpl in Aa, Ar, Ap.
    set (g2 := _after_round g1 win p pick) in *.
    unfold side_mission_invariant. split; [lia|].
    assert (Hone1 : is_Some (_pending_side_mission g1) ->
                    _active_side_mission g1 = None).
    { rewrite Up. intros Hs. specialize (Hone Hs).
      destruct (_active_side_mission g1) as [m1|] eqn:E; [|reflexivity].
      subst g1. unfold _update_side_mission_after_round in E.
      rewrite Hone in E. simpl in E. congruence. }
    destruct Ap as [Ap|(Ap & _ & _ & Anone & _)].
    + repeat split.
      * intros d Hd. apply Hpend. congruence.
      * intros m Hm. apply Ua. congruence.
      * intros Hs. rewrite Aa. apply Hone1. congruence.
    + repeat split.
      * intros d Hd. rewrite Ap in Hd. injection Hd as <-.
        apply random_definition_in.
      * intros m Hm. apply Ua. congruence.
      * intros _. exact Anone.
  - destruct Hp as [d Hd].
    pose proof (offer_side_mission_spec self d inputs self' rest Hd Hoffer)
      as (Or & _ & Oo).
    unfold side_mission_invariant. split; [lia|].
    destruct Oo as [Op Oa|Op Oa|Op Oa].
    + repeat split.
      * intros d' Hd'. apply Hpend. congruence.
      * intros m Hm. congruence.
      * intros _. congruence.
    + repeat split.
      * intros d' Hd'. congruence.
      * intros m Hm. rewrite Oa in Hm. injection Hm as <-.
        apply start_in_progress, Hpend, Hd.
      * intros [d' Hd']. congruence.
    + repeat split.
      * intros d' Hd'. congruence.
      * intros m Hm. congruence.
      * intros [d' Hd']. congruence.
  - unfold side_mission_invariant. rewrite Ep, Ea, Er.
    repeat split; assumption.
Qed.

Lemma reachable_invariant g : reachable g -> side_mission_invariant g.
Proof.
  induction 1 as [session|g g' _ IH Hstep].
  - unfold side_mission_invariant. simpl. repeat split.
    + lia.
    + intros d H. discriminate H.
    + intros m H. discriminate H.
  - eapply step_preserves_invariant; eassumption.
Qed.

(** When a step queues a mission that was not pending before. *)
Lemma step_queues_when_due g g' :
  step g g' ->
  _pending_side_mission g = None ->
  is_Some (_pending_side_mission g') ->
  side_missions_enabled (_session g') = true /\
  _active_side_mission g' = None /\
  _rounds_completed g' <> 0 /\
  _rounds_completed g' mod 15 = 0.
Proof.
  intros Hstep Hnone [d Hd].
  destruct Hstep as [self win p pick|self inputs self' rest Hp Ha Hoffer
                    |self self' Ep Ea Er].
  - pose proof (update_side_mission_slot self win) as (Up & _).
    simpl in Up.
    set (g1 := (_update_side_mission_after_round self win).1) in *.
    pose proof (after_round_spec g1 win p pick) as (_ & _ & _ & Ap).
    simpl in Ap.
    destruct Ap as [Ap|(_ & _ & He & Ha & Hr & Hm)]; [congruence|].
    repeat split; assumption.
  - rewrite Hnone in Hp. destruct Hp as [? Hp]. discriminate Hp.
  - congruence.
Qed.

(** C5. In every reachable game at most one side mission is pending or
    active, and a step queues a mission that was not already pending only
    with the feature enabled, no mission active, and a completed-round
    count that is a positive multiple of 15. *)
Theorem at_most_one_side_mission (self : InfiniteGame) :
  reachable self ->
  ~ (is_Some (_pending_side_mission self) /\
     is_Some (_active_side_mission self)) /\
  (forall self',
     step self self' ->
     _pending_side_mission self = None ->
     is_Some (_pending_side_mission self') ->
     side_missions_enabled (_session self') = true /\
     _active_side_mission self' = None /\
     0 < _rounds_completed self' /\
     _rounds_completed self' mod _SIDE_MISSION_INTERVAL = 0) /\
  (forall pick,
     _pending_side_mission (_maybe_schedule_side_mission self pick) <>
       _pending_side_mission self ->
     side_missions_enabled (_session self) = true /\
     _active_side_mission self = None /\
     _pending_side_mission self = None /\
     0 < _rounds_completed self /\
     _rounds_completed self mod _SIDE_MISSION_INTERVAL = 0).
Proof.
  intros Hreach.
  pose proof (reachable_invariant self Hreach) as (Hrc & _ & _ & Hone).
  split; [|split].
  - intros [Hp [m Hm]]. rewrite (Hone Hp) in Hm. discriminate Hm.
  - intros self' Hstep Hnone Hsome.
    pose proof (reachable_invariant self' (reachable_step _ _ Hreach Hstep))
      as (Hrc' & _).
    destruct (step_queues_when_due _ _ Hstep Hnone Hsome)
      as (He & Ha & Hr & Hm).
    unfold _SIDE_MISSION_INTERVAL. repeat split; try assumption. lia.
  - intros pick Hchanged.
    destruct (maybe_schedule_spec self pick) as [(Hdue & _)|(_ & Heq)].
    + destruct Hdue as (He & Ha & Hp & Hr & Hm).
      unfold _SIDE_MISSION_INTERVAL. repeat split; try assumption. lia.
    + rewrite Heq in Hchanged. contradiction.
Qed.

(** A win below the threshold keeps a Double-or-nothing mission in the
    slot with one more win counted; the session is untouched. *)
Lemma double_or_nothing_win_counts (g : InfiniteGame) (k : Z) :
  _active_side_mission g = Some (set_wins_in_row (start double_or_nothing) k) ->
  0 <= k < 2 ->
  let g' := (_update_side_mission_after_round g true).1 in
  _active_side_mission g' =
    Some (set_wins_in_row (start double_or_nothing) (k + 1)) /\
  _session g' = _session g.
Proof.
  intros H Hk.
  assert (Hin : mission_in_progress
                  (set_wins_in_row (start double_or_nothing) k) = true).
  { unfold mission_in_progress. simpl.
    destruct (Z.leb_spec 0 k); [|lia]. destruct (Z.ltb_spec k 3); [|lia].
    reflexivity. }
  pose proof (update_side_mission_table g _ true H Hin) as T.
  unfold table_advance in T. simpl in T.
  destruct (Z.eqb_spec (k + 1) 3); [lia|].
  destruct T as (_ & T1 & _ & T2). split; assumption.
Qed.

(** Three wins in a row from the start of a Double-or-nothing mission
    double the balance, complete the mission and clear the slot. *)
Lemma double_or_nothing_three_wins (g : InfiniteGame) :
  _active_side_mission g = Some (start double_or_nothing) ->
  let g' := advance_rounds g [true; true; true] in
  balance (_session g') = 2 * balance (_session g) /\
  _active_side_mission g' = None /\
  achievement_unlocked (_session g') "shadow_operator" = true.
Proof.
  intros H. unfold advance_rounds. simpl foldl.
  destruct (double_or_nothing_win_counts g 0 H ltac:(lia)) as (H1 & S1).
  set (g1 := (_update_side_mission_after_round g true).1) in *.
  destruct (double_or_nothing_win_counts g1 1 H1 ltac:(lia)) as (H2 & S2).
  set (g2 := (_update_side_mission_after_round g1 true).1) in *.
  pose proof (update_side_mission_table g2 _ true H2 eq_refl) as T.
  simpl in T. destruct T as (_ & T1 & T2 & _ & T3).
  repeat split; [|assumption..]. rewrite T2, S2, S1. reflexivity.
Qed.

(** A loss before the third win fails the mission: the slot is cleared
    and the session, balance included, is as it was. *)
Lemma double_or_nothing_loss_fails (g : InfiniteGame) (wins : nat) :
  _active_side_mission g = Some (start double_or_nothing) ->
  (wins < 3)%nat ->
  let before := advance_rounds g (repeat true wins) in
  let after := _update_side_mission_after_round before false in
  advance_rounds g (repeat true wins ++ [false]) = after.1 /\
  _session after.1 = _session g /\
  _active_side_mission after.1 = None /\
  after.2 =
    Some (set_active
            (set_failed
               (set_wins_in_row (start double_or_nothing) (Z.of_nat wins))
               true)
            false).
Proof.
  intros H Hw. simpl. split.
  { unfold advance_rounds. rewrite foldl_app. reflexivity. }
  assert (Hbefore :
    _active_side_mission (advance_rounds g (repeat true wins)) =
      Some (set_wins_in_row (start double_or_nothing) (Z.of_nat wins)) /\
    _session (advance_rounds g (repeat true wins)) = _session g).
  { destruct wins as [|[|[|wins]]]; [| | |lia]; unfold advance_rounds;
      simpl foldl.
    - split; [exact H|reflexivity].
    - apply (double_or_nothing_win_counts g 0 H). lia.
    - destruct (double_or_nothing_win_counts g 0 H ltac:(lia)) as (H1 & S1).
      destruct (double_or_nothing_win_counts _ 1 H1 ltac:(lia)) as (H2 & S2).
      split; [exact H2|congruence]. }
  destruct Hbefore as (Hb & Sb).
  assert (Hin : mission_in_progress
    (set_wins_in_row (start double_or_nothing) (Z.of_nat wins)) = true).
  { destruct wins as [|[|[|wins]]]; [| | |lia]; reflexivity. }
  pose proof (update_side_mission_table _ _ false Hb Hin) as T.
  simpl in T. destruct T as (T1 & T2 & T3).
  repeat split; [congruence|assumption..].
Qed.

Lemma reachable_after_losses (n : nat) : reachable (game_after_losses n).
Proof.
  induction n as [|n IH]; [apply reachable_init|].
  unfold game_after_losses. rewrite Nat.iter_succ. fold (game_after_losses n).
  eapply reachable_step; [exact IH|apply step_round].
Qed.

Lemma at_most_one_side_mission_witness :
  reachable (game_after_losses 15) /\
  ~ (is_Some (_pending_side_mission (game_after_losses 15)) /\
     is_Some (_active_side_mission (game_after_losses 15))).
Proof.
  split; [apply reachable_after_losses|].
  exact (proj1 (at_most_one_side_mission (game_after_losses 15)
                  (reachable_after_losses 15))).
Defined.

(** The fifteenth round queues a mission, and none before it does. *)
Example mission_queued_after_fifteen_rounds :
  _pending_side_mission (game_after_losses 14) = None /\
  _pending_side_mission (game_after_losses 15) = Some double_or_nothing /\
  _active_side_mission (game_after_losses 15) = None.
Proof. vm_compute. repeat split. Qed.

(** Accepting the offer starts the mission and empties the queue. *)
Example offer_accepted_starts_mission :
  exists g rest,
    _offer_side_mission (game_after_losses 15) ["maybe"; "Y"; "n"]%string
      = Returns (g, rest) /\
    rest = ["n"%string] /\
    _pending_side_mission g = None /\
    _active_side_mission g = Some (start double_or_nothing).
Proof. eexists _, _. vm_compute. repeat split. Qed.

(** ** The remaining helpers of the round *)

(** A Big-Money mission with multiplier 5 turns a payout of 100 into 500. *)
Example big_money_bonus :
  _apply_bonus_multiplier
    (with_active_side_mission (InfiniteGame_init default_session)
       (Some (start big_money))) 100 = 500.
Proof. reflexivity. Qed.

(** The standard deck: 52 cards, and the jokers asked for. *)
Example standard_deck_size :
  length (Deck._create_standard_deck false 2) = 52%nat /\
  length (Deck._create_standard_deck true 2) = 54%nat.
Proof. split; reflexivity. Qed.

(** Blind and reverse modifiers hold only while rounds are left. *)
Lemma modifiers_need_rounds_left (m : SideMissionState) :
  rounds_left m <= 0 -> is_blind m = false /\ is_reverse m = false.
Proof.
  intros H. unfold is_blind, is_reverse.
  destruct (Z.gtb_spec (rounds_left m) 0); [lia|].
  rewrite !andb_false_r. split; reflexivity.
Qed.

(** * Properties of the further code *)

(** ** Card comparisons *)

(** X1. The six comparisons of two cards are those of a total order on
    the ranks: exactly one of [a < b], [a == b], [a > b] holds, [>] is the
    converse of [<], [<=] and [>=] are the negations of [>] and [<], and
    [<] is transitive. *)
Theorem card_comparisons_total_order (a b c : Card) :
  card_gt a b = card_lt b a /\
  card_ne a b = negb (card_eq a b) /\
  card_le a b = negb (card_gt a b) /\
  card_ge a b = negb (card_lt a b) /\
  (card_lt a b = true /\ card_eq a b = false /\ card_gt a b = false \/
   card_lt a b = false /\ card_eq a b = true /\ card_gt a b = false \/
   card_lt a b = false /\ card_eq a b = false /\ card_gt a b = true) /\
  (card_lt a b = true -> card_lt b c = true -> card_lt a c = true).
Proof.
  unfold card_gt, card_le, card_ge, card_ne, card_lt, card_eq.
  cbn [__gt__ __le__ __ge__ __ne__ __lt__ __eq__].
  unfold card_ne, card_eq. cbn [__ne__ __eq__].
  unfold Rank.ltb, Rank.eqb.
  generalize (Rank.value (rank a)) (Rank.value (rank b))
             (Rank.value (rank c)).
  intros x y z.
  destruct (Z.ltb_spec x y), (Z.ltb_spec y x), (Z.eqb_spec x y); lia.
Qed.

(** ** Deck construction *)

Lemma count_occ_repeat_other (x y : Card) (n : nat) :
  x <> y -> count_occ card_eq_dec (repeat y n) x = 0%nat.
Proof.
  intros Hne. induction n as [|n IH]; [reflexivity|].
  cbn [repeat]. rewrite count_occ_cons_neq by congruence. exact IH.
Qed.

Lemma count_jokers_repeat (n : nat) :
  count_cards is_joker (repeat (mkCard Rank.JOKER Suit.JOKER) n) = Z.of_nat n.
Proof.
  unfold count_cards. induction n as [|n IH]; [reflexivity|].
  cbn [repeat List.filter is_joker]. cbn. cbn in IH. lia.
Qed.

Lemma count_cards_app (p : Card -> bool) (l1 l2 : list Card) :
  count_cards p (l1 ++ l2) = count_cards p l1 + count_cards p l2.
Proof. unfold count_cards. rewrite List.filter_app, length_app. lia. Qed.

(** X2. [Deck(...)] refuses a negative joker count, whatever else it is
    given; otherwise the standard deck holds every one of the 52
    rank-and-suit cards exactly once and, when jokers are included, exactly
    [jokers_count] jokers besides. *)
Theorem standard_deck_composition (include_jokers : bool) (jokers_count : Z) :
  (jokers_count < 0 ->
   forall cards,
     Deck__init__ cards include_jokers jokers_count = Raises ValueError) /\
  (0 <= jokers_count ->
   exists d,
     Deck__init__ None include_jokers jokers_count = Returns d /\
     Deck.len d = 52 + (if include_jokers then jokers_count else 0) /\
     count_cards is_joker (Deck._cards d) =
       (if include_jokers then jokers_count else 0) /\
     forall r s, r <> Rank.JOKER -> s <> Suit.JOKER ->
       count_occ card_eq_dec (Deck._cards d) (mkCard r s) = 1%nat).
Proof.
  unfold Deck__init__. split.
  - intros H cards. destruct (Z.ltb_spec jokers_count 0); [reflexivity|lia].
  - intros H. destruct (Z.ltb_spec jokers_count 0); [lia|].
    eexists. split; [reflexivity|].
    cbn [Deck._cards]. unfold Deck.len. cbn [Deck._cards].
    unfold Deck._create_standard_deck.
    set (base := flat_map _ Suit.members).
    assert (Hlen : length base = 52%nat) by reflexivity.
    assert (Hjok : count_cards is_joker base = 0) by reflexivity.
    assert (Hocc : forall r s, r <> Rank.JOKER -> s <> Suit.JOKER ->
              count_occ card_eq_dec base (mkCard r s) = 1%nat).
    { intros r s Hr Hs. destruct r, s; try contradiction; reflexivity. }
    destruct include_jokers; cbv beta iota.
    + split; [|split].
      * rewrite length_app, repeat_length, Hlen. lia.
      * rewrite count_cards_app, Hjok, count_jokers_repeat. lia.
      * intros r s Hr Hs. rewrite count_occ_app, (Hocc r s Hr Hs).
        rewrite count_occ_repeat_other; [reflexivity|].
        intros E. injection E as -> _. contradiction.
    + split; [|split].
      * rewrite Hlen. lia.
      * rewrite Hjok. reflexivity.
      * exact Hocc.
Qed.

(** ** Shuffling *)

Lemma insert_permutation {A} (t : list A) : forall (k : nat) (a b : A),
  t !! k = Some a -> a :: <[k := b]> t ≡ₚ b :: t.
Proof.
  induction t as [|c t IH]; intros [|k] a b H; try discriminate H.
  - injection H as ->. cbn. apply Permutation_swap.
  - cbn in H. cbn [insert list_insert].
    change (<[S k := b]> (c :: t)) with (c :: <[k := b]> t).
    etransitivity; [apply Permutation_swap|].
    etransitivity; [apply Permutation_skip, (IH k a b H)|].
    apply Permutation_swap.
Qed.

Lemma swap_items_permutation {A} (x : list A) : forall i j,
  swap_items x i j ≡ₚ x.
Proof.
  unfold swap_items. intros i j.
  destruct (x !! j) as [xj|] eqn:Hj; [|reflexivity].
  destruct (x !! i) as [xi|] eqn:Hi; [|reflexivity].
  revert i j xi xj Hi Hj.
  induction x as [|c x IH]; intros [|i] [|j] xi xj Hi Hj;
    try discriminate Hi; try discriminate Hj.
  - cbn in Hi, Hj. injection Hi as ->. injection Hj as ->. reflexivity.
  - cbn in Hi, Hj. injection Hi as ->.
    change (xj :: <[j := xi]> x ≡ₚ xi :: x).
    apply insert_permutation, Hj.
  - cbn in Hi, Hj. injection Hj as ->.
    change (xi :: <[i := xj]> x ≡ₚ xj :: x).
    apply insert_permutation, Hi.
  - cbn in Hi, Hj.
    change (c :: <[j := xi]> (<[i := xj]> x) ≡ₚ c :: x).
    apply Permutation_skip, (IH i j xi xj Hi Hj).
Qed.

Lemma shuffle_from_spec {A} (i : nat) : forall (x : list A) (r : Random),
  (shuffle_from i x r).1 ≡ₚ x /\
  rng (shuffle_from i x r).2 = rng r /\
  rng_used (shuffle_from i x r).2 = (rng_used r + i)%nat.
Proof.
  induction i as [|i IH]; intros x r.
  - cbn. split; [reflexivity|split; [reflexivity|lia]].
  - cbn [shuffle_from randbelow].
    destruct (IH (swap_items x (S i) (rng r (rng_used r) mod (S i + 1)))
                 (mkRandom (rng r) (S (rng_used r)))) as (Hp & Hr & Hu).
    split; [|split].
    + etransitivity; [exact Hp|apply swap_items_permutation].
    + rewrite Hr. reflexivity.
    + rewrite Hu. cbn. lia.
Qed.

(** X3. Shuffling a deck keeps its cards: whatever numbers the generator
    delivers, the deck after [shuffle] is a permutation of the deck before
    (so no card is lost or doubled and the length is kept), and one number
    is drawn for each position but the first. *)
Theorem shuffle_is_permutation (d : Deck.t) (r : Random) :
  Deck._cards (Deck_shuffle d r).1 ≡ₚ Deck._cards d /\
  Deck.len (Deck_shuffle d r).1 = Deck.len d /\
  (forall p, count_cards p (Deck._cards (Deck_shuffle d r).1) =
             count_cards p (Deck._cards d)) /\
  rng_used (Deck_shuffle d r).2 =
    (rng_used r + (length (Deck._cards d) - 1))%nat.
Proof.
  unfold Deck_shuffle, random_shuffle.
  destruct (shuffle_from_spec (length (Deck._cards d) - 1) (Deck._cards d) r)
    as (Hp & _ & Hu).
  destruct (shuffle_from _ _ _) as [cards r']. cbn in *.
  repeat split; [exact Hp| | |exact Hu].
  - unfold Deck.len. cbn. rewrite (Permutation_length Hp). reflexivity.
  - intros p. unfold count_cards.
    assert (Hf : List.filter p cards ≡ₚ List.filter p (Deck._cards d)).
    { clear Hu. induction Hp; cbn.
      - reflexivity.
      - destruct (p x); [apply Permutation_skip|]; assumption.
      - destruct (p x), (p y); try reflexivity. apply Permutation_swap.
      - etransitivity; eassumption. }
    rewrite (Permutation_length Hf). reflexivity.
Qed.

(** ** The deck watcher *)

Lemma list_remove_not_in (x : nat) (l : list nat) :
  x ∉ l -> list_remove x l = l.
Proof.
  induction l as [|y l IH]; intros H; [reflexivity|].
  cbn. apply not_elem_of_cons in H as [Hne Hl].
  rewrite bool_decide_eq_false_2 by exact Hne.
  rewrite IH by exact Hl. reflexivity.
Qed.

Lemma list_remove_snoc (x : nat) (l : list nat) :
  x ∉ l -> list_remove x (l ++ [x]) = l.
Proof.
  induction l as [|y l IH]; intros H.
  - cbn. rewrite bool_decide_eq_true_2; reflexivity.
  - cbn. apply not_elem_of_cons in H as [Hne Hl].
    rewrite bool_decide_eq_false_2 by exact Hne.
    rewrite IH by exact Hl. reflexivity.
Qed.

Lemma elem_of_list_remove_other (x y : nat) (l : list nat) :
  y <> x -> (y ∈ list_remove x l <-> y ∈ l).
Proof.
  intros Hne. induction l as [|z l IH]; [reflexivity|].
  cbn. destruct (bool_decide_reflect (x = z)) as [->|Hxz].
  - rewrite elem_of_cons. tauto.
  - rewrite !elem_of_cons, IH. tauto.
Qed.

Lemma list_remove_sublist (x : nat) (l : list nat) :
  sublist (list_remove x l) l.
Proof.
  induction l as [|z l IH]; [constructor|].
  cbn. destruct (bool_decide (x = z)).
  - apply sublist_cons, reflexivity.
  - apply sublist_skip, IH.
Qed.

Lemma not_elem_of_list_remove (x : nat) (l : list nat) :
  NoDup l -> x ∉ list_remove x l.
Proof.
  induction l as [|z l IH]; intros Hnd.
  - cbn. apply not_elem_of_nil.
  - apply NoDup_cons in Hnd as [Hz Hnd]. cbn.
    destruct (bool_decide_reflect (x = z)) as [->|Hxz]; [exact Hz|].
    apply not_elem_of_cons. split; [exact Hxz|apply IH, Hnd].
Qed.

(** X4. A watcher that holds no observer twice stays so under [attach]
    and [detach]; after [attach] the observer is registered and after
    [detach] it is not; attaching twice is attaching once; detaching an
    observer that is not registered changes nothing, and detaching one just
    attached gives the watcher back; the other observers are not touched. *)
Theorem attach_detach_registry (w : DeckWatcher) (o : nat) :
  NoDup (_observers w) ->
  NoDup (_observers (attach w o)) /\
  NoDup (_observers (detach w o)) /\
  (o ∈ _observers (attach w o)) /\
  (o ∉ _observers (detach w o)) /\
  attach (attach w o) o = attach w o /\
  (o ∉ _observers w -> detach w o = w /\ detach (attach w o) o = w) /\
  (forall o', o' <> o ->
     (o' ∈ _observers (attach w o) <-> o' ∈ _observers w) /\
     (o' ∈ _observers (detach w o) <-> o' ∈ _observers w)).
Proof.
  intros Hnd. destruct w as [l]. unfold attach, detach. cbn [_observers] in *.
  destruct (bool_decide_reflect (o ∈ l)) as [Hin|Hout]; cbn [_observers].
  - rewrite (bool_decide_eq_true_2 _ Hin).
    split; [exact Hnd|].
    split; [exact (sublist_NoDup _ _ Hnd (list_remove_sublist o l))|].
    split; [exact Hin|].
    split; [apply not_elem_of_list_remove, Hnd|].
    split; [reflexivity|].
    split; [intros H; contradiction|].
    intros o' Hne. split; [reflexivity|].
    apply elem_of_list_remove_other, Hne.
  - assert (Hin' : o ∈ l ++ [o]) by (apply elem_of_app; right; left).
    rewrite (bool_decide_eq_true_2 _ Hin').
    split.
    { apply NoDup_app. split; [exact Hnd|]. split; [|apply NoDup_singleton].
      intros x Hx Hx'. apply list_elem_of_singleton in Hx'. congruence. }
    split; [exact Hnd|].
    split; [exact Hin'|].
    split; [exact Hout|].
    split; [reflexivity|].
    split.
    { intros _. split; [reflexivity|].
      rewrite list_remove_snoc by exact Hout. reflexivity. }
    intros o' Hne. split; [|reflexivity].
    rewrite elem_of_app, list_elem_of_singleton. tauto.
Qed.

Lemma attach_detach_registry_witness :
  NoDup (_observers DeckWatcher_init) /\
  attach (attach DeckWatcher_init 0%nat) 0%nat = attach DeckWatcher_init 0%nat.
Proof.
  assert (H : NoDup (_observers DeckWatcher_init)) by apply NoDup_nil_2.
  split; [exact H|].
  exact (proj1 (proj2 (proj2 (proj2 (proj2
           (attach_detach_registry DeckWatcher_init 0%nat H)))))).
Defined.

Lemma notify_fold {S} (on_update : S -> list Card -> S)
  (remaining : list Card) (l : list nat) :
  forall (objects : gmap nat S) (calls : list (nat * list Card)),
  NoDup l ->
  exists objects',
    foldl (fun '(objects, calls) observer =>
             (alter (fun o => on_update o remaining) observer objects,
              calls ++ [(observer, remaining)]))
          (objects, calls) l =
      (objects', calls ++ map (fun o => (o, remaining)) l) /\
    forall o,
      objects' !! o =
        if bool_decide (o ∈ l)
        then (fun s => on_update s remaining) <$> objects !! o
        else objects !! o.
Proof.
  induction l as [|x l IH]; intros objects calls Hnd.
  - exists objects. cbn. rewrite app_nil_r. split; [reflexivity|].
    intros o. rewrite bool_decide_eq_false_2; [reflexivity|apply not_elem_of_nil].
  - apply NoDup_cons in Hnd as [Hx Hnd]. cbn [foldl].
    destruct (IH (alter (fun o => on_update o remaining) x objects)
                 (calls ++ [(x, remaining)]) Hnd) as (objects' & Hf & Hl).
    exists objects'. split.
    + rewrite Hf. cbn [map]. rewrite <- app_assoc. reflexivity.
    + intros o. rewrite Hl.
      destruct (decide (o = x)) as [->|Hne].
      * rewrite (bool_decide_eq_false_2 _ Hx).
        rewrite bool_decide_eq_true_2 by left.
        apply lookup_alter_eq.
      * rewrite lookup_alter_ne by congruence.
        destruct (bool_decide_reflect (o ∈ l)) as [Hin|Hout].
        -- rewrite bool_decide_eq_true_2 by (right; exact Hin). reflexivity.
        -- rewrite bool_decide_eq_false_2; [reflexivity|].
           apply not_elem_of_cons. split; assumption.
Qed.

(** X5. [notify] calls [on_deck_updated] once on every registered
    observer, in the order of registration and with the same snapshot; an
    object that is not registered is left as it was. *)
Theorem notify_reaches_each_observer_once {S}
  (on_update : S -> list Card -> S) (w : DeckWatcher) (objects : gmap nat S)
  (remaining : list Card) :
  NoDup (_observers w) ->
  (notify on_update w objects remaining).2 =
    map (fun o => (o, remaining)) (_observers w) /\
  forall o,
    (notify on_update w objects remaining).1 !! o =
      if bool_decide (o ∈ _observers w)
      then (fun s => on_update s remaining) <$> objects !! o
      else objects !! o.
Proof.
  intros Hnd. unfold notify.
  destruct (notify_fold on_update remaining (_observers w) objects [] Hnd)
    as (objects' & Hf & Hl).
  cbv zeta. rewrite Hf. cbn [fst snd]. split; [reflexivity|exact Hl].
Qed.

Lemma notify_reaches_each_observer_once_witness :
  NoDup (_observers (attach DeckWatcher_init 0%nat)) /\
  (notify on_deck_updated (attach DeckWatcher_init 0%nat)
     {[ 0%nat := AICardCounter_init ]} test_snapshot).2 =
    [(0%nat, test_snapshot)].
Proof.
  assert (H : NoDup (_observers (attach DeckWatcher_init 0%nat)))
    by (apply NoDup_singleton).
  split; [exact H|].
  exact (proj1 (notify_reaches_each_observer_once on_deck_updated
                  (attach DeckWatcher_init 0%nat)
                  {[ 0%nat := AICardCounter_init ]} test_snapshot H)).
Defined.

(** ** Achievement state *)

Lemma default_state_lookup (key : string) :
  default_state !! key =
    if bool_decide (key ∈ achievement_keys) then Some false else None.
Proof.
  unfold default_state. induction achievement_keys as [|k l IH].
  - cbn. rewrite lookup_empty. reflexivity.
  - cbn [fmap list_fmap list_to_map foldr]. cbn.
    destruct (decide (key = k)) as [->|Hne].
    + rewrite lookup_insert_eq.
      rewrite bool_decide_eq_true_2 by left. reflexivity.
    + rewrite lookup_insert_ne by congruence. cbn in IH. rewrite IH.
      destruct (bool_decide_reflect (key ∈ l)) as [Hin|Hout].
      * rewrite bool_decide_eq_true_2 by (right; exact Hin). reflexivity.
      * rewrite bool_decide_eq_false_2; [reflexivity|].
        apply not_elem_of_cons. split; assumption.
Qed.

Lemma merge_state_lookup (stored : gmap string json) (key : string) :
  merge_state stored !! key =
    if bool_decide (key ∈ achievement_keys)
    then Some (from_option truthy false (stored !! key))
    else None.
Proof.
  revert key. unfold merge_state.
  apply (map_fold_weak_ind
           (fun (r : gmap string bool) (m : gmap string json) =>
              forall key,
                r !! key =
                  if bool_decide (key ∈ achievement_keys)
                  then Some (from_option truthy false (m !! key))
                  else None)).
  - intros key. rewrite default_state_lookup, lookup_empty. reflexivity.
  - intros i x m r Hi IH key. unfold merge_item.
    destruct (decide (key = i)) as [->|Hne].
    + rewrite lookup_insert_eq. cbn [from_option].
      specialize (IH i).
      destruct (bool_decide (i ∈ achievement_keys)).
      * rewrite bool_decide_eq_true_2 by (rewrite IH; eexists; reflexivity).
        rewrite lookup_insert_eq. reflexivity.
      * rewrite bool_decide_eq_false_2; [exact IH|].
        rewrite IH. intros [? ?]. discriminate.
    + rewrite (lookup_insert_ne m) by congruence.
      destruct (bool_decide (is_Some (r !! i)));
        [rewrite lookup_insert_ne by congruence|]; apply IH.
Qed.

(** X6. [merge_state] returns a state over exactly the catalogue's ten
    keys: a catalogue key holds the truth value of what is stored under
    it, [False] when nothing is; a stored key the catalogue does not have
    is dropped. Merging what was merged, written back as booleans, gives
    the same state again. *)
Theorem merge_state_normalizes (stored : gmap string json) :
  (forall key,
     key ∈ achievement_keys ->
     merge_state stored !! key =
       Some (from_option truthy false (stored !! key))) /\
  (forall key,
     key ∉ achievement_keys -> merge_state stored !! key = None) /\
  merge_state ∅ = default_state /\
  merge_state (JBool <$> merge_state stored) = merge_state stored.
Proof.
  split; [|split; [|split]].
  - intros key Hin. rewrite merge_state_lookup.
    rewrite bool_decide_eq_true_2 by exact Hin. reflexivity.
  - intros key Hout. rewrite merge_state_lookup.
    rewrite bool_decide_eq_false_2 by exact Hout. reflexivity.
  - apply map_eq. intros key.
    rewrite merge_state_lookup, default_state_lookup, lookup_empty.
    reflexivity.
  - apply map_eq. intros key.
    rewrite merge_state_lookup, lookup_fmap, merge_state_lookup.
    destruct (bool_decide (key ∈ achievement_keys)); reflexivity.
Qed.

(** ** The shop *)

Lemma purchases_refl (s : SessionData) : purchases s s.
Proof. unfold purchases. repeat split; auto; lia. Qed.

Lemma purchases_trans (s1 s2 s3 : SessionData) :
  purchases s1 s2 -> purchases s2 s3 -> purchases s1 s3.
Proof.
  unfold purchases.
  intros (A1 & A2 & A3 & A4 & A5 & A6 & A7 & A8 & A9 & A10 & A11 & A12 & A13
          & A14 & A15)
         (B1 & B2 & B3 & B4 & B5 & B6 & B7 & B8 & B9 & B10 & B11 & B12 & B13
          & B14 & B15).
  repeat split; try congruence; try lia; auto.
Qed.

Lemma purchases_visited (s : SessionData) (b : bool) :
  purchases s (set_visited_shop s b).
Proof. unfold purchases. cbn. repeat split; auto; lia. Qed.

Lemma attempt_level_purchase_spec (s : SessionData) (item : ShopItem)
  (a : level_attribute) :
  (item, a) ∈ [(_ODDS_ITEM, attr_odds_level); (_BET_ITEM, attr_bet_level);
               (_JOKER_ITEM, attr_joker_level)] ->
  purchases s (_attempt_level_purchase s item a) /\
  visited_shop (_attempt_level_purchase s item a) = visited_shop s.
Proof.
  intros Hin. unfold _attempt_level_purchase.
  assert (Hpow : forall n : N, 2 ^ (Z.of_N n + 1) = 2 * 2 ^ Z.of_N n).
  { intros n. rewrite Z.pow_add_r by lia. lia. }
  assert (Hpos : forall n : N, 0 < 2 ^ Z.of_N n).
  { intros n. apply Z.pow_pos_nonneg; lia. }
  destruct s as [bal tc bb dc ws mws [ol bl ai jl] sme ce ach vs vset].
  repeat (apply elem_of_cons in Hin as [Hin|Hin]);
    [| | |apply elem_of_nil in Hin; contradiction];
    injection Hin as -> ->; cbn -[Z.pow N.max];
    unfold at_max_level, _next_cost; cbn -[Z.pow N.max].
  - destruct (Z.geb_spec (Z.of_N ol) 7); [split; [apply purchases_refl|reflexivity]|].
    destruct (Z.ltb_spec bal (4000 * 2 ^ Z.of_N ol));
      [split; [apply purchases_refl|reflexivity]|].
    split; [|reflexivity]. unfold purchases, upgrades_value. cbn -[Z.pow N.max].
    replace (Z.of_N (Z.to_N (Z.of_N ol + 1))) with (Z.of_N ol + 1) by lia.
    rewrite Hpow. pose proof (Hpos ol).
    repeat split; auto; lia.
  - destruct (Z.geb_spec (Z.of_N bl) 7); [split; [apply purchases_refl|reflexivity]|].
    destruct (Z.ltb_spec bal (3000 * 2 ^ Z.of_N bl));
      [split; [apply purchases_refl|reflexivity]|].
    split; [|reflexivity]. unfold purchases, upgrades_value. cbn -[Z.pow N.max].
    replace (Z.of_N (Z.to_N (Z.of_N bl + 1))) with (Z.of_N bl + 1) by lia.
    rewrite Hpow. pose proof (Hpos bl).
    repeat split; auto; lia.
  - destruct (Z.geb_spec (Z.of_N jl) 1); [split; [apply purchases_refl|reflexivity]|].
    destruct (Z.ltb_spec bal (60000 * 2 ^ Z.of_N jl));
      [split; [apply purchases_refl|reflexivity]|].
    split; [|reflexivity]. unfold purchases, upgrades_value. cbn -[Z.pow N.max].
    replace (Z.of_N (Z.to_N (Z.of_N jl + 1))) with (Z.of_N jl + 1) by lia.
    rewrite Hpow. pose proof (Hpos jl).
    repeat split; auto; lia.
Qed.

Lemma attempt_toggle_purchase_spec (s : SessionData) :
  purchases s (_attempt_toggle_purchase s _AI_ITEM) /\
  visited_shop (_attempt_toggle_purchase s _AI_ITEM) = visited_shop s.
Proof.
  unfold _attempt_toggle_purchase.
  destruct s as [bal tc bb dc ws mws [ol bl ai jl] sme ce ach vs vset].
  cbn -[Z.pow N.max].
  destruct ai; [split; [apply purchases_refl|reflexivity]|].
  destruct (Z.ltb_spec bal 30000); [split; [apply purchases_refl|reflexivity]|].
  split; [|reflexivity]. unfold purchases, upgrades_value. cbn -[Z.pow N.max].
  repeat split; auto; lia.
Qed.

Lemma shop_loop_spec (inputs : list string) :
  forall (s s' : SessionData) (rest : list string),
  shop_loop s inputs = Returns (s', rest) ->
  purchases s s' /\ visited_shop s' = visited_shop s /\
  exists read, inputs = read ++ rest /\ read <> [].
Proof.
  induction inputs as [|line inputs IH]; intros s s' rest H; [discriminate H|].
  cbn [shop_loop] in H.
  assert (Hstep : forall s1,
            purchases s s1 -> visited_shop s1 = visited_shop s ->
            shop_loop s1 inputs = Returns (s', rest) ->
            purchases s s' /\ visited_shop s' = visited_shop s /\
            exists read, line :: inputs = read ++ rest /\ read <> []).
  { intros s1 Hp Hv Hl. destruct (IH s1 s' rest Hl) as (Hp' & Hv' & read & -> & _).
    split; [exact (purchases_trans _ _ _ Hp Hp')|].
    split; [congruence|]. exists (line :: read). split; [reflexivity|discriminate]. }
  destruct (bool_decide _) in H.
  { injection H as -> ->. split; [apply purchases_refl|]. split; [reflexivity|].
    exists [line]. split; [reflexivity|discriminate]. }
  destruct (bool_decide _) in H.
  { refine (Hstep _ _ _ H);
      apply (attempt_level_purchase_spec s _ODDS_ITEM attr_odds_level); left. }
  destruct (bool_decide _) in H.
  { refine (Hstep _ _ _ H);
      apply (attempt_level_purchase_spec s _BET_ITEM attr_bet_level);
      right; left. }
  destruct (bool_decide _) in H.
  { refine (Hstep _ _ _ H); apply attempt_toggle_purchase_spec. }
  destruct (bool_decide _) in H.
  { refine (Hstep _ _ _ H);
      apply (attempt_level_purchase_spec s _JOKER_ITEM attr_joker_level);
      right; right; left. }
  exact (Hstep s (purchases_refl s) eq_refl H).
Qed.

(** X7. A visit to the shop that ends marks the shop as visited and does
    nothing to the session but buy upgrades at the listed prices: what
    the balance loses is what the new levels cost ([base_cost * 2 ^ level]
    for each level bought, [base_cost] for the counter); a purchase is made
    only when the balance covers it, so the balance is either untouched or
    ends at 0 or more; levels never go down and a purchase never takes one
    past its maximum (7, 7 and 1); an installed counter stays installed;
    credits, streaks, switches and achievements are as before. *)
Theorem shop_open_accounting (session : SessionData) (inputs : list string)
  (session' : SessionData) (rest : list string) :
  Shop_open session inputs = Returns (session', rest) ->
  visited_shop session' = true /\
  balance session' + upgrades_value (upgrades session') =
    balance session + upgrades_value (upgrades session) /\
  (balance session' = balance session \/
   (0 <= balance session' /\ balance session' < balance session)) /\
  (odds_level (upgrades session) <= odds_level (upgrades session')
     <= N.max (odds_level (upgrades session)) 7)%N /\
  (bet_level (upgrades session) <= bet_level (upgrades session')
     <= N.max (bet_level (upgrades session)) 7)%N /\
  (joker_level (upgrades session) <= joker_level (upgrades session')
     <= N.max (joker_level (upgrades session)) 1)%N /\
  (ai_counter (upgrades session) = true ->
   ai_counter (upgrades session') = true) /\
  total_credits session' = total_credits session /\
  base_bet session' = base_bet session /\
  decks_completed session' = decks_completed session /\
  win_streak session' = win_streak session /\
  max_win_streak session' = max_win_streak session /\
  side_missions_enabled session' = side_missions_enabled session /\
  calibration_enabled session' = calibration_enabled session /\
  achievements session' = achievements session /\
  visited_settings session' = visited_settings session.
Proof.
  unfold Shop_open. intros H.
  destruct (shop_loop_spec inputs _ _ _ H) as (Hp & Hv & _).
  split; [rewrite Hv; reflexivity|].
  exact (purchases_trans _ _ _ (purchases_visited session true) Hp).
Qed.

Lemma shop_open_accounting_witness :
  Shop_open default_session ["1"; " Odds "; "ai"; "what"; "B"; "2"]%string =
    Returns (set_visited_shop
               (set_upgrades (set_balance default_session 1000)
                  (mkUpgradeState 1 0 false 0)) true, ["2"]%string) /\
  visited_shop
    (set_visited_shop
       (set_upgrades (set_balance default_session 1000)
          (mkUpgradeState 1 0 false 0)) true) = true.
Proof.
  assert (H : Shop_open default_session
                ["1"; " Odds "; "ai"; "what"; "B"; "2"]%string =
              Returns (set_visited_shop
                         (set_upgrades (set_balance default_session 1000)
                            (mkUpgradeState 1 0 false 0)) true, ["2"]%string))
    by (vm_compute; reflexivity).
  split; [exact H|].
  exact (proj1 (shop_open_accounting _ _ _ _ H)).
Defined.

Lemma shop_loop_returns (before : list string) :
  forall (s : SessionData) (line : string) (rest : list string),
  Forall (fun l => ~ leaves_menu l) before ->
  leaves_menu line ->
  exists s', shop_loop s (before ++ line :: rest) = Returns (s', rest).
Proof.
  induction before as [|l before IH]; intros s line rest Hb Hl.
  - exists s. cbn [app shop_loop]. unfold leaves_menu in Hl.
    rewrite (bool_decide_eq_true_2 _ Hl). reflexivity.
  - apply Forall_cons in Hb as [Hl' Hb]. cbn [app shop_loop].
    unfold leaves_menu in Hl'. rewrite (bool_decide_eq_false_2 _ Hl').
    repeat (destruct (bool_decide _); [apply IH; assumption|]).
    apply IH; assumption.
Qed.

Lemma shop_loop_eof (inputs : list string) :
  forall s : SessionData,
  Forall (fun l => ~ leaves_menu l) inputs ->
  shop_loop s inputs = Raises EOFError.
Proof.
  induction inputs as [|l inputs IH]; intros s Hb; [reflexivity|].
  apply Forall_cons in Hb as [Hl' Hb]. cbn [shop_loop].
  unfold leaves_menu in Hl'. rewrite (bool_decide_eq_false_2 _ Hl').
  repeat (destruct (bool_decide _); [apply IH; assumption|]).
  apply IH; assumption.
Qed.

(** X8. The shop is left at the first line that reads [b], [back] or
    [exit] (whatever its case and the blanks around it): the visit then
    returns, with exactly the lines after it unread. A line before it never
    ends the visit; if no such line comes, the shop reads on until the
    input is exhausted. *)
Theorem shop_open_leaves_at_first_exit_word (session : SessionData)
  (before : list string) :
  Forall (fun l => ~ leaves_menu l) before ->
  Shop_open session before = Raises EOFError /\
  forall line rest,
    leaves_menu line ->
    exists session',
      Shop_open session (before ++ line :: rest) = Returns (session', rest).
Proof.
  intros Hb. unfold Shop_open. split.
  - apply shop_loop_eof, Hb.
  - intros line rest Hl. apply shop_loop_returns; assumption.
Qed.

Lemma shop_open_leaves_at_first_exit_word_witness :
  Forall (fun l => ~ leaves_menu l) ["1"; "bet"]%string /\
  Shop_open default_session ["1"; "bet"]%string = Raises EOFError.
Proof.
  assert (H : Forall (fun l => ~ leaves_menu l) ["1"; "bet"]%string).
  { unfold leaves_menu. repeat constructor; vm_compute;
      intros H; repeat (apply elem_of_cons in H as [H|H]; [discriminate H|]);
      apply elem_of_nil in H; exact H. }
  split; [exact H|].
  exact (proj1 (shop_open_leaves_at_first_exit_word default_session _ H)).
Defined.

(** ** Reasoning about runs *)

Section RunLogic.
Context {A B : Type}.
Variable E : raised -> Prop.
Variable F : Prop.

Lemma wp_bind (m : Run A) (k : A -> Run B) (Q : B -> World -> Prop)
  (w : World) :
  wp m (fun a w' => wp (k a) Q E F w') E F w -> wp (m ≫= k) Q E F w.
Proof.
  unfold wp, mbind, run_bind.
  destruct (m w) as [[a w']| |]; auto.
Qed.

Lemma wp_mono (m : Run A) (Q Q' : A -> World -> Prop) (w : World) :
  wp m Q E F w -> (forall a w', Q a w' -> Q' a w') -> wp m Q' E F w.
Proof.
  unfold wp. destruct (m w) as [[a w']| |]; auto.
Qed.

Lemma wp_ret (a : A) (Q : A -> World -> Prop) (w : World) :
  Q a w -> wp (mret a) Q E F w.
Proof. auto. Qed.

Lemma wp_lift (r : result A) (Q : A -> World -> Prop) (w : World) :
  match r with Returns a => Q a w | Raises e => E (Exn e) end ->
  wp (lift r) Q E F w.
Proof. unfold wp, lift. destruct r; auto. Qed.

Lemma wp_raise (e : raised) (Q : A -> World -> Prop) (w : World) :
  E e -> wp (raise e) Q E F w.
Proof. auto. Qed.

Lemma wp_out_of_fuel (Q : A -> World -> Prop) (w : World) :
  F -> wp out_of_fuel Q E F w.
Proof. auto. Qed.
End RunLogic.

Section RunPrimitives.
Variable E : raised -> Prop.
Variable F : Prop.

Lemma wp_get_game (Q : InfiniteGame -> World -> Prop) (w : World) :
  Q (game w) w -> wp get_game Q E F w.
Proof. auto. Qed.

Lemma wp_put_game (g : InfiniteGame) (Q : unit -> World -> Prop) (w : World) :
  Q tt (mkWorld g (inputs w) (random w) (scanner w) (scans_made w)) ->
  wp (put_game g) Q E F w.
Proof. auto. Qed.

Lemma wp_modify_game (f : InfiniteGame -> InfiniteGame)
  (Q : unit -> World -> Prop) (w : World) :
  Q tt (mkWorld (f (game w)) (inputs w) (random w) (scanner w)
          (scans_made w)) ->
  wp (modify_game f) Q E F w.
Proof. auto. Qed.

Lemma wp_get_inputs (Q : list string -> World -> Prop) (w : World) :
  Q (inputs w) w -> wp get_inputs Q E F w.
Proof. auto. Qed.

Lemma wp_put_inputs (lines : list string) (Q : unit -> World -> Prop)
  (w : World) :
  Q tt (mkWorld (game w) lines (random w) (scanner w) (scans_made w)) ->
  wp (put_inputs lines) Q E F w.
Proof. auto. Qed.

Lemma wp_get_random (Q : Random -> World -> Prop) (w : World) :
  Q (random w) w -> wp get_random Q E F w.
Proof. auto. Qed.

Lemma wp_put_random (r : Random) (Q : unit -> World -> Prop) (w : World) :
  Q tt (mkWorld (game w) (inputs w) r (scanner w) (scans_made w)) ->
  wp (put_random r) Q E F w.
Proof. auto. Qed.

Lemma wp_scan_card (label : string) (Q : scan_outcome -> World -> Prop)
  (w : World) :
  Q (scanner w (scans_made w))
    (mkWorld (game w) (inputs w) (random w) (scanner w) (S (scans_made w))) ->
  wp (scan_card label) Q E F w.
Proof. auto. Qed.
End RunPrimitives.

(** One step of a run: the head of a sequence, or a primitive. *)
Ltac wp_step :=
  lazymatch goal with
  | |- wp (mbind _ _) _ _ _ _ => apply wp_bind
  | |- wp (mret _) _ _ _ _ => apply wp_ret
  | |- wp get_game _ _ _ _ => apply wp_get_game
  | |- wp (put_game _) _ _ _ _ => apply wp_put_game
  | |- wp (modify_game _) _ _ _ _ => apply wp_modify_game
  | |- wp get_inputs _ _ _ _ => apply wp_get_inputs
  | |- wp (put_inputs _) _ _ _ _ => apply wp_put_inputs
  | |- wp get_random _ _ _ _ => apply wp_get_random
  | |- wp (put_random _) _ _ _ _ => apply wp_put_random
  | |- wp (scan_card _) _ _ _ _ => apply wp_scan_card
  | |- wp (lift _) _ _ _ _ => apply wp_lift
  | |- wp (raise _) _ _ _ _ => apply wp_raise
  | |- wp out_of_fuel _ _ _ _ => apply wp_out_of_fuel
  end.

Ltac wp_steps := repeat (wp_step; cbn [game inputs random scanner scans_made]).

(** ** The bookkeeping of the game *)

(** The fields of the records, for simplification. *)
Ltac fields :=
  cbn [_session _state _deck _current_card _ai_counter _active_side_mission
       _rounds_completed _pending_side_mission
       with_session with_state with_active_side_mission
       with_rounds_completed with_pending_side_mission
       with_deck with_current_card with_ai_counter
       balance total_credits base_bet decks_completed win_streak
       max_win_streak upgrades side_missions_enabled calibration_enabled
       achievements visited_shop visited_settings
       set_balance set_total_credits set_win_streak set_max_win_streak
       set_achievements set_upgrades set_visited_shop
       set_side_missions_enabled set_calibration_enabled
       set_visited_settings set_decks_completed
       odds_level bet_level ai_counter joker_level
       game inputs random scanner scans_made fst snd] in *.

Lemma session_progress_refl (s : SessionData) : session_progress s s.
Proof. unfold session_progress. repeat split; auto; lia. Qed.

Lemma session_progress_trans (s1 s2 s3 : SessionData) :
  session_progress s1 s2 -> session_progress s2 s3 -> session_progress s1 s3.
Proof.
  unfold session_progress.
  intros (A1 & A2 & A3 & A4 & A5 & A6 & A7 & A8 & A9)
         (B1 & B2 & B3 & B4 & B5 & B6 & B7 & B8 & B9).
  repeat split; try lia; try congruence; auto.
Qed.

Lemma same_table_refl g : same_table g g.
Proof. repeat split. Qed.

Lemma same_table_trans g1 g2 g3 :
  same_table g1 g2 -> same_table g2 g3 -> same_table g1 g3.
Proof. intros (? & ? & ?) (? & ? & ?). repeat split; congruence. Qed.

Lemma same_play_refl g : same_play g g.
Proof. repeat split. Qed.

Lemma same_play_trans g1 g2 g3 :
  same_play g1 g2 -> same_play g2 g3 -> same_play g1 g3.
Proof. intros (? & ? & ? & ?) (? & ? & ? & ?). repeat split; congruence. Qed.

Lemma bookkeeping_refl g : bookkeeping g g.
Proof.
  split; [apply same_table_refl|]. split; [apply same_play_refl|].
  split; [apply session_progress_refl|]. split; reflexivity.
Qed.

Lemma bookkeeping_trans g1 g2 g3 :
  bookkeeping g1 g2 -> bookkeeping g2 g3 -> bookkeeping g1 g3.
Proof.
  intros (A1 & A2 & A3 & A4 & A5) (B1 & B2 & B3 & B4 & B5).
  split; [exact (same_table_trans _ _ _ A1 B1)|].
  split; [exact (same_play_trans _ _ _ A2 B2)|].
  split; [exact (session_progress_trans _ _ _ A3 B3)|].
  split; congruence.
Qed.

Lemma in_sync_same_table g g' : same_table g g' -> in_sync g -> in_sync g'.
Proof.
  intros (Hd & Hc & _) H deck Hdeck. rewrite Hc. apply H. congruence.
Qed.

Lemma in_sync_same_deck g g' :
  _deck g' = _deck g -> _ai_counter g' = _ai_counter g ->
  in_sync g -> in_sync g'.
Proof. intros Hd Hc H deck Hdeck. rewrite Hc. apply H. congruence. Qed.

Lemma reachable_same_play g g' : same_play g g' -> reachable g -> reachable g'.
Proof.
  intros (_ & Hp & Ha & Hr) H.
  apply (reachable_step g g' H). apply step_other; assumption.
Qed.

Lemma carries_refl g : carries g g.
Proof. repeat split; auto. Qed.

Lemma carries_trans g1 g2 g3 : carries g1 g2 -> carries g2 g3 -> carries g1 g3.
Proof. intros (? & ? & ?) (? & ? & ?). repeat split; auto. Qed.

Lemma deck_work_refl g : deck_work g g.
Proof.
  split; [apply same_play_refl|]. split; [auto|]. split; [auto|].
  split; [apply session_progress_refl|auto].
Qed.

Lemma deck_work_trans g1 g2 g3 :
  deck_work g1 g2 -> deck_work g2 g3 -> deck_work g1 g3.
Proof.
  intros (A1 & A2 & A3 & A4 & A5) (B1 & B2 & B3 & B4 & B5).
  split; [exact (same_play_trans _ _ _ A1 B1)|].
  split; [auto|]. split; [auto|].
  split; [exact (session_progress_trans _ _ _ A4 B4)|auto].
Qed.

Lemma deck_work_carries g g' : deck_work g g' -> carries g g'.
Proof.
  intros (Hplay & Hcur & Hsync & _). split; [exact Hsync|].
  split; [apply reachable_same_play, Hplay|].
  intros Hready Hstate. destruct Hplay as (Hst & _).
  apply Hcur, Hready. congruence.
Qed.

Lemma bookkeeping_deck_work g g' : bookkeeping g g' -> deck_work g g'.
Proof.
  intros (Ht & Hp & Hs & Hb & _). split; [exact Hp|].
  destruct Ht as (Hd & Hc & Hcur).
  split; [rewrite Hcur; auto|].
  split; [apply in_sync_same_table; repeat split; assumption|].
  split; [exact Hs|rewrite Hb; auto].
Qed.

Lemma unlocked_insert (a : gmap string bool) (k key : string) :
  default false (a !! key) = true ->
  default false (<[k := true]> a !! key) = true.
Proof.
  intros H. destruct (decide (k = key)) as [->|Hne].
  - rewrite lookup_insert_eq. reflexivity.
  - rewrite lookup_insert_ne by exact Hne. exact H.
Qed.

Lemma unlock_achievement_bookkeeping g key :
  bookkeeping g (_unlock_achievement g key).
Proof.
  unfold _unlock_achievement.
  destruct (achievement_unlocked _ _); [apply bookkeeping_refl|].
  repeat split; fields; try lia; auto.
  intros k. unfold achievement_unlocked. fields. apply unlocked_insert.
Qed.

Lemma bookkeeping_if (b : bool) g g' :
  bookkeeping g g' -> bookkeeping g (if b then g' else g).
Proof. destruct b; [auto|intros _; apply bookkeeping_refl]. Qed.

Lemma check_credit_achievements_bookkeeping g :
  bookkeeping g (_check_credit_achievements g).
Proof.
  unfold _check_credit_achievements.
  eapply bookkeeping_trans;
    [|apply bookkeeping_if, unlock_achievement_bookkeeping].
  apply bookkeeping_if, unlock_achievement_bookkeeping.
Qed.

Lemma check_shop_achievement_bookkeeping g :
  bookkeeping g (_check_shop_achievement g).
Proof.
  unfold _check_shop_achievement.
  eapply bookkeeping_trans;
    [|apply bookkeeping_if, unlock_achievement_bookkeeping].
  apply bookkeeping_if, unlock_achievement_bookkeeping.
Qed.

Lemma record_deck_completion_bookkeeping g :
  bookkeeping g (_record_deck_completion g).
Proof.
  unfold _record_deck_completion.
  eapply bookkeeping_trans;
    [|apply bookkeeping_if, unlock_achievement_bookkeeping].
  eapply bookkeeping_trans;
    [|apply bookkeeping_if, unlock_achievement_bookkeeping].
  repeat split; fields; try lia; auto.
Qed.

Lemma notify_watcher_counter (self : InfiniteGame) (remaining : list Card) :
  notify_watcher self remaining =
    with_ai_counter self (on_deck_updated AICardCounter_init remaining).
Proof.
  unfold notify_watcher, notify, _deck_watcher, attach, DeckWatcher_init.
  cbn [_observers bool_decide decide_rel app foldl].
  rewrite bool_decide_eq_false_2 by apply not_elem_of_nil.
  cbn [_observers app foldl].
  rewrite lookup_alter_eq, lookup_singleton_eq. reflexivity.
Qed.

Lemma in_sync_notified (g : InfiniteGame) (deck : Deck.t) :
  in_sync (notify_watcher (with_deck g (Some deck))
             (Deck.remaining_cards deck)).
Proof.
  rewrite notify_watcher_counter. intros d H. fields.
  injection H as <-. reflexivity.
Qed.

Lemma check_final_extraction_frame g :
  same_table g (_check_final_extraction g) /\
  _session (_check_final_extraction g) = _session g /\
  _pending_side_mission (_check_final_extraction g) =
    _pending_side_mission g /\
  _active_side_mission (_check_final_extraction g) =
    _active_side_mission g /\
  _rounds_completed (_check_final_extraction g) = _rounds_completed g /\
  (_state (_check_final_extraction g) = _state g \/
   _state (_check_final_extraction g) = TERMINATED).
Proof.
  unfold _check_final_extraction.
  destruct (_ <? _); repeat split; auto.
Qed.

(** A payout offered is at least the stake. *)
Lemma calculate_payout_at_least_stake (s : SessionData) (stake : Z)
  (p : float) (v : Z) :
  _calculate_payout s stake p = Returns (Some v) -> stake <= v.
Proof.
  unfold _calculate_payout. destruct (p <=? 0)%float; [discriminate|].
  intros H. apply bind_returns_inv in H as (x & _ & H).
  apply bind_returns_inv in H as (y & _ & H).
  injection H as <-. lia.
Qed.

Lemma build_payouts_at_least_stake (s : SessionData) (odds : WinOdds)
  (pt : PayoutTable) :
  _build_payouts s odds = Returns pt ->
  stake pt = _stake_amount s /\
  forall prediction v,
    _payout_for_prediction prediction pt = Some v -> stake pt <= v.
Proof.
  unfold _build_payouts. intros H.
  apply bind_returns_inv in H as (h & Hh & H).
  apply bind_returns_inv in H as (l & Hl & H).
  injection H as <-. split; [reflexivity|].
  intros [] v Hv; cbn in Hv; subst.
  - exact (calculate_payout_at_least_stake _ _ _ _ Hh).
  - exact (calculate_payout_at_least_stake _ _ _ _ Hl).
Qed.

Lemma bind_raises_inv {A B} (r : result A) (k : A -> result B) (e : exn) :
  r ≫= k = Raises e ->
  r = Raises e \/ exists a, r = Returns a /\ k a = Raises e.
Proof. destruct r as [a|e']; cbn; [eauto|intros [= ->]; auto]. Qed.

Lemma float_of_int_raises (n : Z) (e : exn) :
  float_of_int n = Raises e -> e = OverflowError.
Proof.
  unfold float_of_int. destruct (_ <? _); [discriminate|].
  destruct (is_infinity _); [intros [= <-]; reflexivity|discriminate].
Qed.

Lemma py_round_raises (x : float) (e : exn) :
  py_round x = Raises e -> e = ValueError \/ e = OverflowError.
Proof.
  unfold py_round. destruct (Prim2SF x); intros [= <-]; auto.
Qed.

Lemma int_truediv_raises (a b : Z) (e : exn) :
  b <> 0 -> int_truediv a b = Raises e -> e = OverflowError.
Proof.
  intros Hb. unfold int_truediv. destruct (Z.eqb_spec b 0); [contradiction|].
  intros H. apply bind_raises_inv in H as [H|(x & _ & H)];
    [exact (float_of_int_raises _ _ H)|].
  apply bind_raises_inv in H as [H|(y & _ & H)];
    [exact (float_of_int_raises _ _ H)|discriminate].
Qed.

Lemma win_odds_raises (c : AICardCounter) (card : Card) (e : exn) :
  win_odds c card = Raises e -> e = OverflowError.
Proof.
  unfold win_odds.
  destruct (Z.eqb_spec (_total c) 0) as [|Hne]; [discriminate|].
  cbn [orb negb]. destruct (is_joker card); [discriminate|].
  intros H.
  apply bind_raises_inv in H as [H|(x & _ & H)];
    [exact (int_truediv_raises _ _ _ Hne H)|].
  apply bind_raises_inv in H as [H|(y & _ & H)];
    [exact (int_truediv_raises _ _ _ Hne H)|].
  apply bind_raises_inv in H as [H|(z & _ & H)];
    [exact (int_truediv_raises _ _ _ Hne H)|discriminate].
Qed.

Lemma calculate_payout_raises (s : SessionData) (stake : Z) (p : float)
  (e : exn) :
  _calculate_payout s stake p = Raises e ->
  e = ValueError \/ e = OverflowError.
Proof.
  unfold _calculate_payout. destruct (p <=? 0)%float eqn:Hp; [discriminate|].
  intros H. apply bind_raises_inv in H as [H|(x & _ & H)].
  - unfold raw_payout, float_truediv in H.
    rewrite (not_leb_zero_not_zero _ Hp) in H. cbn [mbind result_bind] in H.
    apply bind_raises_inv in H as [H|(u & _ & H)];
      [right; exact (float_of_int_raises _ _ H)|].
    apply bind_raises_inv in H as [H|(u' & _ & H)];
      [right; exact (float_of_int_raises _ _ H)|discriminate].
  - apply bind_raises_inv in H as [H|(y & _ & H)];
      [exact (py_round_raises _ _ H)|discriminate].
Qed.

Lemma build_payouts_raises (s : SessionData) (odds : WinOdds) (e : exn) :
  _build_payouts s odds = Raises e -> e = ValueError \/ e = OverflowError.
Proof.
  unfold _build_payouts. intros H.
  apply bind_raises_inv in H as [H|(x & _ & H)];
    [exact (calculate_payout_raises _ _ _ _ H)|].
  apply bind_raises_inv in H as [H|(y & _ & H)];
    [exact (calculate_payout_raises _ _ _ _ H)|discriminate].
Qed.

Lemma input_from_player_raises (raw : string) (e : exn) :
  input_from_player raw = Raises e -> e = InvalidPredictionError.
Proof.
  unfold input_from_player, _fuzzy_match.
  rewrite fuzzy_match_loop_find. cbn [mbind result_bind].
  destruct (bool_decide_reflect
              (is_Some (aliases !! str_lower (str_strip raw))))
    as [[p Hp]|_].
  - unfold dict_getitem. rewrite Hp. discriminate.
  - destruct (List.find _ fuzzy_targets) as [target|] eqn:Hfind.
    + apply find_some in Hfind as [Hin _].
      destruct (fuzzy_target_has_alias target Hin) as [p ->]. discriminate.
    + intros [= <-]. reflexivity.
Qed.

Lemma stake_amount_nonneg (s : SessionData) :
  0 <= base_bet s -> 0 <= _stake_amount s.
Proof.
  intros H. unfold _stake_amount, bet_multiplier.
  apply Z.mul_nonneg_nonneg; [exact H|]. apply Z.pow_nonneg. lia.
Qed.

Lemma apply_bonus_multiplier_at_least g payout :
  0 <= payout -> payout <= _apply_bonus_multiplier g payout.
Proof.
  intros H. unfold _apply_bonus_multiplier.
  destruct (_active_side_mission g) as [m|]; [|lia].
  destruct (Z.leb_spec (bonus_multiplier (definition m)) 1); [lia|nia].
Qed.

(** Paying out a win: the table, the play and the missions are as before;
    the credits extracted do not shrink; and with a stake of 0 or more the
    balance grows by the stake at least, when there is a payout. *)
Lemma pay_out_spec prediction pt g :
  same_table g (pay_out prediction pt g) /\
  same_play g (pay_out prediction pt g) /\
  session_progress (_session g) (_session (pay_out prediction pt g)) /\
  side_missions_enabled (_session (pay_out prediction pt g)) =
    side_missions_enabled (_session g) /\
  ((forall v, _payout_for_prediction prediction pt = Some v ->
              stake pt <= v) ->
   0 <= stake pt ->
   is_Some (_payout_for_prediction prediction pt) ->
   balance (_session g) + stake pt <=
     balance (_session (pay_out prediction pt g))).
Proof.
  unfold pay_out.
  destruct (_payout_for_prediction prediction pt) as [v|].
  2: { split; [apply same_table_refl|]. split; [apply same_play_refl|].
       split; [apply session_progress_refl|]. split; [reflexivity|].
       intros _ _ [? ?]. discriminate. }
  unfold _apply_win.
  set (v' := _apply_bonus_multiplier g v).
  split; [repeat split|]. split; [repeat split|].
  split; [|split].
  - unfold session_progress.
    destruct (Z.gtb_spec (v' - stake pt) 0); fields;
      repeat split; fields; auto; lia.
  - destruct (_ >? _); reflexivity.
  - intros Hv Hs _. specialize (Hv v eq_refl).
    assert (v <= v') by (apply apply_bonus_multiplier_at_least; lia).
    destruct (_ >? _); fields; lia.
Qed.

Lemma double_balance_reward_spec g :
  same_table g (_double_balance_reward g) /\
  same_play g (_double_balance_reward g) /\
  side_missions_enabled (_session (_double_balance_reward g)) =
    side_missions_enabled (_session g) /\
  (0 <= balance (_session g) ->
   session_progress (_session g) (_session (_double_balance_reward g)) /\
   0 <= balance (_session (_double_balance_reward g))).
Proof.
  unfold _double_balance_reward. fields.
  split; [repeat split|]. split; [repeat split|]. split; [reflexivity|].
  intros H. split; [|lia].
  unfold session_progress. fields. repeat split; auto; lia.
Qed.

(** The advancement step on the session: only a win can double the
    balance, and a balance of 0 or more is doubled to one. *)
Lemma update_side_mission_session g win :
  let g' := (_update_side_mission_after_round g win).1 in
  same_table g g' /\
  _state g' = _state g /\
  (win = false \/ 0 <= balance (_session g) ->
   session_progress (_session g) (_session g')).
Proof.
  cbn zeta. unfold _update_side_mission_after_round.
  destruct (_active_side_mission g) as [mission|].
  2: { split; [apply same_table_refl|]. split; [reflexivity|].
       intros _. apply session_progress_refl. }
  assert (Hdouble : win = false \/ 0 <= balance (_session g) ->
            win = true ->
            session_progress (_session g)
              (_session (_double_balance_reward g))).
  { intros [->|H] Hw; [discriminate|].
    apply (double_balance_reward_spec g), H. }
  assert (Hunlock : forall g0 (b : bool),
            same_table g g0 -> _state g0 = _state g ->
            (win = false \/ 0 <= balance (_session g) ->
             session_progress (_session g) (_session g0)) ->
            let g1 := if b then _unlock_achievement g0 "shadow_operator"
                      else g0 in
            same_table g g1 /\ _state g1 = _state g /\
            (win = false \/ 0 <= balance (_session g) ->
             session_progress (_session g) (_session g1))).
  { intros g0 b Ht Hs Hp. cbn zeta.
    pose proof (bookkeeping_if b g0 _
                  (unlock_achievement_bookkeeping g0 "shadow_operator"))
      as (Bt & (Bs & _) & Bp & _).
    split; [exact (same_table_trans _ _ _ Ht Bt)|].
    split; [congruence|].
    intros H. exact (session_progress_trans _ _ _ (Hp H) Bp). }
  assert (Hsame : same_table g g /\ _state g = _state g /\
            (win = false \/ 0 <= balance (_session g) ->
             session_progress (_session g) (_session g))).
  { split; [apply same_table_refl|]. split; [reflexivity|].
    intros _. apply session_progress_refl. }
  assert (Hdbl : win = true ->
            same_table g (_double_balance_reward g) /\
            _state (_double_balance_reward g) = _state g /\
            (win = false \/ 0 <= balance (_session g) ->
             session_progress (_session g)
               (_session (_double_balance_reward g)))).
  { intros Hw. destruct (double_balance_reward_spec g) as (T & (S & _) & _).
    split; [exact T|]. split; [exact S|]. intros H. exact (Hdouble H Hw). }
  match goal with
  | |- context [let '(self, mission) := ?branch in _] =>
      assert (Hbranch : same_table g branch.1 /\ _state branch.1 = _state g /\
                (win = false \/ 0 <= balance (_session g) ->
                 session_progress (_session g) (_session branch.1)));
        [|destruct branch as [g0 m0]]
  end.
  { destruct (kind (definition mission)), win;
      repeat match goal with
      | |- context [if ?b then (_, _) else (_, _)] => destruct b
      end;
      cbn [fst snd]; try exact Hsame; exact (Hdbl eq_refl). }
  cbn [fst snd] in Hbranch. destruct Hbranch as (T & S & P).
  destruct (negb (active m0)); cbn [fst].
  - destruct (Hunlock g0 (completed m0) T S P) as (T' & S' & P').
    cbv zeta in T', S', P'.
    split; [destruct T' as (? & ? & ?); repeat split; assumption|].
    split; [exact S'|exact P'].
  - split; [destruct T as (? & ? & ?); repeat split; assumption|].
    split; [exact S|exact P].
Qed.

Lemma after_round_session g win p pick :
  let g' := _after_round g win p pick in
  same_table g g' /\ _state g' = _state g /\
  session_progress (_session g) (_session g') /\
  balance (_session g') = balance (_session g).
Proof.
  cbn zeta. unfold _after_round.
  set (g1 := with_rounds_completed g (_rounds_completed g + 1)).
  set (g2 := if win then _ else _).
  assert (H2 : same_table g g2 /\ _state g2 = _state g /\
               session_progress (_session g) (_session g2) /\
               balance (_session g2) = balance (_session g)).
  { subst g2. destruct win.
    - set (g3 := with_session g1 _).
      assert (H3 : same_table g g3 /\ _state g3 = _state g /\
                   session_progress (_session g) (_session g3) /\
                   balance (_session g3) = balance (_session g)).
      { subst g3 g1. fields. split; [repeat split|]. split; [reflexivity|].
        split; [|reflexivity].
        unfold session_progress. fields. repeat split; auto; lia. }
      assert (Hb : bookkeeping g3
                (if (p <? 0x1.999999999999ap-4)%float
                 then _unlock_achievement
                        (if win_streak (_session
                              (if win_streak (_session g3) >=? 5
                               then _unlock_achievement g3 "win_streak_5"
                               else g3)) >=? 10
                         then _unlock_achievement
                                (if win_streak (_session g3) >=? 5
                                 then _unlock_achievement g3 "win_streak_5"
                                 else g3) "win_streak_10"
                         else (if win_streak (_session g3) >=? 5
                               then _unlock_achievement g3 "win_streak_5"
                               else g3)) "statistical_anomaly"
                 else (if win_streak (_session
                              (if win_streak (_session g3) >=? 5
                               then _unlock_achievement g3 "win_streak_5"
                               else g3)) >=? 10
                       then _unlock_achievement
                              (if win_streak (_session g3) >=? 5
                               then _unlock_achievement g3 "win_streak_5"
                               else g3) "win_streak_10"
                       else (if win_streak (_session g3) >=? 5
                             then _unlock_achievement g3 "win_streak_5"
                             else g3)))).
      { eapply bookkeeping_trans;
          [|apply bookkeeping_if, unlock_achievement_bookkeeping].
        eapply bookkeeping_trans;
          [|apply bookkeeping_if, unlock_achievement_bookkeeping].
        apply bookkeeping_if, unlock_achievement_bookkeeping. }
      destruct H3 as (T & S & P & B).
      destruct Hb as (T' & (S' & _) & P' & B' & _).
      split; [exact (same_table_trans _ _ _ T T')|].
      split; [congruence|].
      split; [exact (session_progress_trans _ _ _ P P')|congruence].
    - subst g1. fields. split; [repeat split|]. split; [reflexivity|].
      split; [|reflexivity].
      unfold session_progress. fields. repeat split; auto; lia. }
  destruct H2 as (T & S & P & B).
  destruct (check_credit_achievements_bookkeeping g2)
    as (T' & (S' & _) & P' & B' & _).
  set (g4 := _check_credit_achievements g2) in *.
  destruct (maybe_schedule_spec g4 pick) as [(_ & ->)|(_ & ->)]; fields.
  - split; [destruct T as (? & ? & ?), T' as (? & ? & ?);
            repeat split; fields; congruence|].
    split; [congruence|].
    split; [exact (session_progress_trans _ _ _ P P')|congruence].
  - split; [exact (same_table_trans _ _ _ T T')|].
    split; [congruence|].
    split; [exact (session_progress_trans _ _ _ P P')|congruence].
Qed.

Lemma apply_command_result_frame g r :
  exists st, (_apply_command_result g r).1 = with_state g st.
Proof.
  unfold _apply_command_result.
  destruct (should_exit r); [eexists; reflexivity|].
  destruct (next_state r); [eexists; reflexivity|].
  exists (_state g). destruct g; reflexivity.
Qed.

Lemma apply_side_mission_skip_session g d g' :
  _apply_side_mission_skip g d = Returns g' ->
  same_table g g' /\ _state g' = _state g /\
  session_progress (_session g) (_session g') /\
  (0 <= balance (_session g) -> 0 <= balance (_session g')).
Proof.
  unfold _apply_side_mission_skip.
  destruct (skip_penalty_ratio d) as [ratio|].
  - intros H. apply bind_returns_inv in H as (b & _ & H).
    apply bind_returns_inv in H as (r & _ & H).
    injection H as <-. fields. split; [repeat split|].
    split; [reflexivity|]. split; [|lia].
    unfold session_progress. fields. repeat split; auto; lia.
  - intros H. injection H as <-. split; [apply same_table_refl|].
    split; [reflexivity|]. split; [apply session_progress_refl|auto].
Qed.

Lemma apply_side_mission_skip_raises g d e :
  _apply_side_mission_skip g d = Raises e ->
  e = ValueError \/ e = OverflowError.
Proof.
  unfold _apply_side_mission_skip.
  destruct (skip_penalty_ratio d) as [ratio|]; [|discriminate].
  intros H. apply bind_raises_inv in H as [H|(x & _ & H)];
    [right; exact (float_of_int_raises _ _ H)|].
  apply bind_raises_inv in H as [H|(y & _ & H)];
    [exact (py_round_raises _ _ H)|discriminate].
Qed.

Lemma offer_prompt_session d lines : forall g,
  match offer_prompt g d lines with
  | Returns (g', rest) =>
      same_table g g' /\
      session_progress (_session g) (_session g') /\
      (0 <= balance (_session g) -> 0 <= balance (_session g'))
  | Raises e => e = EOFError \/ e = ValueError \/ e = OverflowError
  end.
Proof.
  induction lines as [|line lines IH]; intros g; [left; reflexivity|].
  cbn [offer_prompt].
  destruct (interpret _) as [command_result|].
  - destruct (apply_command_result_frame g command_result) as [st Hst].
    destruct (_apply_command_result g command_result) as [g1 interrupted].
    cbn [fst] in Hst. subst g1. destruct interrupted.
    + split; [repeat split|]. split; [apply session_progress_refl|auto].
    + specialize (IH (with_state g st)).
      destruct (offer_prompt _ _ _) as [[g' rest]|e]; [|exact IH].
      exact IH.
  - destruct (bool_decide _).
    { split; [repeat split|]. split; [apply session_progress_refl|auto]. }
    destruct (bool_decide _); [|apply IH].
    destruct (_apply_side_mission_skip g d) as [g1|e] eqn:Hskip;
      cbn [mbind result_bind].
    + apply apply_side_mission_skip_session in Hskip as (T & _ & P & B).
      auto.
    + apply apply_side_mission_skip_raises in Hskip. tauto.
Qed.

Lemma offer_side_mission_session g lines :
  match _offer_side_mission g lines with
  | Returns (g', rest) =>
      same_table g g' /\
      session_progress (_session g) (_session g') /\
      (0 <= balance (_session g) -> 0 <= balance (_session g'))
  | Raises e => e = EOFError \/ e = ValueError \/ e = OverflowError
  end.
Proof.
  unfold _offer_side_mission.
  destruct (_pending_side_mission g) as [d|].
  2: { split; [apply same_table_refl|].
       split; [apply session_progress_refl|auto]. }
  destruct (negb _).
  { split; [repeat split|]. split; [apply session_progress_refl|auto]. }
  exact (offer_prompt_session d lines (with_pending_side_mission g None)).
Qed.

Lemma pay_calibration_fee_spec g :
  match pay_calibration_fee g with
  | Returns g' =>
      same_table g g' /\ same_play g g' /\
      session_progress (_session g) (_session g') /\
      0 <= balance (_session g')
  | Raises e => e = ValueError \/ e = OverflowError
  end.
Proof.
  unfold pay_calibration_fee.
  destruct (float_of_int _) as [b|e] eqn:Hb; cbn [mbind result_bind];
    [|right; exact (float_of_int_raises _ _ Hb)].
  destruct (py_round _) as [r|e] eqn:Hr; cbn [mbind result_bind];
    [|exact (py_round_raises _ _ Hr)].
  fields. split; [repeat split|]. split; [repeat split|]. split; [|lia].
  unfold session_progress. fields. repeat split; auto; lia.
Qed.

(** A card that is no joker has a scanner label. *)
Lemma card_label_for_scanner_returns card :
  is_joker card = false -> exists label, _card_label_for_scanner card = Returns label.
Proof.
  destruct card as [r s]. unfold is_joker, _card_label_for_scanner. fields.
  destruct r; cbn; try discriminate; intros _; eexists; reflexivity.
Qed.

(** ** The functions of a run *)

Lemma count_non_jokers_snoc (cards : list Card) (card : Card) :
  count_cards (fun c => negb (is_joker c)) (cards ++ [card]) =
    count_cards (fun c => negb (is_joker c)) cards
    + (if is_joker card then 0 else 1).
Proof.
  unfold count_cards. rewrite List.filter_app, length_app.
  cbn [List.filter]. destruct (is_joker card); cbn [negb length]; lia.
Qed.

Lemma non_jokers_bounds g :
  0 <= non_jokers g /\
  (1 <= non_jokers g -> deck_exhausted g = false).
Proof.
  unfold non_jokers, deck_exhausted, Deck.len, Deck.remaining_cards.
  destruct (_deck g) as [deck|]; [|split; lia].
  pose proof (count_cards_bounds (fun c => negb (is_joker c))
                (Deck._cards deck)) as H.
  split; [lia|]. intros H1. apply Z.eqb_neq. lia.
Qed.

Section Safety.
(** With [strict], the errors of the deck are excluded; the calls then
    need a deck to deal from. *)
Variable strict : Prop.

Lemma excused_result (e : exn) :
  e = EOFError \/ e = ValueError \/ e = OverflowError -> (excused strict) (Exn e).
Proof.
  intros [-> | [-> | ->]] _; unfold input_or_range_error; auto.
Qed.

Lemma excused_range (e : exn) :
  e = ValueError \/ e = OverflowError -> (excused strict) (Exn e).
Proof. intros H. apply excused_result. tauto. Qed.

Lemma deal_card_spec (w : World) :
  (strict -> deck_exhausted (game w) = false) ->
  wp _deal_card
    (fun card w' =>
       deck_work (game w) (game w') /\ in_sync (game w') /\
       _current_card (game w') = _current_card (game w) /\
       _session (game w') = _session (game w) /\
       non_jokers (game w') =
         non_jokers (game w) - (if is_joker card then 0 else 1))
    (excused strict) True w.
Proof.
  intros Hpre. unfold _deal_card. wp_steps.
  destruct (_deck (game w)) as [[cards]|] eqn:Hdeck.
  2: { wp_step. intros Hs. specialize (Hpre Hs).
       unfold deck_exhausted in Hpre. rewrite Hdeck in Hpre. discriminate. }
  destruct cards as [|card cards _] using rev_ind.
  { cbn. wp_steps. intros Hs. specialize (Hpre Hs).
    unfold deck_exhausted in Hpre. rewrite Hdeck in Hpre. discriminate. }
  rewrite deal_snoc. wp_steps.
  rewrite notify_watcher_counter. fields.
  split; [|split; [|split; [|split]]]; try reflexivity.
  - split; [repeat split|]. split; [auto|].
    split; [intros _ d H; fields; injection H as <-; reflexivity|].
    split; [apply session_progress_refl|auto].
  - intros d H. fields. injection H as <-. reflexivity.
  - unfold non_jokers. fields. rewrite Hdeck.
    unfold Deck.remaining_cards. cbn [Deck._cards].
    rewrite count_non_jokers_snoc. lia.
Qed.

Lemma random_choice_spec {A} (seq : list A) (w : World) :
  seq <> [] ->
  wp (random_choice seq) (fun a w' => In a seq /\ game w' = game w)
    (excused strict) True w.
Proof.
  intros Hne. destruct seq as [|x seq]; [contradiction|].
  unfold random_choice, randbelow. wp_steps. split; [|reflexivity].
  apply nth_In. apply Nat.mod_upper_bound. discriminate.
Qed.

Lemma calibration_target_card_spec (w : World) :
  wp _calibration_target_card
    (fun target w' =>
       game w' = game w /\
       forall card, target = Some card -> is_joker card = false)
    (excused strict) True w.
Proof.
  unfold _calibration_target_card. wp_steps.
  destruct (_deck (game w)) as [deck|]; [|wp_steps; split; [auto|discriminate]].
  destruct (List.filter _ _) as [|c cs] eqn:Hf;
    [wp_steps; split; [auto|discriminate]|].
  wp_step. eapply wp_mono; [apply random_choice_spec; discriminate|].
  intros card w' [Hin Hg]. wp_steps. split; [exact Hg|].
  intros card' [= <-]. rewrite <- Hf in Hin.
  apply filter_In in Hin as [_ Hin]. destruct (is_joker card); [discriminate|reflexivity].
Qed.

Lemma calibration_prompt_spec (label : string) (lines : list string) :
  forall w,
  wp (calibration_prompt label lines)
    (fun _ w' =>
       bookkeeping (game w) (game w') \/
       (same_table (game w) (game w') /\ same_play (game w) (game w') /\
        session_progress (_session (game w)) (_session (game w')) /\
        0 <= balance (_session (game w'))))
    (excused strict) True w.
Proof.
  induction lines as [|line lines IH]; intros w.
  { cbn [calibration_prompt]. wp_step. apply excused_result. auto. }
  cbn [calibration_prompt]. wp_steps.
  destruct (bool_decide _).
  { wp_steps. destruct (scanner w (scans_made w)) as [detected|].
    - destruct (detected_truthy detected);
        [wp_steps; left; apply bookkeeping_refl|].
      eapply wp_mono; [apply IH|]. cbn. auto.
    - wp_steps. left. apply bookkeeping_refl. }
  destruct (bool_decide _).
  { wp_steps. pose proof (pay_calibration_fee_spec (game w)) as H.
    destruct (pay_calibration_fee (game w)) as [g'|e].
    - wp_steps. right. exact H.
    - apply excused_range, H. }
  eapply wp_mono; [apply IH|]. cbn. auto.
Qed.

Lemma handle_calibration_spec (w : World) :
  wp _handle_calibration (fun _ w' => fee_work (game w) (game w'))
    (excused strict) True w.
Proof.
  assert (Hrefl : fee_work (game w) (game w)).
  { split; [apply same_table_refl|]. split; [apply same_play_refl|].
    split; [apply session_progress_refl|auto]. }
  unfold _handle_calibration. wp_steps.
  destruct (negb _); [wp_steps; exact Hrefl|].
  destruct (_deck (game w)) as [deck|] eqn:Hdeck; [|wp_steps; exact Hrefl].
  wp_step. eapply wp_mono; [apply calibration_target_card_spec|].
  intros [target|] w1 [Hg Hj]; [|wp_steps; rewrite Hg; exact Hrefl].
  destruct (card_label_for_scanner_returns target (Hj _ eq_refl))
    as [label Hlabel].
  wp_step. rewrite Hlabel. wp_steps.
  eapply wp_mono; [apply calibration_prompt_spec|].
  intros [] w2 H. rewrite Hg in H.
  destruct H as [(T & P & S & B & _)|(T & P & S & B)].
  - split; [exact T|]. split; [exact P|]. split; [exact S|].
    rewrite B. auto.
  - split; [exact T|]. split; [exact P|]. split; [exact S|auto].
Qed.
End Safety.

Lemma count_cards_permutation (p : Card -> bool) (l l' : list Card) :
  l ≡ₚ l' -> count_cards p l = count_cards p l'.
Proof.
  intros H. unfold count_cards. f_equal.
  induction H as [|x l l' _ IH|x y l|l l' l'' _ IH1 _ IH2]; cbn.
  - reflexivity.
  - destruct (p x); cbn; lia.
  - destruct (p x), (p y); reflexivity.
  - lia.
Qed.

Lemma deck_shuffle_permutation (d : Deck.t) (r : Random) :
  Deck._cards (Deck_shuffle d r).1 ≡ₚ Deck._cards d.
Proof.
  unfold Deck_shuffle, random_shuffle.
  destruct (shuffle_from_spec (length (Deck._cards d) - 1) (Deck._cards d) r)
    as (Hp & _).
  destruct (shuffle_from _ _ _) as [cards r']. exact Hp.
Qed.

Lemma standard_deck_counts (jokers : Z) :
  0 <= jokers ->
  count_cards (fun c => negb (is_joker c))
    (Deck._create_standard_deck true jokers) = 52 /\
  count_cards is_joker (Deck._create_standard_deck true jokers) = jokers /\
  Z.of_nat (length (Deck._create_standard_deck true jokers)) = 52 + jokers.
Proof.
  intros H. unfold Deck._create_standard_deck.
  set (base := flat_map _ Suit.members).
  rewrite !count_cards_app, length_app, repeat_length, count_jokers_repeat.
  assert (Hrep : forall n, count_cards (fun c => negb (is_joker c))
                     (repeat (mkCard Rank.JOKER Suit.JOKER) n) = 0).
  { induction n as [|n IH]; [reflexivity|exact IH]. }
  rewrite Hrep.
  change (count_cards (fun c => negb (is_joker c)) base) with 52.
  change (count_cards is_joker base) with 0.
  change (length base) with 52%nat. lia.
Qed.

Lemma new_deck_jokers_nonneg (s : SessionData) :
  0 <= _BASE_JOKERS * joker_multiplier (upgrades s).
Proof.
  unfold _BASE_JOKERS, joker_multiplier.
  apply Z.mul_nonneg_nonneg; [lia|]. apply Z.pow_nonneg. lia.
Qed.

Section SafetyOfDecks.
Variable strict : Prop.

Lemma prime_new_deck_spec (initial : bool) (w : World) :
  wp (_prime_new_deck initial)
    (fun _ w' =>
       same_play (game w) (game w') /\
       _current_card (game w') = _current_card (game w) /\
       in_sync (game w') /\
       non_jokers (game w') = 52 /\
       session_progress (_session (game w)) (_session (game w')) /\
       (0 <= balance (_session (game w)) ->
        0 <= balance (_session (game w'))))
    (excused strict) True w.
Proof.
  unfold _prime_new_deck. wp_step.
  set (w1 := if negb initial
             then mkWorld (_record_deck_completion (game w)) (inputs w)
                    (random w) (scanner w) (scans_made w)
             else w).
  assert (Hb : bookkeeping (game w) (game w1)).
  { subst w1. destruct initial; cbn [negb]; fields;
      [apply bookkeeping_refl|apply record_deck_completion_bookkeeping]. }
  apply (wp_mono _ _ _ (fun _ w' => w' = w1)).
  { subst w1. destruct initial; cbn [negb]; wp_steps; reflexivity. }
  intros [] ? ->. clearbody w1. wp_steps.
  unfold Deck__init__.
  pose proof (new_deck_jokers_nonneg (_session (game w1))) as Hj.
  destruct (Z.ltb_spec (_BASE_JOKERS *
                        joker_multiplier (upgrades (_session (game w1)))) 0);
    [lia|].
  wp_steps. unfold shuffle_deck. wp_steps.
  pose proof (standard_deck_counts _ Hj) as (Hcount & _).
  set (fresh := Deck.mk (Deck._create_standard_deck true _)).
  change (Deck._create_standard_deck true _) with (Deck._cards fresh)
    in Hcount.
  clearbody fresh.
  pose proof (deck_shuffle_permutation fresh (random w1)) as Hperm.
  destruct (Deck_shuffle fresh (random w1)) as [deck r']. cbn [fst] in Hperm.
  wp_steps.
  eapply wp_mono; [apply handle_calibration_spec|].
  intros [] w2 (T & P & S & B). fields.
  rewrite notify_watcher_counter in T, P, S, B. fields.
  destruct Hb as (Tb & Pb & Sb & Bb & _).
  destruct T as (Td & Tc & Tcur). fields.
  split; [exact (same_play_trans _ _ _ Pb P)|].
  split; [rewrite Tcur; apply Tb|].
  split; [intros d Hd; rewrite Td in Hd; injection Hd as <-; rewrite Tc;
          reflexivity|].
  split.
  { unfold non_jokers. rewrite Td. unfold Deck.remaining_cards.
    rewrite (count_cards_permutation _ _ _ Hperm). exact Hcount. }
  split; [exact (session_progress_trans _ _ _ Sb S)|].
  rewrite <- Bb. exact B.
Qed.

Lemma deal_starting_card_spec (fuel : nat) : forall w,
  wp (_deal_starting_card fuel)
    (fun card w' =>
       is_joker card = false /\
       deck_work (game w) (game w') /\
       _current_card (game w') = _current_card (game w) /\
       (51 <= non_jokers (game w') \/
        non_jokers (game w') + 1 = non_jokers (game w)))
    (excused strict) True w.
Proof.
  induction fuel as [|fuel IH]; intros w; [exact I|].
  cbn [_deal_starting_card]. wp_steps.
  apply (wp_mono _ _ _
           (fun _ w1 =>
              deck_work (game w) (game w1) /\
              _current_card (game w1) = _current_card (game w) /\
              deck_exhausted (game w1) = false /\
              (non_jokers (game w1) = 52 \/
               non_jokers (game w1) = non_jokers (game w)))).
  { destruct (deck_exhausted (game w)) eqn:Hex.
    - eapply wp_mono; [apply prime_new_deck_spec|].
      intros [] w1 (P & C & S & N & Sp & B).
      split; [|split; [exact C|split; [|left; exact N]]].
      + split; [exact P|]. split; [rewrite C; auto|]. split; [auto|].
        split; [exact Sp|exact B].
      + apply non_jokers_bounds. lia.
    - wp_steps. split; [apply deck_work_refl|]. split; [reflexivity|].
      split; [exact Hex|right; reflexivity]. }
  intros [] w1 (W1 & C1 & Hex & N1). wp_step.
  eapply wp_mono; [apply deal_card_spec; intros _; exact Hex|].
  intros card w2 (W2 & S2 & C2 & _ & N2).
  destruct (is_joker card) eqn:Hj; cbn [negb].
  - eapply wp_mono; [apply IH|].
    intros card' w3 (J & W3 & C3 & N3).
    split; [exact J|].
    split; [exact (deck_work_trans _ _ _ W1 (deck_work_trans _ _ _ W2 W3))|].
    split; [congruence|]. lia.
  - wp_steps. split; [exact Hj|].
    split; [exact (deck_work_trans _ _ _ W1 W2)|].
    split; [congruence|]. lia.
Qed.

Lemma check_deck_depleted_spec (fuel : nat) (next_card : option Card)
  (w : World) :
  wp (_check_deck_depleted fuel next_card)
    (fun _ w' =>
       deck_work (game w) (game w') /\
       (is_Some next_card -> is_Some (_current_card (game w'))))
    (excused strict) True w.
Proof.
  unfold _check_deck_depleted. wp_steps.
  destruct (deck_exhausted (game w)).
  - wp_step. eapply wp_mono; [apply prime_new_deck_spec|].
    intros [] w1 (P & C & S & N & Sp & B). wp_step.
    eapply wp_mono; [apply deal_starting_card_spec|].
    intros card w2 (J & W2 & C2 & N2). wp_steps.
    split; [|intros _; eexists; reflexivity].
    destruct W2 as (P2 & _ & S2 & Sp2 & B2).
    split; [exact (same_play_trans _ _ _ P P2)|].
    split; [intros _; eexists; reflexivity|].
    split; [intros _; apply in_sync_same_deck with (g := game w2);
            [reflexivity|reflexivity|auto]|].
    split; [exact (session_progress_trans _ _ _ Sp Sp2)|auto].
  - destruct next_card as [card|]; wp_steps.
    + split; [|intros _; eexists; reflexivity].
      split; [repeat split|]. split; [intros _; eexists; reflexivity|].
      split; [apply in_sync_same_deck; reflexivity|].
      split; [apply session_progress_refl|auto].
    + split; [apply deck_work_refl|]. intros [? ?]. discriminate.
Qed.
End SafetyOfDecks.

Lemma reachable_same_missions g g' :
  _pending_side_mission g' = _pending_side_mission g ->
  _active_side_mission g' = _active_side_mission g ->
  _rounds_completed g' = _rounds_completed g ->
  reachable g -> reachable g'.
Proof.
  intros Hp Ha Hr H. apply (reachable_step g g' H).
  apply step_other; assumption.
Qed.

Lemma apply_command_result_continue g r g1 :
  _apply_command_result g r = (g1, false) -> g1 = g.
Proof.
  unfold _apply_command_result.
  destruct (should_exit r); [discriminate|].
  destruct (next_state r); [discriminate|]. intros [= <-]. reflexivity.
Qed.

(** The bookkeeping at the end of a round: the win is paid out, the
    mission advances and the counters of the round are updated. *)
Lemma round_bookkeeping g (paid win : bool) prediction pt p pick :
  let g3 := if paid then pay_out prediction pt g else g in
  let g5 := _after_round (_update_side_mission_after_round g3 win).1
              win p pick in
  same_table g g5 /\ _state g5 = _state g /\
  (reachable g -> reachable g5) /\
  (win = false \/ 0 <= balance (_session g3) ->
   session_progress (_session g) (_session g5)).
Proof.
  cbn zeta.
  set (g3 := if paid then pay_out prediction pt g else g).
  assert (H3 : same_table g g3 /\ same_play g g3 /\
               session_progress (_session g) (_session g3)).
  { subst g3. destruct paid.
    - destruct (pay_out_spec prediction pt g) as (T & P & S & _). auto.
    - split; [apply same_table_refl|].
      split; [apply same_play_refl|apply session_progress_refl]. }
  destruct H3 as (T3 & P3 & S3).
  destruct (update_side_mission_session g3 win) as (T4 & St4 & S4).
  cbn zeta in T4, St4, S4.
  set (g4 := (_update_side_mission_after_round g3 win).1) in *.
  destruct (after_round_session g4 win p pick) as (T5 & St5 & S5 & _).
  cbn zeta in T5, St5, S5.
  split; [exact (same_table_trans _ _ _ T3 (same_table_trans _ _ _ T4 T5))|].
  split; [destruct P3 as (? & _); congruence|].
  split.
  - intros H. apply (reachable_same_play _ _ P3) in H.
    apply (reachable_step g3 _ H). subst g4. apply step_round.
  - intros H.
    exact (session_progress_trans _ _ _ S3
             (session_progress_trans _ _ _ (S4 H) S5)).
Qed.

Section SafetyOfRounds.
Variable strict : Prop.

Lemma prediction_prompt_spec (pt : PayoutTable) (lines : list string) :
  forall w,
  wp (prediction_prompt pt lines)
    (fun r w' =>
       match r with
       | Some prediction =>
           game w' = game w /\
           is_Some (_payout_for_prediction prediction pt)
       | None => exists st, game w' = with_state (game w) st
       end)
    (excused strict) True w.
Proof.
  induction lines as [|line lines IH]; intros w.
  { cbn [prediction_prompt]. wp_step. apply excused_result. auto. }
  cbn [prediction_prompt]. wp_steps.
  destruct (interpret line) as [command_result|].
  - wp_steps.
    destruct (apply_command_result_frame (game w) command_result)
      as [st Hst].
    destruct (_apply_command_result (game w) command_result)
      as [g1 interrupted] eqn:Hcmd.
    cbn [fst] in Hst. wp_steps. destruct interrupted.
    + wp_steps. exists st. exact Hst.
    + apply apply_command_result_continue in Hcmd. subst g1.
      eapply wp_mono; [apply IH|]. cbn. auto.
  - destruct (input_from_player line) as [prediction|e] eqn:Hparse.
    + destruct (_payout_for_prediction prediction pt) as [v|] eqn:Hv.
      * wp_steps. rewrite Hv. split; [reflexivity|eexists; reflexivity].
      * eapply wp_mono; [apply IH|]. cbn. auto.
    + rewrite (input_from_player_raises _ _ Hparse).
      eapply wp_mono; [apply IH|]. cbn. auto.
Qed.

Lemma prompt_prediction_spec (pt : PayoutTable) (w : World) :
  wp (_prompt_prediction pt)
    (fun r w' =>
       match r with
       | Some prediction =>
           game w' = game w /\
           is_Some (_payout_for_prediction prediction pt)
       | None => exists st, game w' = with_state (game w) st
       end)
    (excused strict) True w.
Proof.
  unfold _prompt_prediction. wp_steps. apply prediction_prompt_spec.
Qed.

Lemma after_round_run_spec (win : bool) (p : float) (w : World) :
  wp (after_round win p)
    (fun _ w' => exists pick, game w' = _after_round (game w) win p pick)
    (excused strict) True w.
Proof.
  unfold after_round, randbelow. wp_steps.
  destruct (_ && _); wp_steps; eexists; reflexivity.
Qed.
End SafetyOfRounds.

Section SafetyOfPlay.
Variable strict : Prop.

Lemma run_round_spec (fuel : nat) (w : World) :
  (strict -> deck_exhausted (game w) = false) ->
  wp (_run_round fuel)
    (fun _ w' =>
       carries (game w) (game w') /\
       (0 <= base_bet (_session (game w)) ->
        0 <= balance (_session (game w)) ->
        session_progress (_session (game w)) (_session (game w'))))
    (excused strict) True w.
Proof.
  intros Hpre. unfold _run_round. wp_steps.
  destruct (_current_card (game w)) as [current|] eqn:Hcur.
  2: { wp_steps. split; [apply carries_refl|].
       intros _ _. apply session_progress_refl. }
  wp_steps.
  destruct (win_odds _ _) as [odds|e] eqn:Hodds;
    [|apply excused_result; rewrite (win_odds_raises _ _ _ Hodds); auto].
  wp_steps.
  destruct (_build_payouts _ _) as [pt|e] eqn:Hpt;
    [|apply excused_range; exact (build_payouts_raises _ _ _ Hpt)].
  apply build_payouts_at_least_stake in Hpt as [Hstake Hleast].
  wp_step. eapply wp_mono; [apply prompt_prediction_spec|].
  intros [prediction|] w1 H.
  2: { destruct H as [st Hst]. wp_steps. rewrite Hst.
       split; [|intros _ _; apply session_progress_refl].
       split; [apply in_sync_same_deck; reflexivity|].
       split; [apply reachable_same_missions; reflexivity|].
       intros _ _. fields. rewrite Hcur. eexists; reflexivity. }
  destruct H as [Hg Hpay]. wp_steps. rewrite Hg.
  set (g1 := with_session (game w) _).
  eapply wp_mono; [apply deal_card_spec; intros Hs; exact (Hpre Hs)|].
  fields. intros next_card w2 (W2 & S2 & C2 & Ss2 & _).
  set (p := _win_probability odds prediction _).
  set (reverse := match _active_side_mission (game w) with
                  | Some m => is_reverse m | None => false end).
  assert (Hcur2 : is_Some (_current_card (game w2))).
  { rewrite C2. subst g1. fields. rewrite Hcur. eexists; reflexivity. }
  assert (Hreach2 : reachable (game w) -> reachable (game w2)).
  { intros H. apply (reachable_same_play g1 _ (proj1 W2)).
    revert H. apply reachable_same_missions; reflexivity. }
  assert (Hprog2 : session_progress (_session (game w)) (_session (game w2))).
  { rewrite Ss2. subst g1. unfold session_progress. fields.
    repeat split; auto; lia. }
  assert (Hbal2 : balance (_session (game w2)) =
                  balance (_session (game w)) - stake pt).
  { rewrite Ss2. reflexivity. }
  assert (Hpaid : 0 <= base_bet (_session (game w)) ->
                  0 <= balance (_session (game w)) ->
                  0 <= balance (_session (pay_out prediction pt (game w2)))).
  { intros Hb0 Hbal.
    destruct (pay_out_spec prediction pt (game w2)) as (_ & _ & _ & _ & Hp).
    pose proof (stake_amount_nonneg _ Hb0) as Hs0. rewrite <- Hstake in Hs0.
    specialize (Hp (Hleast prediction) Hs0 Hpay). lia. }
  clearbody g1 p reverse.
  destruct (is_joker next_card) eqn:Hjoker.
  - (* a joker: the round is won *)
    wp_steps.
    eapply wp_mono; [apply after_round_run_spec|].
    intros [] w5 [pick H5]. fields. wp_steps. rewrite H5.
    destruct (round_bookkeeping (game w2) true true prediction pt p pick)
      as (T5 & St5 & R5 & P5).
    cbv zeta in T5, St5, R5, P5. cbv iota in T5, St5, R5, P5.
    set (g5 := _after_round _ true p pick) in *. clearbody g5.
    destruct (check_final_extraction_frame g5)
      as (T6 & Ss6 & Pe6 & Ac6 & Ro6 & _).
    set (g6 := _check_final_extraction g5) in *. clearbody g6.
    eapply wp_mono; [apply deal_starting_card_spec|].
    fields. intros card w7 (_ & W7 & C7 & _). wp_steps.
    eapply wp_mono; [apply check_deck_depleted_spec|].
    fields. intros [] w9 (W9 & _).
    destruct W7 as (P7 & _ & I7 & Sp7 & _).
    destruct W9 as (P9 & Cur9 & I9 & Sp9 & _). fields.
    assert (I6 : in_sync g6).
    { apply (in_sync_same_table _ _ T6), (in_sync_same_table _ _ T5), S2. }
    split; [split; [|split]|].
    + intros _. apply I9. revert I6 I7. clear. intros I6 I7.
      apply in_sync_same_deck with (g := game w7); [reflexivity..|auto].
    + intros H. apply (reachable_same_play _ _ P9).
      apply (reachable_same_missions (game w7)); [reflexivity..|].
      apply (reachable_same_play _ _ P7).
      apply (reachable_same_missions g5); [assumption..|]. auto.
    + intros _ _. apply Cur9. eexists; reflexivity.
    + intros Hb0 Hbal.
      eapply session_progress_trans; [exact Hprog2|].
      eapply session_progress_trans; [apply P5; right; auto|].
      rewrite <- Ss6.
      eapply session_progress_trans; [exact Sp7|exact Sp9].
  - (* a card of a rank *)
    set (win := _is_prediction_correct current next_card prediction reverse).
    clearbody win. wp_step.
    apply (wp_mono _ _ _
             (fun _ w3 =>
                w3 = mkWorld (if win then pay_out prediction pt (game w2)
                              else game w2)
                       (inputs w2) (random w2) (scanner w2) (scans_made w2))).
    { destruct win; wp_steps; [reflexivity|]. destruct w2; reflexivity. }
    intros [] ? ->. wp_steps.
    eapply wp_mono; [apply after_round_run_spec|].
    intros [] w5 [pick H5]. fields. wp_steps. rewrite H5.
    destruct (round_bookkeeping (game w2) win win prediction pt p pick)
      as (T5 & St5 & R5 & P5).
    cbv zeta in T5, St5, R5, P5.
    assert (P5' : 0 <= base_bet (_session (game w)) ->
                  0 <= balance (_session (game w)) ->
                  session_progress (_session (game w2))
                    (_session (_after_round
                       (_update_side_mission_after_round
                          (if win then pay_out prediction pt (game w2)
                           else game w2) win).1 win p pick))).
    { intros Hb0 Hbal. apply P5. destruct win; [right|left; reflexivity].
      auto. }
    clear P5 Hpaid.
    set (g5 := _after_round _ win p pick) in *. clearbody g5.
    assert (I5 : in_sync g5) by apply (in_sync_same_table _ _ T5), S2.
    assert (Cur5 : is_Some (_current_card g5)).
    { destruct T5 as (_ & _ & ->). exact Hcur2. }
    destruct (balance (_session g5) <=? 0).
    + wp_steps. rewrite ?H5. split; [split; [|split]|].
      * intros _. revert I5. apply in_sync_same_deck; reflexivity.
      * intros H. apply (reachable_same_missions g5); [reflexivity..|auto].
      * intros _ _. exact Cur5.
      * intros Hb0 Hbal. fields.
        exact (session_progress_trans _ _ _ Hprog2 (P5' Hb0 Hbal)).
    + wp_steps. rewrite ?H5.
      destruct (check_final_extraction_frame g5)
        as (T6 & Ss6 & Pe6 & Ac6 & Ro6 & _).
      set (g6 := _check_final_extraction g5) in *. clearbody g6.
      eapply wp_mono; [apply check_deck_depleted_spec|].
      fields. intros [] w9 (W9 & Cur9).
      destruct W9 as (P9 & _ & I9 & Sp9 & _).
      split; [split; [|split]|].
      * intros _. apply I9, (in_sync_same_table _ _ T6), I5.
      * intros H. apply (reachable_same_play _ _ P9).
        apply (reachable_same_missions g5); [assumption..|auto].
      * intros _ _. apply Cur9. eexists; reflexivity.
      * intros Hb0 Hbal.
        eapply session_progress_trans; [exact Hprog2|].
        eapply session_progress_trans; [exact (P5' Hb0 Hbal)|].
        rewrite <- Ss6. exact Sp9.
Qed.
End SafetyOfPlay.

Lemma state_eqb_eq (a b : GameState) : state_eqb a b = true <-> a = b.
Proof. destruct a, b; cbn; split; congruence. Qed.

Lemma in_sync_terminated g : in_sync g -> in_sync (with_state g TERMINATED).
Proof. apply in_sync_same_deck; reflexivity. Qed.

Section SafetyOfDealing.
Variable strict : Prop.

Lemma offer_side_mission_run_spec (w : World) :
  is_Some (_pending_side_mission (game w)) ->
  _active_side_mission (game w) = None ->
  wp offer_side_mission
    (fun _ w' =>
       same_table (game w) (game w') /\
       step (game w) (game w') /\
       session_progress (_session (game w)) (_session (game w')) /\
       (0 <= balance (_session (game w)) ->
        0 <= balance (_session (game w'))))
    (excused strict) True w.
Proof.
  intros Hp Ha. unfold offer_side_mission. wp_steps.
  pose proof (offer_side_mission_session (game w) (inputs w)) as H.
  destruct (_offer_side_mission (game w) (inputs w)) as [[g' rest]|e] eqn:Ho;
    [|apply excused_result, H].
  wp_steps. destruct H as (T & S & B).
  split; [exact T|]. split; [|auto].
  exact (step_offer _ _ _ _ Hp Ha Ho).
Qed.

(** The game past the wager guards of [_handle_dealing]. *)
Lemma handle_dealing_spec (fuel rounds : nat) : forall w,
  (strict -> ready (game w)) ->
  wp (_handle_dealing fuel rounds)
    (fun _ w' =>
       carries (game w) (game w') /\
       (0 <= base_bet (_session (game w)) ->
        session_progress (_session (game w)) (_session (game w'))))
    (excused strict) True w.
Proof.
  induction rounds as [|rounds IH]; intros w Hready; [exact I|].
  cbn [_handle_dealing]. wp_steps.
  destruct (state_eqb (_state (game w)) DEALING) eqn:Hstate; cbn [negb].
  2: { wp_steps. split; [apply carries_refl|].
       intros _. apply session_progress_refl. }
  apply state_eqb_eq in Hstate.
  assert (Hend : carries (game w) (with_state (game w) TERMINATED) /\
                 (0 <= base_bet (_session (game w)) ->
                  session_progress (_session (game w))
                    (_session (with_state (game w) TERMINATED)))).
  { split; [|intros _; apply session_progress_refl].
    split; [apply in_sync_terminated|].
    split; [apply reachable_same_missions; reflexivity|].
    intros H _. apply H. rewrite Hstate. discriminate. }
  destruct (Z.leb_spec (balance (_session (game w))) 0) as [|Hbal];
    [wp_steps; exact Hend|].
  destruct (_ <? _); [wp_steps; exact Hend|]. clear Hend.
  lazymatch goal with
  | |- wp (if _ then _ else ?p) _ _ _ _ => set (play := p)
  end.
  assert (Hplay : forall w1,
            _state (game w1) = DEALING ->
            0 <= balance (_session (game w1)) ->
            carries (game w) (game w1) ->
            session_progress (_session (game w)) (_session (game w1)) ->
            wp play
              (fun _ w' =>
                 carries (game w) (game w') /\
                 (0 <= base_bet (_session (game w)) ->
                  session_progress (_session (game w)) (_session (game w'))))
              (excused strict) True w1).
  { clear Hbal. intros w1 Hst1 Hbal1 C1 P1. subst play. wp_steps.
    apply (wp_mono _ _ _
             (fun _ w2 =>
                deck_work (game w1) (game w2) /\
                deck_exhausted (game w2) = false)).
    { destruct (deck_exhausted (game w1)) eqn:Hex.
      - wp_step. eapply wp_mono; [apply prime_new_deck_spec|].
        intros [] wa (Pa & Ca & Sa & Na & Spa & Ba). wp_step.
        eapply wp_mono; [apply deal_starting_card_spec|].
        intros card wb (_ & Wb & Cb & Nb). wp_steps.
        destruct Wb as (Pb & _ & Ib & Spb & Bb).
        split.
        + split; [exact (same_play_trans _ _ _ Pa Pb)|].
          split; [intros _; eexists; reflexivity|].
          split; [intros _; apply in_sync_same_deck with (g := game wb);
                  [reflexivity..|auto]|].
          split; [exact (session_progress_trans _ _ _ Spa Spb)|auto].
        + apply (non_jokers_bounds (with_current_card (game wb) (Some card))).
          change (non_jokers (with_current_card (game wb) (Some card)))
            with (non_jokers (game wb)). lia.
      - wp_steps. split; [apply deck_work_refl|exact Hex]. }
    intros [] w2 (W2 & Hex2). wp_steps.
    apply (wp_mono _ _ _
             (fun _ w3 =>
                deck_work (game w1) (game w3) /\
                (strict -> deck_exhausted (game w3) = false))).
    { destruct (_current_card (game w2)) as [c|] eqn:Hc2.
      - wp_steps. auto.
      - wp_step. eapply wp_mono; [apply deal_starting_card_spec|].
        intros card wb (_ & Wb & Cb & Nb). wp_steps. split.
        + apply (deck_work_trans _ _ _ W2).
          destruct Wb as (Pb & _ & Ib & Spb & Bb).
          split; [exact Pb|].
          split; [intros _; eexists; reflexivity|].
          split; [intros H; apply in_sync_same_deck with (g := game wb);
                  [reflexivity..|auto]|].
          split; [exact Spb|auto].
        + intros Hs. exfalso.
          destruct C1 as (_ & _ & R1). specialize (R1 (Hready Hs)).
          destruct W2 as (_ & Cur2 & _).
          assert (Hsome : is_Some (_current_card (game w1)))
            by (apply R1; rewrite Hst1; discriminate).
          apply Cur2 in Hsome. rewrite Hc2 in Hsome.
          destruct Hsome as [? ?]. discriminate. }
    intros [] w3 (W3 & Hex3). wp_step.
    eapply wp_mono; [apply run_round_spec, Hex3|].
    intros [] w4 (C4 & P4).
    pose proof (deck_work_carries _ _ W3) as C3.
    pose proof (carries_trans _ _ _ C1 (carries_trans _ _ _ C3 C4)) as C14.
    eapply wp_mono;
      [apply IH; intros Hs; apply C14, Hready, Hs|].
    intros [] w5 (C5 & P5). split; [exact (carries_trans _ _ _ C14 C5)|].
    intros Hb0. destruct W3 as (_ & _ & _ & Sp3 & B3).
    assert (Hb3 : base_bet (_session (game w3)) = base_bet (_session (game w)))
      by (destruct P1 as (_ & _ & _ & E1 & _),
                   Sp3 as (_ & _ & _ & E3 & _); congruence).
    assert (P14 : session_progress (_session (game w)) (_session (game w4))).
    { apply (session_progress_trans _ _ _ P1).
      apply (session_progress_trans _ _ _ Sp3).
      apply P4; [rewrite Hb3; exact Hb0|auto]. }
    apply (session_progress_trans _ _ _ P14). apply P5.
    destruct P14 as (_ & _ & _ & -> & _). exact Hb0. }
  destruct (bool_decide_reflect (is_Some (_pending_side_mission (game w))))
    as [Hp|_]; cbn [andb].
  2: { apply Hplay; [exact Hstate|lia|apply carries_refl
                    |apply session_progress_refl]. }
  destruct (_active_side_mission (game w)) as [m|] eqn:Ha.
  { rewrite bool_decide_eq_true_2 by (eexists; reflexivity). cbn [negb].
    apply Hplay; [exact Hstate|lia|apply carries_refl
                 |apply session_progress_refl]. }
  rewrite bool_decide_eq_false_2 by (intros [? ?]; discriminate).
  cbn [negb]. wp_step.
  eapply wp_mono; [apply (offer_side_mission_run_spec w Hp Ha)|].
  intros [] w1 (T1 & Step1 & P1 & B1). wp_steps.
  assert (C1 : carries (game w) (game w1)).
  { split; [apply (in_sync_same_table _ _ T1)|].
    split; [intros H; exact (reachable_step _ _ H Step1)|].
    intros H _. destruct T1 as (_ & _ & ->). apply H.
    rewrite Hstate. discriminate. }
  destruct (state_eqb (_state (game w1)) DEALING) eqn:Hstate1; cbn [negb].
  - apply state_eqb_eq in Hstate1.
    apply Hplay; [exact Hstate1|apply B1; lia|exact C1|exact P1].
  - wp_steps. split; [exact C1|intros _; exact P1].
Qed.
End SafetyOfDealing.

(** ** The menus *)

Lemma purchases_progress (s s' : SessionData) :
  purchases s s' -> session_progress s s'.
Proof.
  unfold purchases, session_progress.
  intros (_ & _ & A3 & A4 & A5 & A6 & A7 & A8 & A9 & A10 & A11 & _ & _ & A14
          & _).
  repeat split; try lia; auto. intros key. unfold achievement_unlocked.
  rewrite A14. auto.
Qed.

Lemma shop_open_raises (s : SessionData) (lines : list string) (e : exn) :
  Shop_open s lines = Raises e -> e = EOFError.
Proof.
  unfold Shop_open. generalize (set_visited_shop s true). clear s.
  induction lines as [|line lines IH]; intros s; cbn [shop_loop];
    [intros [= <-]; reflexivity|].
  repeat (destruct (bool_decide _); [try discriminate; apply IH|]).
  apply IH.
Qed.

(** The settings menu changes the two switches and nothing else. *)
Lemma settings_loop_spec (lines : list string) : forall s,
  match settings_loop s lines with
  | Returns (s', rest) =>
      balance s' = balance s /\ total_credits s' = total_credits s /\
      base_bet s' = base_bet s /\ decks_completed s' = decks_completed s /\
      win_streak s' = win_streak s /\ max_win_streak s' = max_win_streak s /\
      upgrades s' = upgrades s /\ achievements s' = achievements s /\
      visited_shop s' = visited_shop s /\
      visited_settings s' = visited_settings s /\
      exists read, lines = read ++ rest /\ read <> []
  | Raises e => e = EOFError
  end.
Proof.
  induction lines as [|line lines IH]; intros s; cbn [settings_loop];
    [reflexivity|].
  assert (Hstep : forall s1,
            balance s1 = balance s -> total_credits s1 = total_credits s ->
            base_bet s1 = base_bet s ->
            decks_completed s1 = decks_completed s ->
            win_streak s1 = win_streak s ->
            max_win_streak s1 = max_win_streak s ->
            upgrades s1 = upgrades s -> achievements s1 = achievements s ->
            visited_shop s1 = visited_shop s ->
            visited_settings s1 = visited_settings s ->
            match settings_loop s1 lines with
            | Returns (s', rest) =>
                balance s' = balance s /\ total_credits s' = total_credits s /\
                base_bet s' = base_bet s /\
                decks_completed s' = decks_completed s /\
                win_streak s' = win_streak s /\
                max_win_streak s' = max_win_streak s /\
                upgrades s' = upgrades s /\ achievements s' = achievements s /\
                visited_shop s' = visited_shop s /\
                visited_settings s' = visited_settings s /\
                exists read, line :: lines = read ++ rest /\ read <> []
            | Raises e => e = EOFError
            end).
  { intros s1 E1 E2 E3 E4 E5 E6 E7 E8 E9 E10. specialize (IH s1).
    destruct (settings_loop s1 lines) as [[s' rest]|e]; [|exact IH].
    destruct IH as (I1 & I2 & I3 & I4 & I5 & I6 & I7 & I8 & I9 & I10
                    & read & -> & _).
    repeat split; try congruence.
    exists (line :: read). split; [reflexivity|discriminate]. }
  destruct (bool_decide _).
  { repeat split. exists [line]. split; [reflexivity|discriminate]. }
  repeat (destruct (String.eqb _ _); [apply Hstep; reflexivity|]).
  apply Hstep; reflexivity.
Qed.

Lemma settings_open_progress (s : SessionData) (lines : list string) :
  match SettingsMenu_open s lines with
  | Returns (s', rest) =>
      session_progress s s' /\ balance s' = balance s
  | Raises e => e = EOFError
  end.
Proof.
  unfold SettingsMenu_open.
  pose proof (settings_loop_spec lines (set_visited_settings s true)) as H.
  destruct (settings_loop _ lines) as [[s' rest]|e]; [|exact H].
  fields. destruct H as (I1 & I2 & I3 & I4 & I5 & I6 & I7 & I8 & _).
  split; [|exact I1]. unfold session_progress, achievement_unlocked.
  rewrite I2, I3, I4, I6, I7, I8. repeat split; auto; lia.
Qed.

Section SafetyOfRun.
Variable strict : Prop.

Lemma handle_startup_spec (fuel : nat) (w : World) :
  wp (_handle_startup fuel)
    (fun _ w' =>
       (in_sync (game w) -> in_sync (game w')) /\
       (reachable (game w) -> reachable (game w')) /\
       ready (game w') /\
       session_progress (_session (game w)) (_session (game w')))
    (excused strict) True w.
Proof.
  unfold _handle_startup. wp_steps.
  pose proof (check_shop_achievement_bookkeeping (game w)) as B1.
  set (g1 := _check_shop_achievement (game w)) in *.
  pose proof (check_credit_achievements_bookkeeping g1) as B2.
  set (g2 := _check_credit_achievements g1) in *.
  pose proof (bookkeeping_trans _ _ _ B1 B2) as (T & P & S & _).
  clearbody g2. clear B1 B2. clearbody g1.
  eapply wp_mono; [apply prime_new_deck_spec|].
  fields. intros [] w3 (P3 & C3 & I3 & _ & S3 & _). wp_step.
  eapply wp_mono; [apply deal_starting_card_spec|].
  intros card w4 (_ & W4 & _). wp_steps.
  destruct W4 as (P4 & _ & I4 & S4 & _).
  split; [intros _; apply in_sync_same_deck with (g := game w4);
          [reflexivity..|auto]|].
  split.
  - intros H. apply (reachable_same_missions (game w4)); [reflexivity..|].
    apply (reachable_same_play _ _ P4), (reachable_same_play _ _ P3).
    apply (reachable_same_play _ _ P), H.
  - split; [intros _; eexists; reflexivity|].
    exact (session_progress_trans _ _ _ S
             (session_progress_trans _ _ _ S3 S4)).
Qed.

Lemma open_menu_spec
  (menu : SessionData -> list string -> result (SessionData * list string))
  (w : World) :
  (forall s lines,
     match menu s lines with
     | Returns (s', rest) => session_progress s s'
     | Raises e => e = EOFError
     end) ->
  wp (open_menu menu)
    (fun _ w' =>
       exists s', game w' = with_session (game w) s' /\
                  session_progress (_session (game w)) s')
    (excused strict) True w.
Proof.
  intros Hmenu. unfold open_menu. wp_steps.
  specialize (Hmenu (_session (game w)) (inputs w)).
  destruct (menu _ _) as [[s' rest]|e];
    [|apply excused_result; auto].
  wp_steps. eauto.
Qed.

Lemma run_spec (fuel turns : nat) : forall w,
  (strict -> ready (game w)) ->
  wp (run fuel turns)
    (fun _ w' =>
       carries (game w) (game w') /\
       (0 <= base_bet (_session (game w)) ->
        session_progress (_session (game w)) (_session (game w'))) /\
       _state (game w') = TERMINATED)
    (excused strict) True w.
Proof.
  induction turns as [|turns IH]; intros w Hready; [exact I|].
  cbn [run]. wp_steps.
  assert (Hnext : forall w1,
            carries (game w) (game w1) ->
            (0 <= base_bet (_session (game w)) ->
             session_progress (_session (game w)) (_session (game w1))) ->
            wp (run fuel turns)
              (fun _ w' =>
                 carries (game w) (game w') /\
                 (0 <= base_bet (_session (game w)) ->
                  session_progress (_session (game w)) (_session (game w'))) /\
                 _state (game w') = TERMINATED)
              (excused strict) True w1).
  { intros w1 C1 P1.
    eapply wp_mono; [apply IH; intros Hs; apply C1, Hready, Hs|].
    intros [] w2 (C2 & P2 & T2).
    split; [exact (carries_trans _ _ _ C1 C2)|]. split; [|exact T2].
    intros Hb0. specialize (P1 Hb0).
    apply (session_progress_trans _ _ _ P1). apply P2.
    destruct P1 as (_ & _ & _ & -> & _). exact Hb0. }
  assert (Hmenu : forall menu,
            (forall s lines,
               match menu s lines with
               | Returns (s', rest) => session_progress s s'
               | Raises e => e = EOFError
               end) ->
            _state (game w) <> STARTUP ->
            forall (f : InfiniteGame -> InfiniteGame),
            (forall g, bookkeeping g (f g)) ->
            wp (open_menu menu;; modify_game f;;
                modify_game (fun self => with_state self DEALING);;
                run fuel turns)
              (fun _ w' =>
                 carries (game w) (game w') /\
                 (0 <= base_bet (_session (game w)) ->
                  session_progress (_session (game w)) (_session (game w'))) /\
                 _state (game w') = TERMINATED)
              (excused strict) True w).
  { intros menu Hm Hst f Hf. wp_step.
    eapply wp_mono; [apply open_menu_spec, Hm|].
    intros [] w1 (s' & Hg & Hs). wp_steps. rewrite Hg.
    destruct (Hf (with_session (game w) s')) as (T & P & S & _).
    set (g2 := f (with_session (game w) s')) in *. clearbody g2.
    destruct T as (Td & Tc & Tcur), P as (_ & Pp & Pa & Pr). fields.
    apply Hnext.
    - split; [intros H; apply in_sync_same_deck with (g := game w);
              [assumption..|exact H]|].
      split; [apply reachable_same_missions; assumption|].
      intros H _. fields. rewrite Tcur. apply H, Hst.
    - intros _. fields. exact (session_progress_trans _ _ _ Hs S). }
  destruct (_state (game w)) eqn:Hstate.
  - (* STARTUP *)
    wp_step. eapply wp_mono; [apply handle_startup_spec|].
    intros [] w1 (I1 & R1 & Rd1 & P1). apply Hnext; [|auto].
    split; [exact I1|]. split; [exact R1|auto].
  - (* DEALING *)
    wp_step. eapply wp_mono; [apply handle_dealing_spec, Hready|].
    intros [] w1 (C1 & P1). apply Hnext; assumption.
  - (* SHOPPING *)
    assert (H : forall s lines,
              match Shop_open s lines with
              | Returns (s', rest) => session_progress s s'
              | Raises e => e = EOFError
              end).
    { intros s lines. destruct (Shop_open s lines) as [[s' rest]|e] eqn:Ho.
      - unfold Shop_open in Ho. apply shop_loop_spec in Ho as (Hp & _).
        apply purchases_progress.
        exact (purchases_trans _ _ _ (purchases_visited s true) Hp).
      - exact (shop_open_raises _ _ _ Ho). }
    apply (Hmenu Shop_open H); [congruence|].
    apply check_shop_achievement_bookkeeping.
  - (* SETTINGS *)
    assert (H : forall s lines,
              match SettingsMenu_open s lines with
              | Returns (s', rest) => session_progress s s'
              | Raises e => e = EOFError
              end).
    { intros s lines. pose proof (settings_open_progress s lines) as H.
      destruct (SettingsMenu_open s lines) as [[s' rest]|e]; tauto. }
    pose proof (Hmenu SettingsMenu_open H) as Hm.
    specialize (Hm ltac:(congruence) (fun g => g) bookkeeping_refl).
    revert Hm. unfold wp, mbind, run_bind, modify_game, put_game.
    destruct (open_menu SettingsMenu_open w) as [[[] w1]| |]; auto.
  - (* ACHIEVEMENTS *)
    assert (H : forall s lines,
              match AchievementsMenu_open s lines with
              | Returns (s', rest) => session_progress s s'
              | Raises e => e = EOFError
              end).
    { intros s [|line lines]; cbn; [reflexivity|apply session_progress_refl]. }
    pose proof (Hmenu AchievementsMenu_open H) as Hm.
    specialize (Hm ltac:(congruence) (fun g => g) bookkeeping_refl).
    revert Hm. unfold wp, mbind, run_bind, modify_game, put_game.
    destruct (open_menu AchievementsMenu_open w) as [[[] w1]| |]; auto.
  - (* TERMINATED *)
    wp_steps. split; [apply carries_refl|].
    split; [intros _; apply session_progress_refl|exact Hstate].
Qed.
End SafetyOfRun.

(** ** Running out of iterations *)

(** A function of the game that leaves the upgrades, the deck, the state
    and the current card alone. *)
Ltac solve_frame :=
  repeat first
    [ reflexivity
    | progress fields
    | match goal with
      | |- context [if ?b then _ else _] => destruct b
      end ].

Lemma unlock_achievement_upgrades g key :
  upgrades (_session (_unlock_achievement g key)) = upgrades (_session g).
Proof. unfold _unlock_achievement. solve_frame. Qed.

Lemma check_credit_achievements_upgrades g :
  upgrades (_session (_check_credit_achievements g)) = upgrades (_session g).
Proof.
  unfold _check_credit_achievements.
  repeat match goal with
  | |- context [if ?b then _ else _] => destruct b
  end; rewrite ?unlock_achievement_upgrades; reflexivity.
Qed.

Lemma check_shop_achievement_upgrades g :
  upgrades (_session (_check_shop_achievement g)) = upgrades (_session g).
Proof.
  unfold _check_shop_achievement.
  repeat match goal with
  | |- context [if ?b then _ else _] => destruct b
  end; rewrite ?unlock_achievement_upgrades; reflexivity.
Qed.

Lemma record_deck_completion_upgrades g :
  upgrades (_session (_record_deck_completion g)) = upgrades (_session g).
Proof.
  unfold _record_deck_completion.
  repeat match goal with
  | |- context [if ?b then _ else _] => destruct b
  end; rewrite ?unlock_achievement_upgrades; reflexivity.
Qed.

Lemma pay_out_upgrades prediction pt g :
  upgrades (_session (pay_out prediction pt g)) = upgrades (_session g).
Proof.
  unfold pay_out, _apply_win.
  destruct (_payout_for_prediction prediction pt); solve_frame.
Qed.

Lemma update_side_mission_upgrades g win :
  upgrades (_session (_update_side_mission_after_round g win).1) =
    upgrades (_session g).
Proof.
  unfold _update_side_mission_after_round.
  destruct (_active_side_mission g) as [mission|]; [|reflexivity].
  match goal with
  | |- context [let '(self, mission) := ?branch in _] =>
      assert (Hbranch : upgrades (_session branch.1) = upgrades (_session g));
        [|destruct branch as [g0 m0]]
  end.
  { destruct (kind (definition mission)), win;
      repeat match goal with
      | |- context [if ?b then (_, _) else (_, _)] => destruct b
      end; reflexivity. }
  cbn [fst] in Hbranch.
  destruct (negb (active m0)); cbn [fst]; [|exact Hbranch].
  destruct (completed m0); fields;
    rewrite ?unlock_achievement_upgrades; exact Hbranch.
Qed.

Lemma maybe_schedule_session g pick :
  _session (_maybe_schedule_side_mission g pick) = _session g.
Proof. unfold _maybe_schedule_side_mission. solve_frame. Qed.

Lemma after_round_upgrades g win p pick :
  upgrades (_session (_after_round g win p pick)) = upgrades (_session g).
Proof.
  unfold _after_round.
  rewrite maybe_schedule_session, check_credit_achievements_upgrades.
  destruct win; [|reflexivity].
  repeat match goal with
  | |- context [if ?b then _ else _] => destruct b
  end; rewrite ?unlock_achievement_upgrades; reflexivity.
Qed.

Lemma offer_prompt_effort d lines : forall g g' rest,
  offer_prompt g d lines = Returns (g', rest) ->
  upgrades (_session g') = upgrades (_session g) /\
  (length rest < length lines)%nat /\
  (_state g <> STARTUP -> _state g' <> STARTUP).
Proof.
  induction lines as [|line lines IH]; intros g g' rest H;
    [discriminate H|].
  cbn [offer_prompt] in H. cbn [length].
  destruct (interpret _) as [command_result|] eqn:Hint.
  - assert (Hst : _state g <> STARTUP ->
                  _state (_apply_command_result g command_result).1
                    <> STARTUP).
    { unfold interpret in Hint.
      destruct (commands !! _) as [command|]; [|discriminate].
      injection Hint as <-. unfold _apply_command_result.
      destruct command; cbn; auto; discriminate. }
    assert (Hup : upgrades (_session
                     (_apply_command_result g command_result).1) =
                  upgrades (_session g)).
    { unfold _apply_command_result.
      destruct (should_exit _); [reflexivity|].
      destruct (next_state _); reflexivity. }
    destruct (_apply_command_result g command_result) as [g1 interrupted].
    cbn [fst] in Hst, Hup. destruct interrupted.
    + injection H as <- <-. fields. split; [exact Hup|]. split; [lia|auto].
    + apply IH in H as (U & L & S). split; [congruence|]. split; [lia|auto].
  - destruct (bool_decide _).
    { injection H as <- <-. fields. split; [reflexivity|]. split; [lia|auto]. }
    destruct (bool_decide _).
    + apply bind_returns_inv in H as (g1 & Hskip & H).
      injection H as <- <-.
      unfold _apply_side_mission_skip in Hskip.
      destruct (skip_penalty_ratio d).
      * apply bind_returns_inv in Hskip as (b & _ & Hskip).
        apply bind_returns_inv in Hskip as (r & _ & Hskip).
        injection Hskip as <-. fields.
        split; [reflexivity|]. split; [lia|auto].
      * injection Hskip as <-. split; [reflexivity|]. split; [lia|auto].
    + apply IH in H as (U & L & S). split; [congruence|]. split; [lia|auto].
Qed.

Lemma offer_side_mission_effort g lines g' rest :
  _offer_side_mission g lines = Returns (g', rest) ->
  upgrades (_session g') = upgrades (_session g) /\
  (length rest <= length lines)%nat /\
  (_state g <> STARTUP -> _state g' <> STARTUP) /\
  (_state g' = _state g \/ (length rest < length lines)%nat).
Proof.
  unfold _offer_side_mission.
  destruct (_pending_side_mission g) as [d|].
  2: { intros [= <- <-]. split; [reflexivity|]. split; [lia|auto]. }
  destruct (negb _).
  { intros [= <- <-]. split; [reflexivity|]. split; [lia|auto]. }
  intros H. apply offer_prompt_effort in H as (U & L & S). fields.
  split; [exact U|]. split; [lia|]. split; [exact S|right; exact L].
Qed.

Lemma deck_effort_refl w : deck_effort w w.
Proof. repeat split; auto; lia. Qed.

Lemma jokers_per_deck_upgrades g g' :
  upgrades (_session g') = upgrades (_session g) ->
  jokers_per_deck g' = jokers_per_deck g.
Proof. unfold jokers_per_deck. intros ->. reflexivity. Qed.

Lemma jokers_per_deck_nonneg g : 0 <= jokers_per_deck g.
Proof. apply new_deck_jokers_nonneg. Qed.

Lemma deck_effort_trans w1 w2 w3 :
  deck_effort w1 w2 -> deck_effort w2 w3 -> deck_effort w1 w3.
Proof.
  intros (U1 & S1 & C1 & D1 & L1) (U2 & S2 & C2 & D2 & L2).
  pose proof (jokers_per_deck_upgrades _ _ U1) as J.
  repeat split; try congruence; auto; lia.
Qed.

Lemma count_jokers_snoc (cards : list Card) (card : Card) :
  count_cards is_joker (cards ++ [card]) =
    count_cards is_joker cards + (if is_joker card then 1 else 0).
Proof.
  unfold count_cards. rewrite List.filter_app, length_app.
  cbn [List.filter]. destruct (is_joker card); cbn [length]; lia.
Qed.

Lemma deck_counts g :
  0 <= non_jokers g /\ 0 <= jokers_left g /\
  non_jokers g + jokers_left g = deck_length g.
Proof.
  unfold non_jokers, jokers_left, deck_length, Deck.len, Deck.remaining_cards.
  destruct (_deck g) as [[cards]|]; [|lia]. cbn [Deck._cards].
  unfold count_cards.
  induction cards as [|c cards IH]; cbn [List.filter length]; [lia|].
  destruct (is_joker c); cbn [negb length]; lia.
Qed.

Lemma deals_to_start_bound g :
  deals_to_start g <= deck_length g + jokers_per_deck g + 1.
Proof.
  unfold deals_to_start. pose proof (deck_counts g).
  pose proof (jokers_per_deck_nonneg g).
  destruct (1 <=? non_jokers g); lia.
Qed.

Lemma deck_exhausted_length g :
  deck_exhausted g = true <-> deck_length g = 0.
Proof.
  unfold deck_exhausted, deck_length.
  destruct (_deck g); [apply Z.eqb_eq|tauto].
Qed.

Ltac ends_steps :=
  repeat first
    [ wp_step; cbn [game inputs random scanner scans_made]
    | lazymatch goal with
      | |- True => exact I
      end ].

Lemma deal_card_ends (w : World) :
  wp _deal_card
    (fun card w' =>
       deck_effort w w' /\
       _current_card (game w') = _current_card (game w) /\
       inputs w' = inputs w /\
       deck_length (game w') = deck_length (game w) - 1 /\
       non_jokers (game w') =
         non_jokers (game w) - (if is_joker card then 0 else 1) /\
       jokers_left (game w') =
         jokers_left (game w) - (if is_joker card then 1 else 0))
    (fun _ : raised => True) False w.
Proof.
  unfold _deal_card. ends_steps.
  destruct (_deck (game w)) as [[cards]|] eqn:Hdeck; [|exact I].
  destruct cards as [|card cards _] using rev_ind; [exact I|].
  rewrite deal_snoc. ends_steps.
  rewrite notify_watcher_counter. fields.
  assert (Hlen : deck_length
                   (with_ai_counter (with_deck (game w) (Some (Deck.mk cards)))
                      (on_deck_updated AICardCounter_init cards)) =
                 deck_length (game w) - 1).
  { unfold deck_length. fields. rewrite Hdeck. unfold Deck.len.
    cbn [Deck._cards]. rewrite length_app. cbn [length]. lia. }
  change (Deck.remaining_cards (Deck.mk cards)) with cards.
  split; [|split; [reflexivity|split; [reflexivity|split; [exact Hlen|]]]].
  - split; [reflexivity|]. split; [reflexivity|]. split; [auto|]. fields.
    split; [|fields; lia]. rewrite Hlen. lia.
  - unfold non_jokers, jokers_left. fields. rewrite Hdeck.
    unfold Deck.remaining_cards. cbn [Deck._cards].
    rewrite count_non_jokers_snoc, count_jokers_snoc. split; lia.
Qed.

Lemma pay_calibration_fee_frame g g' :
  pay_calibration_fee g = Returns g' ->
  same_table g g' /\ same_play g g' /\
  upgrades (_session g') = upgrades (_session g).
Proof.
  unfold pay_calibration_fee. intros H.
  apply bind_returns_inv in H as (b & _ & H).
  apply bind_returns_inv in H as (r & _ & H).
  injection H as <-. repeat split.
Qed.

(** What the calibration leaves alone. *)
Lemma calibration_prompt_ends (label : string) (lines : list string) :
  forall w,
  (length lines <= length (inputs w))%nat ->
  wp (calibration_prompt label lines)
    (fun _ w' =>
       same_table (game w) (game w') /\ same_play (game w) (game w') /\
       upgrades (_session (game w')) = upgrades (_session (game w)) /\
       (length (inputs w') <= length (inputs w))%nat)
    (fun _ : raised => True) False w.
Proof.
  induction lines as [|line lines IH]; intros w Hlen.
  { cbn [calibration_prompt]. ends_steps. }
  cbn [calibration_prompt length] in *. ends_steps.
  assert (Hsame :
            same_table (game w) (game w) /\ same_play (game w) (game w) /\
            upgrades (_session (game w)) = upgrades (_session (game w)) /\
            (length lines <= length (inputs w))%nat).
  { split; [apply same_table_refl|].
    split; [apply same_play_refl|]. split; [reflexivity|lia]. }
  destruct (bool_decide _).
  { ends_steps. destruct (scanner w (scans_made w)) as [detected|].
    - destruct (detected_truthy detected); [ends_steps; exact Hsame|].
      eapply wp_mono; [apply IH; cbn; lia|]. cbn. intros [] w' H.
      destruct H as (T & P & U & L). repeat split; try apply T; try apply P;
        try exact U. lia.
    - ends_steps. exact Hsame. }
  destruct (bool_decide _).
  { ends_steps. destruct (pay_calibration_fee (game w)) as [g'|e] eqn:Hfee;
      [|exact I].
    ends_steps. apply pay_calibration_fee_frame in Hfee as (T & P & U).
    split; [exact T|]. split; [exact P|]. split; [exact U|]. fields. lia. }
  eapply wp_mono; [apply IH; cbn; lia|]. cbn. intros [] w' H.
  destruct H as (T & P & U & L). repeat split; try apply T; try apply P;
    try exact U. lia.
Qed.

Lemma handle_calibration_ends (w : World) :
  wp _handle_calibration
    (fun _ w' =>
       same_table (game w) (game w') /\ same_play (game w) (game w') /\
       upgrades (_session (game w')) = upgrades (_session (game w)) /\
       (length (inputs w') <= length (inputs w))%nat)
    (fun _ : raised => True) False w.
Proof.
  assert (Hsame : same_table (game w) (game w) /\
                  same_play (game w) (game w) /\
                  upgrades (_session (game w)) = upgrades (_session (game w)) /\
                  (length (inputs w) <= length (inputs w))%nat).
  { split; [apply same_table_refl|].
    split; [apply same_play_refl|]. split; [reflexivity|lia]. }
  unfold _handle_calibration. ends_steps.
  destruct (negb _); [ends_steps; exact Hsame|].
  destruct (_deck (game w)) as [deck|] eqn:Hdeck; [|ends_steps; exact Hsame].
  apply wp_bind. unfold _calibration_target_card. ends_steps.
  rewrite Hdeck.
  destruct (List.filter _ _) as [|c cs] eqn:Hf; [ends_steps; exact Hsame|].
  apply wp_bind. unfold random_choice, randbelow. ends_steps.
  destruct (_card_label_for_scanner _) as [label|e]; [|exact I].
  ends_steps.
  eapply wp_mono; [apply calibration_prompt_ends; cbn; lia|].
  cbn. auto.
Qed.

Lemma prime_new_deck_ends (initial : bool) (w : World) :
  wp (_prime_new_deck initial)
    (fun _ w' =>
       upgrades (_session (game w')) = upgrades (_session (game w)) /\
       _state (game w') = _state (game w) /\
       _current_card (game w') = _current_card (game w) /\
       deck_length (game w') = 52 + jokers_per_deck (game w) /\
       non_jokers (game w') = 52 /\
       jokers_left (game w') = jokers_per_deck (game w) /\
       (length (inputs w') <= length (inputs w))%nat)
    (fun _ : raised => True) False w.
Proof.
  unfold _prime_new_deck. apply wp_bind.
  set (w1 := if negb initial
             then mkWorld (_record_deck_completion (game w)) (inputs w)
                    (random w) (scanner w) (scans_made w)
             else w).
  assert (Hb : bookkeeping (game w) (game w1) /\
               upgrades (_session (game w1)) = upgrades (_session (game w)) /\
               inputs w1 = inputs w).
  { subst w1. destruct initial; cbn [negb]; fields.
    - split; [apply bookkeeping_refl|auto].
    - split; [apply record_deck_completion_bookkeeping|].
      split; [apply record_deck_completion_upgrades|reflexivity]. }
  apply (wp_mono _ _ _ (fun _ w' => w' = w1)).
  { subst w1. destruct initial; cbn [negb]; ends_steps; reflexivity. }
  intros [] ? ->. clearbody w1. ends_steps.
  unfold Deck__init__.
  pose proof (new_deck_jokers_nonneg (_session (game w1))) as Hj.
  destruct (Z.ltb_spec (_BASE_JOKERS *
                        joker_multiplier (upgrades (_session (game w1)))) 0);
    [lia|].
  ends_steps. apply wp_bind. unfold shuffle_deck. ends_steps.
  pose proof (standard_deck_counts _ Hj) as Hfresh. revert Hfresh.
  generalize (Deck._create_standard_deck true
                (_BASE_JOKERS *
                 joker_multiplier (upgrades (_session (game w1))))).
  intros cards (Hcount & Hjokers & Hlength).
  set (fresh := Deck.mk cards).
  change cards with (Deck._cards fresh) in Hcount, Hjokers, Hlength.
  clearbody fresh. clear cards.
  pose proof (deck_shuffle_permutation fresh (random w1)) as Hperm.
  destruct (Deck_shuffle fresh (random w1)) as [deck r']. cbn [fst] in Hperm.
  ends_steps.
  eapply wp_mono; [apply handle_calibration_ends|].
  intros [] w2 (T & P & U & L). fields.
  rewrite notify_watcher_counter in T, P, U. fields.
  destruct Hb as ((Tb & Pb & _) & Ub & Ib).
  destruct T as (Td & Tc & Tcur), P as (Ps & _), Pb as (Pbs & _),
           Tb as (_ & _ & Tbc). fields.
  assert (J : jokers_per_deck (game w) =
              _BASE_JOKERS * joker_multiplier (upgrades (_session (game w1)))).
  { unfold jokers_per_deck. rewrite Ub. reflexivity. }
  split; [congruence|]. split; [congruence|]. split; [congruence|].
  unfold deck_length, non_jokers, jokers_left, Deck.len,
    Deck.remaining_cards. rewrite Td.
  rewrite !(count_cards_permutation _ _ _ Hperm),
    (Permutation_length Hperm), J.
  split; [exact Hlength|]. split; [exact Hcount|]. split; [exact Hjokers|].
  rewrite <- Ib. exact L.
Qed.

Lemma deal_starting_card_ends (fuel : nat) : forall w,
  deals_to_start (game w) <= Z.of_nat fuel ->
  wp (_deal_starting_card fuel)
    (fun _ w' =>
       deck_effort w w' /\
       _current_card (game w') = _current_card (game w))
    (fun _ : raised => True) False w.
Proof.
  induction fuel as [|fuel IH]; intros w Hfuel.
  { exfalso. unfold deals_to_start in Hfuel.
    pose proof (deck_counts (game w)).
    pose proof (jokers_per_deck_nonneg (game w)).
    destruct (1 <=? non_jokers (game w)); lia. }
  cbn [_deal_starting_card]. ends_steps.
  apply (wp_mono _ _ _ (fun _ w1 =>
              deck_effort w w1 /\
              _current_card (game w1) = _current_card (game w) /\
              deck_exhausted (game w1) = false /\
              deals_to_start (game w1) <= Z.of_nat (S fuel))).
  { destruct (deck_exhausted (game w)) eqn:Hex.
    - eapply wp_mono; [apply prime_new_deck_ends|].
      intros [] w1 (U & St & C & D & N & Jl & L).
      split; [|split; [exact C|split]].
      + split; [exact U|]. split; [exact St|]. split; [rewrite C; auto|].
        split; [lia|exact L].
      + apply non_jokers_bounds. lia.
      + apply deck_exhausted_length in Hex.
        unfold deals_to_start in Hfuel |- *. rewrite N, Jl.
        change (1 <=? 52) with true. cbv iota.
        pose proof (deck_counts (game w)) as (H0 & H1 & H2).
        destruct (Z.leb_spec 1 (non_jokers (game w))); lia.
    - ends_steps. split; [apply deck_effort_refl|].
      split; [reflexivity|]. split; [exact Hex|exact Hfuel]. }
  intros [] w1 (E1 & C1 & Hex & Hfuel1). apply wp_bind.
  eapply wp_mono; [apply deal_card_ends|].
  intros card w2 (E2 & C2 & I2 & D2 & N2 & J2).
  destruct (is_joker card) eqn:Hj; cbn [negb].
  - eapply wp_mono; [apply IH|].
    + unfold deals_to_start in Hfuel1 |- *. destruct E2 as (U2 & _).
      rewrite (jokers_per_deck_upgrades _ _ U2), N2, J2, D2.
      rewrite Z.sub_0_r. destruct (1 <=? non_jokers (game w1)); lia.
    + intros card' w3 (E3 & C3).
      split; [exact (deck_effort_trans _ _ _ E1
                       (deck_effort_trans _ _ _ E2 E3))|congruence].
  - ends_steps.
    split; [exact (deck_effort_trans _ _ _ E1 E2)|congruence].
Qed.

Lemma deck_effort_play w w' : deck_effort w w' -> play_effort w w'.
Proof.
  intros (U & S & C & D & L). split; [exact U|].
  split; [rewrite S; auto|]. auto.
Qed.

Lemma play_effort_refl w : play_effort w w.
Proof. repeat split; auto; lia. Qed.

Lemma play_effort_trans w1 w2 w3 :
  play_effort w1 w2 -> play_effort w2 w3 -> play_effort w1 w3.
Proof.
  intros (U1 & S1 & C1 & D1 & L1) (U2 & S2 & C2 & D2 & L2).
  pose proof (jokers_per_deck_upgrades _ _ U1) as J.
  repeat split; try congruence; auto; lia.
Qed.

(** A change of the game that leaves the upgrades, the deck and the
    current card alone and does not go back to the start-up. *)
Lemma play_effort_frame w w' :
  upgrades (_session (game w')) = upgrades (_session (game w)) ->
  _deck (game w') = _deck (game w) ->
  _current_card (game w') = _current_card (game w) ->
  (_state (game w) <> STARTUP -> _state (game w') <> STARTUP) ->
  (length (inputs w') <= length (inputs w))%nat ->
  play_effort w w'.
Proof.
  intros U D C S L. split; [exact U|]. split; [exact S|].
  split; [rewrite C; auto|]. split; [|exact L].
  unfold deck_length. rewrite D. lia.
Qed.

Lemma effort_play w w' :
  play_effort w w' -> effort (game w') <= effort (game w).
Proof.
  intros (U & _ & _ & D & _). unfold effort.
  rewrite (jokers_per_deck_upgrades _ _ U). lia.
Qed.

Lemma check_deck_depleted_ends (fuel : nat) (next_card : option Card)
  (w : World) :
  jokers_per_deck (game w) + 1 <= Z.of_nat fuel ->
  wp (_check_deck_depleted fuel next_card)
    (fun _ w' =>
       deck_effort w w' /\
       (is_Some next_card -> is_Some (_current_card (game w'))))
    (fun _ : raised => True) False w.
Proof.
  intros Hfuel. unfold _check_deck_depleted. ends_steps.
  destruct (deck_exhausted (game w)).
  - apply wp_bind. eapply wp_mono; [apply prime_new_deck_ends|].
    intros [] w1 (U & St & C & D & N & Jl & L). apply wp_bind.
    eapply wp_mono; [apply deal_starting_card_ends|].
    { unfold deals_to_start. rewrite N, Jl.
      change (1 <=? 52) with true. cbv iota. exact Hfuel. }
    intros card w2 ((U2 & St2 & _ & D2 & L2) & C2). ends_steps.
    split; [|intros _; eexists; reflexivity]. unfold deck_effort. fields.
    pose proof (jokers_per_deck_upgrades _ _ U) as J.
    split; [congruence|]. split; [congruence|].
    split; [intros _; eexists; reflexivity|].
    split; [|lia].
    change (deck_length (with_current_card (game w2) (Some card)))
      with (deck_length (game w2)). lia.
  - destruct next_card as [card|]; ends_steps.
    + split; [|intros _; eexists; reflexivity].
      split; [reflexivity|]. split; [reflexivity|].
      split; [intros _; eexists; reflexivity|]. fields.
      split; [|lia].
      change (deck_length (with_current_card (game w) (Some card)))
        with (deck_length (game w)). lia.
    + split; [apply deck_effort_refl|]. intros [? ?]. discriminate.
Qed.

Lemma interpret_state (line : string) (r : CommandResult) (g : InfiniteGame) :
  interpret line = Some r ->
  _state g <> STARTUP -> _state (_apply_command_result g r).1 <> STARTUP.
Proof.
  unfold interpret. destruct (commands !! _) as [command|]; [|discriminate].
  intros [= <-]. unfold _apply_command_result.
  destruct command; cbn; auto; discriminate.
Qed.

Lemma prediction_prompt_ends (pt : PayoutTable) (lines : list string) :
  forall w,
  (length lines <= length (inputs w))%nat ->
  wp (prediction_prompt pt lines)
    (fun r w' =>
       (length (inputs w') < length (inputs w))%nat /\
       (exists st, game w' = with_state (game w) st /\
                   (_state (game w) <> STARTUP -> st <> STARTUP)) /\
       (is_Some r -> game w' = game w))
    (fun _ : raised => True) False w.
Proof.
  induction lines as [|line lines IH]; intros w Hlen.
  { cbn [prediction_prompt]. ends_steps. }
  cbn [prediction_prompt length] in *. ends_steps.
  assert (Hnext : wp (prediction_prompt pt lines)
            (fun r w' =>
               (length (inputs w') < length (inputs w))%nat /\
               (exists st, game w' = with_state (game w) st /\
                           (_state (game w) <> STARTUP -> st <> STARTUP)) /\
               (is_Some r -> game w' = game w))
            (fun _ : raised => True) False
            (mkWorld (game w) lines (random w) (scanner w) (scans_made w))).
  { eapply wp_mono; [apply IH; cbn; lia|]. cbn.
    intros r w' (L & G & S). split; [lia|]. split; assumption. }
  destruct (interpret line) as [command_result|] eqn:Hint.
  - ends_steps.
    pose proof (interpret_state _ _ (game w) Hint) as Hst.
    destruct (apply_command_result_frame (game w) command_result)
      as [st Hg].
    destruct (_apply_command_result (game w) command_result)
      as [g1 interrupted] eqn:Hcmd.
    cbn [fst] in Hst, Hg. ends_steps. destruct interrupted.
    + ends_steps. split; [lia|]. split.
      * exists st. split; [exact Hg|]. intros H. specialize (Hst H).
        rewrite Hg in Hst. exact Hst.
      * intros [? ?]. discriminate.
    + apply apply_command_result_continue in Hcmd. subst g1. exact Hnext.
  - destruct (input_from_player line) as [prediction|e].
    + destruct (_payout_for_prediction prediction pt) as [v|];
        [|exact Hnext].
      ends_steps. split; [lia|].
      split; [|reflexivity].
      exists (_state (game w)). split; [destruct (game w); reflexivity|auto].
    + destruct e; try exact I; exact Hnext.
Qed.

Lemma after_round_ends (win : bool) (p : float) (w : World) :
  wp (after_round win p)
    (fun _ w' =>
       (exists pick, game w' = _after_round (game w) win p pick) /\
       inputs w' = inputs w)
    (fun _ : raised => True) False w.
Proof.
  unfold after_round, randbelow. ends_steps.
  destruct (_ && _); ends_steps; split; try reflexivity; eexists; reflexivity.
Qed.

Lemma round_bookkeeping_frame g (paid win : bool) prediction pt p pick :
  let g3 := if paid then pay_out prediction pt g else g in
  let g5 := _after_round (_update_side_mission_after_round g3 win).1
              win p pick in
  upgrades (_session g5) = upgrades (_session g) /\
  same_table g g5 /\ _state g5 = _state g.
Proof.
  cbn zeta. split.
  - rewrite after_round_upgrades, update_side_mission_upgrades.
    destruct paid; [apply pay_out_upgrades|reflexivity].
  - destruct (round_bookkeeping g paid win prediction pt p pick)
      as (T & S & _). auto.
Qed.

Lemma check_final_extraction_state g :
  _state g <> STARTUP -> _state (_check_final_extraction g) <> STARTUP.
Proof.
  unfold _check_final_extraction. destruct (_ <? _); [auto|discriminate].
Qed.

Lemma deals_to_start_fuel (g g0 : InfiniteGame) (fuel : nat) :
  effort g0 <= Z.of_nat fuel ->
  upgrades (_session g) = upgrades (_session g0) ->
  deck_length g <= Z.max (deck_length g0) (52 + jokers_per_deck g0) ->
  deals_to_start g <= Z.of_nat fuel /\
  jokers_per_deck g + 1 <= Z.of_nat fuel.
Proof.
  intros Hfuel U D. pose proof (deals_to_start_bound g).
  pose proof (jokers_per_deck_nonneg g0).
  rewrite (jokers_per_deck_upgrades _ _ U) in *. unfold effort in Hfuel. lia.
Qed.

Lemma run_round_ends (fuel : nat) (w : World) :
  effort (game w) <= Z.of_nat fuel ->
  wp (_run_round fuel)
    (fun _ w' =>
       play_effort w w' /\
       (is_Some (_current_card (game w)) ->
        (length (inputs w') < length (inputs w))%nat))
    (fun _ : raised => True) False w.
Proof.
  intros Hfuel. unfold _run_round. ends_steps.
  destruct (_current_card (game w)) as [current|] eqn:Hcur.
  2: { ends_steps. split; [apply play_effort_refl|].
       intros [? ?]. discriminate. }
  ends_steps. destruct (win_odds _ _) as [odds|e]; [|exact I].
  ends_steps. destruct (_build_payouts _ _) as [pt|e]; [|exact I].
  apply wp_bind. unfold _prompt_prediction. ends_steps.
  eapply wp_mono; [apply prediction_prompt_ends; lia|].
  intros [prediction|] w1 (L1 & (st & Hg & Hst) & Hsame).
  2: { ends_steps. split; [|intros _; exact L1].
       apply play_effort_frame; rewrite ?Hg; try reflexivity; [|lia].
       fields. exact Hst. }
  specialize (Hsame ltac:(eexists; reflexivity)). clear st Hg Hst.
  ends_steps. rewrite Hsame.
  set (g1 := with_session (game w) _).
  set (p := _win_probability odds prediction _).
  set (reverse := match _active_side_mission (game w) with
                  | Some m => is_reverse m | None => false end).
  eapply wp_mono; [apply deal_card_ends|].
  fields. intros next_card w2 (E2 & C2 & I2 & D2 & _).
  destruct E2 as (U2 & St2 & _ & _ & _). fields.
  assert (Hd1 : deck_length g1 = deck_length (game w)) by reflexivity.
  assert (Hu1 : upgrades (_session g1) = upgrades (_session (game w)))
    by reflexivity.
  assert (Hs1 : _state g1 = _state (game w)) by reflexivity.
  assert (Hc1 : _current_card g1 = Some current) by exact Hcur.
  clearbody g1 p reverse.
  assert (Hend : forall (paid win : bool) pick w9,
            let g5 := _after_round
                        (_update_side_mission_after_round
                           (if paid then pay_out prediction pt (game w2)
                            else game w2) win).1 win p pick in
            forall g6,
            upgrades (_session g6) = upgrades (_session g5) ->
            _deck g6 = _deck g5 ->
            (_state g5 <> STARTUP -> _state g6 <> STARTUP) ->
            is_Some (_current_card g6) ->
            (deck_length g6 <= Z.max (deck_length g6) 0 ->
             play_effort
               (mkWorld g6 (inputs w2) (random w9) (scanner w9)
                  (scans_made w9)) w9) ->
            play_effort w w9 /\
            (is_Some (Some current) ->
             (length (inputs w9) < length (inputs w))%nat)).
  { intros paid win pick w9 g5 g6 U6 D6 S6 C6 E9.
    destruct (round_bookkeeping_frame (game w2) paid win prediction pt p pick)
      as (U5 & (T5 & _) & S5).
    fold g5 in U5, T5, S5. specialize (E9 ltac:(lia)).
    destruct E9 as (U9 & S9 & C9 & D9 & L9). fields.
    assert (J6 : jokers_per_deck g6 = jokers_per_deck (game w)).
    { apply jokers_per_deck_upgrades. congruence. }
    assert (Dl6 : deck_length g6 = deck_length (game w) - 1).
    { unfold deck_length in *. rewrite D6, T5. lia. }
    split; [|intros _; rewrite I2 in L9; fields; lia].
    split; [congruence|].
    split; [intros H; apply S9, S6; rewrite S5, St2, Hs1; exact H|].
    split; [intros _; apply C9, C6|].
    split; [lia|]. rewrite I2 in L9. fields. lia. }
  destruct (is_joker next_card).
  - (* a joker *)
    ends_steps.
    eapply wp_mono; [apply after_round_ends|].
    intros [] w5 ((pick & H5) & I5). fields. ends_steps. rewrite H5.
    destruct (round_bookkeeping_frame (game w2) true true prediction pt p
                pick) as (U5 & (T5 & _ & Cur5) & S5).
    cbv zeta in U5, T5, S5, Cur5. cbv iota in U5, T5, S5, Cur5.
    specialize (Hend true true pick). cbv zeta in Hend. cbv iota in Hend.
    set (g5 := _after_round _ true p pick) in *. clearbody g5.
    destruct (check_final_extraction_frame g5)
      as ((Td6 & _ & Tc6) & Ss6 & _).
    pose proof (check_final_extraction_state g5) as St6.
    set (g6 := _check_final_extraction g5) in *. clearbody g6.
    assert (Dl6 : deck_length g6 = deck_length (game w) - 1).
    { unfold deck_length in *. rewrite Td6, T5. lia. }
    assert (U6 : upgrades (_session g6) = upgrades (_session (game w)))
      by congruence.
    destruct (deals_to_start_fuel g6 (game w) fuel Hfuel U6 ltac:(lia))
      as (F1 & F2).
    eapply wp_mono; [apply deal_starting_card_ends; exact F1|].
    fields. intros card w7 (E7 & C7). ends_steps.
    pose proof (deck_effort_play _ _ E7) as P7.
    destruct E7 as (U7 & St7 & _ & D7 & L7). fields.
    eapply wp_mono; [apply check_deck_depleted_ends|].
    { fields.
      change (jokers_per_deck (with_current_card (game w7) (Some card)))
        with (jokers_per_deck (game w7)).
      rewrite (jokers_per_deck_upgrades _ _ U7). exact F2. }
    fields. intros [] w9 (E9 & _).
    apply (Hend w9 g6); [congruence|congruence|exact St6| |].
    + rewrite Tc6, Cur5, C2, Hc1. eexists; reflexivity.
    + intros _. rewrite <- I5 at 1.
      eapply play_effort_trans; [|apply deck_effort_play, E9].
      destruct P7 as (P1 & P2 & P3 & P4 & P5). fields.
      split; [exact P1|]. split; [exact P2|].
      split; [intros _; eexists; reflexivity|]. split; [|exact P5].
      change (deck_length (with_current_card (game w7) (Some card)))
        with (deck_length (game w7)). exact P4.
  - (* a card of a rank *)
    set (win := _is_prediction_correct current next_card prediction reverse).
    clearbody win. apply wp_bind.
    apply (wp_mono _ _ _
             (fun _ w3 =>
                w3 = mkWorld (if win then pay_out prediction pt (game w2)
                              else game w2)
                       (inputs w2) (random w2) (scanner w2) (scans_made w2))).
    { destruct win; ends_steps; [reflexivity|]. destruct w2; reflexivity. }
    intros [] ? ->. ends_steps.
    eapply wp_mono; [apply after_round_ends|].
    intros [] w5 ((pick & H5) & I5). fields. ends_steps. rewrite ?H5.
    destruct (round_bookkeeping_frame (game w2) win win prediction pt p pick)
      as (U5 & (T5 & _ & Cur5) & S5).
    cbv zeta in U5, T5, S5, Cur5.
    specialize (Hend win win pick). cbv zeta in Hend.
    set (g5 := _after_round _ win p pick) in *. clearbody g5.
    assert (Hc5 : is_Some (_current_card g5)).
    { rewrite Cur5, C2, Hc1. eexists; reflexivity. }
    destruct (balance (_session g5) <=? 0).
    + ends_steps. rewrite ?H5.
      refine (Hend (mkWorld (with_state g5 TERMINATED) (inputs w5) (random w5)
                      (scanner w5) (scans_made w5))
                (with_state g5 TERMINATED) _ _ _ _ _);
        [reflexivity|reflexivity|discriminate|exact Hc5|].
      intros _. apply play_effort_frame; fields; try reflexivity; auto.
      rewrite I5. lia.
    + ends_steps. rewrite ?H5.
      destruct (check_final_extraction_frame g5)
        as ((Td6 & _ & Tc6) & Ss6 & _).
      pose proof (check_final_extraction_state g5) as St6.
      set (g6 := _check_final_extraction g5) in *. clearbody g6.
      assert (Dl6 : deck_length g6 = deck_length (game w) - 1).
      { unfold deck_length in *. rewrite Td6, T5. lia. }
      assert (U6 : upgrades (_session g6) = upgrades (_session (game w)))
        by congruence.
      destruct (deals_to_start_fuel g6 (game w) fuel Hfuel U6 ltac:(lia))
        as (F1 & F2).
      eapply wp_mono; [apply check_deck_depleted_ends; exact F2|].
      fields. intros [] w9 (E9 & _).
      apply (Hend w9 g6); [congruence|congruence|exact St6| |].
      * rewrite Tc6. exact Hc5.
      * intros _. rewrite <- I5 at 1. apply deck_effort_play, E9.
Qed.

Lemma offer_side_mission_ends (w : World) :
  wp offer_side_mission
    (fun _ w' =>
       upgrades (_session (game w')) = upgrades (_session (game w)) /\
       same_table (game w) (game w') /\
       (_state (game w) <> STARTUP -> _state (game w') <> STARTUP) /\
       (length (inputs w') <= length (inputs w))%nat /\
       (_state (game w') = _state (game w) \/
        (length (inputs w') < length (inputs w))%nat))
    (fun _ : raised => True) False w.
Proof.
  unfold offer_side_mission. ends_steps.
  pose proof (offer_side_mission_session (game w) (inputs w)) as Hs.
  destruct (_offer_side_mission (game w) (inputs w)) as [[g' rest]|e] eqn:Ho;
    [|exact I].
  ends_steps. apply offer_side_mission_effort in Ho as (U & L & S & C).
  destruct Hs as (T & _). auto.
Qed.

Lemma handle_dealing_ends (fuel rounds : nat) : forall w,
  effort (game w) <= Z.of_nat fuel ->
  (length (inputs w) < rounds)%nat ->
  wp (_handle_dealing fuel rounds)
    (fun _ w' =>
       play_effort w w' /\
       (_state (game w) = DEALING ->
        _state (game w') = TERMINATED \/
        (length (inputs w') < length (inputs w))%nat))
    (fun _ : raised => True) False w.
Proof.
  induction rounds as [|rounds IH]; intros w Hfuel Hrounds; [lia|].
  cbn [_handle_dealing]. ends_steps.
  destruct (state_eqb (_state (game w)) DEALING) eqn:Hstate; cbn [negb].
  2: { ends_steps. split; [apply play_effort_refl|].
       intros H. apply state_eqb_eq in H. congruence. }
  apply state_eqb_eq in Hstate.
  assert (Hend : play_effort w
                   (mkWorld (with_state (game w) TERMINATED) (inputs w)
                      (random w) (scanner w) (scans_made w)) /\
                 (_state (game w) = DEALING ->
                  TERMINATED = TERMINATED \/
                  (length (inputs w) < length (inputs w))%nat)).
  { split; [|auto]. apply play_effort_frame; fields; auto; discriminate. }
  destruct (_ <=? _); [ends_steps; exact Hend|].
  destruct (_ <? _); [ends_steps; exact Hend|]. clear Hend.
  lazymatch goal with
  | |- wp (if _ then _ else ?p) _ _ _ _ => set (play := p)
  end.
  assert (Hplay : forall w1,
            play_effort w w1 ->
            (_state (game w1) = _state (game w) \/
             (length (inputs w1) < length (inputs w))%nat) ->
            wp play
              (fun _ w' =>
                 play_effort w w' /\
                 (_state (game w) = DEALING ->
                  _state (game w') = TERMINATED \/
                  (length (inputs w') < length (inputs w))%nat))
              (fun _ : raised => True) False w1).
  { intros w1 P1 _. subst play. ends_steps.
    pose proof (effort_play _ _ P1) as Hf1.
    apply (wp_mono _ _ _ (fun _ w2 => deck_effort w1 w2)).
    { destruct (deck_exhausted (game w1)) eqn:Hex.
      - apply wp_bind. eapply wp_mono; [apply prime_new_deck_ends|].
        intros [] wa (U & St & C & D & N & Jl & L). apply wp_bind.
        eapply wp_mono; [apply deal_starting_card_ends|].
        { unfold deals_to_start. rewrite N, Jl.
          change (1 <=? 52) with true. cbv iota.
          pose proof (jokers_per_deck_nonneg (game w1)).
          unfold effort in *. lia. }
        intros card wb ((U2 & St2 & _ & D2 & L2) & C2). ends_steps.
        unfold deck_effort. fields.
        pose proof (jokers_per_deck_upgrades _ _ U) as J.
        split; [congruence|]. split; [congruence|].
        split; [intros _; eexists; reflexivity|]. split; [|lia].
        change (deck_length (with_current_card (game wb) (Some card)))
          with (deck_length (game wb)). lia.
      - ends_steps. apply deck_effort_refl. }
    intros [] w2 E2. ends_steps.
    pose proof (effort_play _ _ (deck_effort_play _ _ E2)) as Hf2.
    apply (wp_mono _ _ _
             (fun _ w3 =>
                deck_effort w2 w3 /\ is_Some (_current_card (game w3)))).
    { destruct (_current_card (game w2)) as [c|] eqn:Hc2.
      - ends_steps. split; [apply deck_effort_refl|].
        rewrite Hc2. eexists; reflexivity.
      - apply wp_bind.
        eapply wp_mono; [apply deal_starting_card_ends|].
        { pose proof (deals_to_start_bound (game w2)).
          pose proof (jokers_per_deck_nonneg (game w2)).
          unfold effort in *. lia. }
        intros card wb ((U2 & St2 & _ & D2 & L2) & C2). ends_steps.
        split; [|eexists; reflexivity].
        unfold deck_effort. fields.
        split; [congruence|]. split; [congruence|].
        split; [intros _; eexists; reflexivity|]. split; [|lia].
        change (deck_length (with_current_card (game wb) (Some card)))
          with (deck_length (game wb)). lia. }
    intros [] w3 (E3 & Hc3). apply wp_bind.
    pose proof (play_effort_trans _ _ _ P1
                  (play_effort_trans _ _ _ (deck_effort_play _ _ E2)
                     (deck_effort_play _ _ E3))) as P3.
    pose proof (effort_play _ _ P3) as Hf3.
    eapply wp_mono; [apply run_round_ends; unfold effort in *; lia|].
    intros [] w4 (P4 & L4). specialize (L4 Hc3).
    pose proof (play_effort_trans _ _ _ P3 P4) as P14.
    pose proof (effort_play _ _ P14) as Hf4.
    assert (Hlen4 : (length (inputs w4) < length (inputs w))%nat).
    { destruct P3 as (_ & _ & _ & _ & L3). lia. }
    eapply wp_mono; [apply IH; unfold effort in *; lia|].
    intros [] w5 (P5 & _).
    split; [exact (play_effort_trans _ _ _ P14 P5)|].
    intros _. right. destruct P5 as (_ & _ & _ & _ & L5). lia. }
  assert (Hhere : wp play
            (fun _ w' =>
               play_effort w w' /\
               (_state (game w) = DEALING ->
                _state (game w') = TERMINATED \/
                (length (inputs w') < length (inputs w))%nat))
            (fun _ : raised => True) False w).
  { apply Hplay; [apply play_effort_refl|auto]. }
  destruct (_ && _); [|exact Hhere].
  apply wp_bind.
  eapply wp_mono; [apply offer_side_mission_ends|].
  intros [] w1 (U1 & (Td & _ & Tc) & S1 & L1 & C1). ends_steps.
  assert (P1 : play_effort w w1).
  { apply play_effort_frame; assumption. }
  destruct (state_eqb (_state (game w1)) DEALING) eqn:Hstate1; cbn [negb].
  - apply Hplay; assumption.
  - ends_steps. split; [exact P1|]. intros _.
    destruct C1 as [C1|C1]; [|auto].
    rewrite C1, Hstate in Hstate1. discriminate.
Qed.

Lemma handle_startup_ends (fuel : nat) (w : World) :
  jokers_per_deck (game w) + 1 <= Z.of_nat fuel ->
  wp (_handle_startup fuel)
    (fun _ w' =>
       _state (game w') = DEALING /\
       upgrades (_session (game w')) = upgrades (_session (game w)) /\
       deck_length (game w') <= 52 + jokers_per_deck (game w) /\
       (length (inputs w') <= length (inputs w))%nat)
    (fun _ : raised => True) False w.
Proof.
  intros Hfuel. unfold _handle_startup. ends_steps.
  pose proof (check_shop_achievement_upgrades (game w)) as U1.
  set (g1 := _check_shop_achievement (game w)) in *.
  pose proof (check_credit_achievements_upgrades g1) as U2.
  set (g2 := _check_credit_achievements g1) in *.
  clearbody g2. clearbody g1.
  assert (J2 : jokers_per_deck g2 = jokers_per_deck (game w))
    by (apply jokers_per_deck_upgrades; congruence).
  eapply wp_mono; [apply prime_new_deck_ends|].
  fields. intros [] w3 (U3 & _ & _ & D3 & N3 & Jl3 & L3). apply wp_bind.
  eapply wp_mono; [apply deal_starting_card_ends|].
  { unfold deals_to_start. rewrite N3, Jl3.
    change (1 <=? 52) with true. cbv iota. lia. }
  intros card w4 ((U4 & _ & _ & D4 & L4) & _). ends_steps. fields.
  split; [reflexivity|]. split; [congruence|].
  rewrite (jokers_per_deck_upgrades _ _ U3) in D4.
  change (deck_length
            (with_state (with_current_card (game w4) (Some card)) DEALING))
    with (deck_length (game w4)).
  split; lia.
Qed.

Lemma jokers_per_deck_most g : jokers_per_deck g <= most_jokers g.
Proof.
  unfold jokers_per_deck, most_jokers, joker_multiplier, _BASE_JOKERS.
  apply Z.mul_le_mono_nonneg_l; [lia|].
  apply Z.pow_le_mono_r; lia.
Qed.

Lemma effort_capacity g : effort g <= capacity g.
Proof.
  unfold effort, capacity. pose proof (jokers_per_deck_most g). lia.
Qed.

Lemma most_jokers_upgrades g g' :
  upgrades (_session g') = upgrades (_session g) ->
  most_jokers g' = most_jokers g.
Proof. unfold most_jokers. intros ->. reflexivity. Qed.

Lemma capacity_play w w' :
  play_effort w w' -> capacity (game w') <= capacity (game w).
Proof.
  intros (U & _ & _ & D & _). unfold capacity.
  rewrite (most_jokers_upgrades _ _ U).
  pose proof (jokers_per_deck_most (game w)). lia.
Qed.

Lemma shop_open_effort : menu_effort Shop_open.
Proof.
  intros s lines s' rest H. unfold Shop_open in H.
  apply shop_loop_spec in H as (Hp & _ & read & -> & Hread).
  split.
  - rewrite length_app. destruct read; [contradiction|cbn; lia].
  - destruct Hp as (_ & _ & _ & _ & Hj & _). fields. lia.
Qed.

Lemma settings_open_effort : menu_effort SettingsMenu_open.
Proof.
  intros s lines s' rest H. unfold SettingsMenu_open in H.
  pose proof (settings_loop_spec lines (set_visited_settings s true)) as Hs.
  rewrite H in Hs.
  destruct Hs as (_ & _ & _ & _ & _ & _ & U & _ & _ & _ & read & -> & Hread).
  fields. split.
  - rewrite length_app. destruct read; [contradiction|cbn; lia].
  - rewrite U. reflexivity.
Qed.

Lemma achievements_open_effort : menu_effort AchievementsMenu_open.
Proof.
  intros s [|line lines] s' rest; [discriminate|].
  intros [= <- <-]. cbn. split; [lia|reflexivity].
Qed.

Lemma open_menu_ends
  (menu : SessionData -> list string -> result (SessionData * list string))
  (w : World) :
  menu_effort menu ->
  wp (open_menu menu)
    (fun _ w' =>
       (exists s', game w' = with_session (game w) s' /\
                   N.max (joker_level (upgrades s')) 1 =
                     N.max (joker_level (upgrades (_session (game w)))) 1) /\
       (length (inputs w') < length (inputs w))%nat)
    (fun _ : raised => True) False w.
Proof.
  intros Hmenu. unfold open_menu. ends_steps.
  destruct (menu _ _) as [[s' rest]|e] eqn:Hm; [|exact I].
  ends_steps. apply Hmenu in Hm as (L & J). eauto.
Qed.

Lemma run_ends (fuel turns : nat) : forall w,
  capacity (game w) <= Z.of_nat fuel ->
  (length (inputs w) < fuel)%nat ->
  (turns_needed w <= turns)%nat ->
  wp (run fuel turns) (fun _ _ => True) (fun _ : raised => True) False w.
Proof.
  induction turns as [|turns IH]; intros w Hcap Hlen Hturns.
  { unfold turns_needed in Hturns. destruct (_state (game w)); lia. }
  cbn [run]. ends_steps.
  assert (Hmenu : forall menu (f : InfiniteGame -> InfiniteGame),
            menu_effort menu ->
            (forall g, upgrades (_session (f g)) = upgrades (_session g) /\
                       _deck (f g) = _deck g) ->
            match _state (game w) with
            | SHOPPING | SETTINGS | ACHIEVEMENTS => True
            | _ => False
            end ->
            wp (open_menu menu;; modify_game f;;
                modify_game (fun self => with_state self DEALING);;
                run fuel turns)
              (fun _ _ => True) (fun _ : raised => True) False w).
  { intros menu f Hm Hf Hst. apply wp_bind.
    eapply wp_mono; [apply open_menu_ends, Hm|].
    intros [] w1 ((s' & Hg & Hj) & L1). ends_steps. rewrite Hg.
    destruct (Hf (with_session (game w) s')) as (Uf & Df).
    apply IH; fields.
    - unfold capacity, most_jokers, deck_length in *. fields.
      rewrite Uf, Df. fields. rewrite Hj. exact Hcap.
    - lia.
    - unfold turns_needed in *. fields.
      destruct (_state (game w)); try contradiction; lia. }
  destruct (_state (game w)) eqn:Hstate.
  - (* STARTUP *)
    apply wp_bind.
    eapply wp_mono; [apply handle_startup_ends|].
    { pose proof (effort_capacity (game w)).
      pose proof (jokers_per_deck_nonneg (game w)).
      unfold effort in *. lia. }
    intros [] w1 (S1 & U1 & D1 & L1). apply IH.
    + unfold capacity in *. rewrite (most_jokers_upgrades _ _ U1).
      pose proof (jokers_per_deck_most (game w)). lia.
    + lia.
    + unfold turns_needed in *. rewrite S1, Hstate in *. lia.
  - (* DEALING *)
    apply wp_bind.
    eapply wp_mono; [apply handle_dealing_ends|].
    { pose proof (effort_capacity (game w)). lia. }
    { exact Hlen. }
    intros [] w1 (P1 & T1). specialize (T1 Hstate).
    apply IH.
    + pose proof (capacity_play _ _ P1). lia.
    + destruct P1 as (_ & _ & _ & _ & L1). lia.
    + destruct P1 as (_ & S1 & _ & _ & L1).
      specialize (S1 ltac:(rewrite Hstate; discriminate)).
      unfold turns_needed in *. rewrite Hstate in Hturns.
      destruct T1 as [->|T1]; [lia|].
      destruct (_state (game w1)); try contradiction; lia.
  - (* SHOPPING *)
    apply (Hmenu Shop_open _check_shop_achievement shop_open_effort);
      [|exact I].
    intros g. split; [apply check_shop_achievement_upgrades|].
    apply check_shop_achievement_bookkeeping.
  - (* SETTINGS *)
    pose proof (Hmenu SettingsMenu_open (fun g => g) settings_open_effort
                  (fun g => conj eq_refl eq_refl) I) as Hm.
    revert Hm. unfold wp, mbind, run_bind, modify_game, put_game.
    destruct (open_menu SettingsMenu_open w) as [[[] w1]| |]; auto.
  - (* ACHIEVEMENTS *)
    pose proof (Hmenu AchievementsMenu_open (fun g => g)
                  achievements_open_effort
                  (fun g => conj eq_refl eq_refl) I) as Hm.
    revert Hm. unfold wp, mbind, run_bind, modify_game, put_game.
    destruct (open_menu AchievementsMenu_open w) as [[[] w1]| |]; auto.
  - (* TERMINATED *)
    ends_steps.
Qed.

(** ** Properties of a run *)

Lemma wp_done {A} (m : Run A) Q E F (w : World) (a : A) (w' : World) :
  wp m Q E F w -> m w = Done (a, w') -> Q a w'.
Proof. unfold wp. intros H Heq. rewrite Heq in H. exact H. Qed.

Lemma no_strictness : False -> False.
Proof. auto. Qed.

(** X9. The card counter follows the deck. After every deal and after
    every new deck the counter holds the counts of the cards that are left
    in the deck, whatever it held before; and a round, the dealing loop and
    the whole run keep it so. *)
Theorem counter_follows_the_deck (fuel turns : nat) (w : World) :
  (forall card w', _deal_card w = Done (card, w') -> in_sync (game w')) /\
  (forall initial w',
     _prime_new_deck initial w = Done (tt, w') -> in_sync (game w')) /\
  (in_sync (game w) ->
   (forall card w',
      _deal_starting_card fuel w = Done (card, w') -> in_sync (game w')) /\
   (forall w', _run_round fuel w = Done (tt, w') -> in_sync (game w')) /\
   (forall w',
      _handle_dealing fuel turns w = Done (tt, w') -> in_sync (game w')) /\
   (forall w', run fuel turns w = Done (tt, w') -> in_sync (game w'))).
Proof.
  split; [|split].
  - intros card w' H.
    pose proof (deal_card_spec False w
                  (fun f => False_ind _ (no_strictness f))) as Hs.
    apply (wp_done _ _ _ _ _ _ _ Hs H).
  - intros initial w' H.
    pose proof (prime_new_deck_spec False initial w) as Hs.
    apply (wp_done _ _ _ _ _ _ _ Hs H).
  - intros Hsync. split; [|split; [|split]].
    + intros card w' H.
      pose proof (deal_starting_card_spec False fuel w) as Hs.
      destruct (wp_done _ _ _ _ _ _ _ Hs H) as (_ & (_ & _ & I & _) & _).
      exact (I Hsync).
    + intros w' H.
      pose proof (run_round_spec False fuel w
                    (fun f => False_ind _ (no_strictness f))) as Hs.
      destruct (wp_done _ _ _ _ _ _ _ Hs H) as ((I & _) & _).
      exact (I Hsync).
    + intros w' H.
      pose proof (handle_dealing_spec False fuel turns w
                    (fun f => False_ind _ (no_strictness f))) as Hs.
      destruct (wp_done _ _ _ _ _ _ _ Hs H) as ((I & _) & _).
      exact (I Hsync).
    + intros w' H.
      pose proof (run_spec False fuel turns w
                    (fun f => False_ind _ (no_strictness f))) as Hs.
      destruct (wp_done _ _ _ _ _ _ _ Hs H) as ((I & _) & _).
      exact (I Hsync).
Qed.

(** X10. A run ends. Started past the start-up only with a current
    card, with as many iterations allowed as the decks and the lines of
    input call for, [run] does not use them up: it returns with the game
    terminated, or it fails because the input is exhausted or a number
    leaves the range of a float. In particular no round is played against
    an empty or a missing deck, and the game never loops without reading
    a line. *)
Theorem run_ends_terminated (fuel turns : nat) (w : World) :
  ready (game w) ->
  capacity (game w) <= Z.of_nat fuel ->
  (length (inputs w) < fuel)%nat ->
  (turns_needed w <= turns)%nat ->
  match run fuel turns w with
  | Done (_, w') => _state (game w') = TERMINATED
  | Raised e => input_or_range_error e
  | OutOfFuel => False
  end.
Proof.
  intros Hready Hcap Hlen Hturns.
  pose proof (run_spec True fuel turns w (fun _ => Hready)) as Hsafe.
  pose proof (run_ends fuel turns w Hcap Hlen Hturns) as Hends.
  unfold wp in Hsafe, Hends.
  destruct (run fuel turns w) as [[[] w']|e|].
  - apply Hsafe.
  - apply Hsafe. exact I.
  - exact Hends.
Qed.

Lemma run_ends_terminated_witness :
  (capacity (game (sample_world ["pay"; "h"; "quit"]%string)) <= Z.of_nat 64) /\
  match run 64 6 (sample_world ["pay"; "h"; "quit"]%string) with
  | Done (_, w') => _state (game w') = TERMINATED
  | Raised e => input_or_range_error e
  | OutOfFuel => False
  end.
Proof.
  assert (H : capacity (game (sample_world ["pay"; "h"; "quit"]%string))
              <= Z.of_nat 64) by (vm_compute; discriminate).
  split; [exact H|].
  apply (run_ends_terminated 64 6 (sample_world ["pay"; "h"; "quit"]%string)).
  - intros Hs. exfalso. apply Hs. reflexivity.
  - exact H.
  - cbn. lia.
  - cbn. lia.
Defined.

(** X11. The games of a run are the reachable ones: every game a
    round, the dealing loop or the whole run leaves is reached from the
    game it started on by the steps of the side-mission bookkeeping (a
    resolved round, an offer, or a step that leaves the side-mission
    fields alone). So what holds of every reachable game holds throughout
    a run of the program: a pending mission comes from the catalogue, an
    active one is in progress, and no mission is pending while one is
    active. *)
Theorem run_stays_reachable (fuel turns : nat) (w : World) :
  reachable (game w) ->
  (forall w', _run_round fuel w = Done (tt, w') -> reachable (game w')) /\
  (forall w',
     _handle_dealing fuel turns w = Done (tt, w') -> reachable (game w')) /\
  (forall w',
     run fuel turns w = Done (tt, w') ->
     reachable (game w') /\ side_mission_invariant (game w')).
Proof.
  intros Hreach. split; [|split].
  - intros w' H.
    pose proof (run_round_spec False fuel w
                  (fun f => False_ind _ (no_strictness f))) as Hs.
    destruct (wp_done _ _ _ _ _ _ _ Hs H) as ((_ & R & _) & _).
    exact (R Hreach).
  - intros w' H.
    pose proof (handle_dealing_spec False fuel turns w
                  (fun f => False_ind _ (no_strictness f))) as Hs.
    destruct (wp_done _ _ _ _ _ _ _ Hs H) as ((_ & R & _) & _).
    exact (R Hreach).
  - intros w' H.
    pose proof (run_spec False fuel turns w
                  (fun f => False_ind _ (no_strictness f))) as Hs.
    destruct (wp_done _ _ _ _ _ _ _ Hs H) as ((_ & R & _) & _).
    split; [exact (R Hreach)|apply reachable_invariant, R, Hreach].
Qed.

Lemma run_stays_reachable_witness :
  reachable (game (sample_world ["pay"; "h"; "quit"]%string)) /\
  forall w',
    run 64 6 (sample_world ["pay"; "h"; "quit"]%string) = Done (tt, w') ->
    reachable (game w') /\ side_mission_invariant (game w').
Proof.
  assert (H : reachable (game (sample_world ["pay"; "h"; "quit"]%string)))
    by apply reachable_init.
  split; [exact H|].
  exact (proj2 (proj2 (run_stays_reachable 64 6
                         (sample_world ["pay"; "h"; "quit"]%string) H))).
Defined.

(** X12. With a base bet of 0 or more, a run only adds to what the
    player has gained: the credits extracted, the decks completed and the
    best streak never go down, no achievement is taken back, no upgrade is
    lost, and the base bet stays. The same holds of the dealing loop, and
    of a single round that starts on a balance of 0 or more (the loop
    sees to that). *)
Theorem session_only_grows (fuel turns : nat) (w : World) :
  0 <= base_bet (_session (game w)) ->
  (0 <= balance (_session (game w)) ->
   forall w',
     _run_round fuel w = Done (tt, w') ->
     session_progress (_session (game w)) (_session (game w'))) /\
  (forall w',
     _handle_dealing fuel turns w = Done (tt, w') ->
     session_progress (_session (game w)) (_session (game w'))) /\
  (forall w',
     run fuel turns w = Done (tt, w') ->
     session_progress (_session (game w)) (_session (game w'))).
Proof.
  intros Hbet. split; [|split].
  - intros Hbal w' H.
    pose proof (run_round_spec False fuel w
                  (fun f => False_ind _ (no_strictness f))) as Hs.
    destruct (wp_done _ _ _ _ _ _ _ Hs H) as (_ & P).
    exact (P Hbet Hbal).
  - intros w' H.
    pose proof (handle_dealing_spec False fuel turns w
                  (fun f => False_ind _ (no_strictness f))) as Hs.
    destruct (wp_done _ _ _ _ _ _ _ Hs H) as (_ & P).
    exact (P Hbet).
  - intros w' H.
    pose proof (run_spec False fuel turns w
                  (fun f => False_ind _ (no_strictness f))) as Hs.
    destruct (wp_done _ _ _ _ _ _ _ Hs H) as (_ & P & _).
    exact (P Hbet).
Qed.

Lemma session_only_grows_witness :
  (0 <= base_bet (_session (game (sample_world ["pay"; "h"; "quit"]%string))))
  /\
  forall w',
    run 64 6 (sample_world ["pay"; "h"; "quit"]%string) = Done (tt, w') ->
    session_progress
      (_session (game (sample_world ["pay"; "h"; "quit"]%string)))
      (_session (game w')).
Proof.
  assert (H : 0 <= base_bet (_session
                     (game (sample_world ["pay"; "h"; "quit"]%string))))
    by (vm_compute; discriminate).
  split; [exact H|].
  exact (proj2 (proj2 (session_only_grows 64 6
                         (sample_world ["pay"; "h"; "quit"]%string) H))).
Defined.

(** X13. [_deal_starting_card] never starts a round on a joker. Allowed
    as many iterations as [deals_to_start] counts (the jokers on top of the
    deck, or the whole deck and the jokers of a new one when it holds
    jokers only), it returns a card that is no joker, or fails on the
    calibration of a new deck (exhausted input, a number out of range);
    it never deals from an empty deck. It leaves the current card, the
    state and the side missions as they were. *)
Theorem deal_starting_card_is_no_joker (fuel : nat) (w : World) :
  deals_to_start (game w) <= Z.of_nat fuel ->
  match _deal_starting_card fuel w with
  | Done (card, w') =>
      is_joker card = false /\
      _current_card (game w') = _current_card (game w) /\
      same_play (game w) (game w') /\
      (in_sync (game w) -> in_sync (game w'))
  | Raised e => input_or_range_error e
  | OutOfFuel => False
  end.
Proof.
  intros Hfuel.
  pose proof (deal_starting_card_spec True fuel w) as Hsafe.
  pose proof (deal_starting_card_ends fuel w Hfuel) as Hends.
  unfold wp in Hsafe, Hends.
  destruct (_deal_starting_card fuel w) as [[card w']|e|].
  - destruct Hsafe as (J & (P & _ & S & _) & C & _). auto.
  - apply Hsafe. exact I.
  - exact Hends.
Qed.

Lemma deal_starting_card_is_no_joker_witness :
  (deals_to_start
     (with_deck (InfiniteGame_init default_session)
        (Some (Deck.mk [mkCard Rank.FIVE Suit.CLUBS;
                        mkCard Rank.JOKER Suit.JOKER]))) <= Z.of_nat 2) /\
  match _deal_starting_card 2
          (mkWorld
             (with_deck (InfiniteGame_init default_session)
                (Some (Deck.mk [mkCard Rank.FIVE Suit.CLUBS;
                                mkCard Rank.JOKER Suit.JOKER])))
             [] (mkRandom (fun _ => 0%nat) 0) (fun _ => ScanReturns None) 0)
  with
  | Done (card, w') =>
      is_joker card = false /\
      _current_card (game w') = None /\
      same_play
        (with_deck (InfiniteGame_init default_session)
           (Some (Deck.mk [mkCard Rank.FIVE Suit.CLUBS;
                           mkCard Rank.JOKER Suit.JOKER]))) (game w') /\
      (in_sync
         (with_deck (InfiniteGame_init default_session)
            (Some (Deck.mk [mkCard Rank.FIVE Suit.CLUBS;
                            mkCard Rank.JOKER Suit.JOKER]))) ->
       in_sync (game w'))
  | Raised e => input_or_range_error e
  | OutOfFuel => False
  end.
Proof.
  assert (H : deals_to_start
                (with_deck (InfiniteGame_init default_session)
                   (Some (Deck.mk [mkCard Rank.FIVE Suit.CLUBS;
                                   mkCard Rank.JOKER Suit.JOKER])))
              <= Z.of_nat 2) by (vm_compute; discriminate).
  split; [exact H|].
  exact (deal_starting_card_is_no_joker 2
           (mkWorld
              (with_deck (InfiniteGame_init default_session)
                 (Some (Deck.mk [mkCard Rank.FIVE Suit.CLUBS;
                                 mkCard Rank.JOKER Suit.JOKER])))
              [] (mkRandom (fun _ => 0%nat) 0) (fun _ => ScanReturns None) 0)
           H).
Defined.

Lemma interpret_leaves_dealing (line : string) (r : CommandResult)
  (g g1 : InfiniteGame) :
  interpret line = Some r ->
  _apply_command_result g r = (g1, true) ->
  exists st, g1 = with_state g st /\ st <> DEALING /\ st <> STARTUP.
Proof.
  unfold interpret. destruct (commands !! _) as [command|]; [|discriminate].
  intros [= <-]. unfold _apply_command_result.
  destruct command; cbn; intros [= <-]; eexists;
    (split; [reflexivity|split; discriminate]).
Qed.

Lemma prediction_prompt_asks_again (pt : PayoutTable) (lines : list string) :
  forall w,
  match prediction_prompt pt lines w with
  | Done (r, w') =>
      (exists read, lines = read ++ inputs w' /\ read <> []) /\
      random w' = random w /\ scans_made w' = scans_made w /\
      match r with
      | Some prediction =>
          game w' = game w /\
          is_Some (_payout_for_prediction prediction pt)
      | None =>
          exists st, game w' = with_state (game w) st /\
                     st <> DEALING /\ st <> STARTUP
      end
  | Raised e => e = Exn EOFError
  | OutOfFuel => False
  end.
Proof.
  induction lines as [|line lines IH]; intros w; [reflexivity|].
  cbn [prediction_prompt].
  unfold mbind at 1, run_bind, put_inputs.
  set (w1 := mkWorld (game w) lines (random w) (scanner w) (scans_made w)).
  assert (Hnext :
    match prediction_prompt pt lines w1 with
    | Done (r, w') =>
        (exists read, line :: lines = read ++ inputs w' /\ read <> []) /\
        random w' = random w /\ scans_made w' = scans_made w /\
        match r with
        | Some prediction =>
            game w' = game w /\
            is_Some (_payout_for_prediction prediction pt)
        | None =>
            exists st, game w' = with_state (game w) st /\
                       st <> DEALING /\ st <> STARTUP
        end
    | Raised e => e = Exn EOFError
    | OutOfFuel => False
    end).
  { specialize (IH w1).
    destruct (prediction_prompt pt lines w1) as [[r w']|e|]; [|exact IH..].
    destruct IH as ((read & -> & _) & IH). split; [|exact IH].
    exists (line :: read). split; [reflexivity|discriminate]. }
  destruct (interpret line) as [command_result|] eqn:Hint.
  - unfold mbind, run_bind, get_game, put_game, mret, run_ret.
    pose proof (interpret_leaves_dealing line command_result (game w1))
      as Hleave.
    destruct (_apply_command_result (game w1) command_result)
      as [g1 interrupted] eqn:Hcmd.
    destruct interrupted.
    + destruct (Hleave g1 Hint eq_refl) as (st & -> & Hst).
      fields. split; [exists [line]; split; [reflexivity|discriminate]|].
      split; [reflexivity|]. split; [reflexivity|].
      exists st. split; [reflexivity|exact Hst].
    + apply apply_command_result_continue in Hcmd. subst g1.
      fields. exact Hnext.
  - destruct (input_from_player line) as [prediction|e] eqn:Hparse.
    + destruct (_payout_for_prediction prediction pt) as [v|] eqn:Hv;
        [|exact Hnext].
      unfold mret, run_ret. fields.
      split; [exists [line]; split; [reflexivity|discriminate]|].
      split; [reflexivity|]. split; [reflexivity|].
      rewrite Hv. split; [reflexivity|eexists; reflexivity].
    + rewrite (input_from_player_raises _ _ Hparse). exact Hnext.
Qed.

(** X14. [_prompt_prediction] asks until it has an answer it can use.
    It returns a prediction only if the table has a payout for it, and has
    then not touched the game; it returns [None] only after a command that
    has taken the game out of the dealing state, and has then changed
    nothing else. Lines that are neither a command that interrupts nor a
    prediction with a payout (misspelt words, [save], [help], a call the
    table has no payout for) are read over. At least one line is read; the
    one failure is exhausted input. *)
Theorem prompt_prediction_asks_until_payable (pt : PayoutTable) (w : World) :
  match _prompt_prediction pt w with
  | Done (r, w') =>
      (exists read, inputs w = read ++ inputs w' /\ read <> []) /\
      random w' = random w /\ scans_made w' = scans_made w /\
      match r with
      | Some prediction =>
          game w' = game w /\
          is_Some (_payout_for_prediction prediction pt)
      | None =>
          exists st, game w' = with_state (game w) st /\
                     st <> DEALING /\ st <> STARTUP
      end
  | Raised e => e = Exn EOFError
  | OutOfFuel => False
  end.
Proof.
  unfold _prompt_prediction, mbind, run_bind, get_inputs.
  exact (prediction_prompt_asks_again pt (inputs w) w).
Qed.

(** ** Properties of the settings menu and of the calibration *)

Lemma toggled_succ (n : nat) (b : bool) :
  toggled (S n) b = toggled n (negb b).
Proof.
  unfold toggled. rewrite Nat.odd_succ, <- Nat.negb_odd.
  destruct (Nat.odd n), b; reflexivity.
Qed.

Lemma selections_cons (choice line : string) (read : list string) :
  selections choice (line :: read) =
    if String.eqb (str_lower (str_strip line)) choice
    then S (selections choice read) else selections choice read.
Proof.
  unfold selections. cbn [List.filter].
  destruct (String.eqb _ choice); reflexivity.
Qed.

Lemma settings_loop_eof (read : list string) : forall s,
  Forall (fun line => ~ leaves_menu line) read ->
  settings_loop s read = Raises EOFError.
Proof.
  induction read as [|line read IH]; intros s Hread; [reflexivity|].
  inversion Hread as [|? ? Hline Hrest]; subst.
  cbn [settings_loop]. unfold leaves_menu in Hline.
  rewrite bool_decide_eq_false_2 by exact Hline.
  repeat (destruct (String.eqb _ _); [apply IH; exact Hrest|]).
  apply IH; exact Hrest.
Qed.

Lemma settings_loop_toggles (word : string) (rest read : list string) :
  leaves_menu word -> forall s,
  Forall (fun line => ~ leaves_menu line) read ->
  settings_loop s (read ++ word :: rest) =
    Returns
      (set_calibration_enabled
         (set_side_missions_enabled s
            (toggled (selections "3" read) (side_missions_enabled s)))
         (toggled (selections "4" read) (calibration_enabled s)),
       rest).
Proof.
  intros Hword. induction read as [|line read IH]; intros s Hread.
  - cbn [app settings_loop]. unfold leaves_menu in Hword.
    rewrite bool_decide_eq_true_2 by exact Hword.
    destruct s; reflexivity.
  - inversion Hread as [|? ? Hline Hrest]; subst.
    cbn [app settings_loop]. unfold leaves_menu in Hline.
    rewrite bool_decide_eq_false_2 by exact Hline.
    rewrite !selections_cons.
    set (choice := str_lower (str_strip line)).
    destruct (String.eqb choice "1") eqn:H1.
    { apply String.eqb_eq in H1. rewrite H1. cbn [String.eqb Ascii.eqb].
      apply IH; exact Hrest. }
    destruct (String.eqb choice "2") eqn:H2.
    { apply String.eqb_eq in H2. rewrite H2. apply IH; exact Hrest. }
    destruct (String.eqb choice "3") eqn:H3.
    { apply String.eqb_eq in H3. rewrite H3.
      change (String.eqb "3" "4") with false. cbv iota.
      rewrite IH by exact Hrest. rewrite toggled_succ.
      destruct s; reflexivity. }
    destruct (String.eqb choice "4") eqn:H4.
    { rewrite IH by exact Hrest. rewrite toggled_succ.
      destruct s; reflexivity. }
    apply IH; exact Hrest.
Qed.

(** X15. [SettingsMenu.open] marks the settings as visited and reads
    lines up to the first one that is b, back or exit once stripped and
    lowered. Each line read that selects 3 flips the side missions, each
    that selects 4 flips the calibration: a switch ends as it began when
    it was selected an even number of times. Nothing else of the session
    changes, and the lines after the leaving word are left unread. When
    no line leaves the menu, reading past the last one raises
    [EOFError]. *)
Theorem settings_open_toggles (s : SessionData) (read : list string) :
  Forall (fun line => ~ leaves_menu line) read ->
  SettingsMenu_open s read = Raises EOFError /\
  forall word rest, leaves_menu word ->
    SettingsMenu_open s (read ++ word :: rest) =
      Returns
        (set_calibration_enabled
           (set_side_missions_enabled (set_visited_settings s true)
              (toggled (selections "3" read) (side_missions_enabled s)))
           (toggled (selections "4" read) (calibration_enabled s)),
         rest).
Proof.
  intros Hread. unfold SettingsMenu_open. split.
  - apply settings_loop_eof. exact Hread.
  - intros word rest Hword.
    rewrite (settings_loop_toggles word rest read Hword _ Hread).
    destruct s; reflexivity.
Qed.

Lemma settings_open_toggles_witness :
  SettingsMenu_open default_session ["3"; " 4 "; "x"; "3"; "1"]%string
    = Raises EOFError /\
  forall word rest, leaves_menu word ->
    SettingsMenu_open default_session
      (["3"; " 4 "; "x"; "3"; "1"]%string ++ word :: rest) =
      Returns
        (set_calibration_enabled
           (set_side_missions_enabled
              (set_visited_settings default_session true)
              (toggled (selections "3" ["3"; " 4 "; "x"; "3"; "1"]%string)
                 (side_missions_enabled default_session)))
           (toggled (selections "4" ["3"; " 4 "; "x"; "3"; "1"]%string)
              (calibration_enabled default_session)),
         rest).
Proof.
  apply (settings_open_toggles default_session
           ["3"; " 4 "; "x"; "3"; "1"]%string).
  repeat constructor; unfold leaves_menu; vm_compute;
    intros H; repeat (inversion H as [|? ? ? H']; clear H; rename H' into H).
Defined.

Lemma rank_label_returns (r : Rank.t) :
  exists label, _rank_label r = Returns label /\ label <> ""%string /\
    forall r' label', _rank_label r' = Returns label' ->
      forall tail tail', (label ++ tail = label' ++ tail')%string ->
        (String.length tail = 1)%nat -> (String.length tail' = 1)%nat ->
        r = r' /\ tail = tail'.
Proof.
  destruct r; (eexists; split; [vm_compute; reflexivity|]);
    (split; [discriminate|]);
    intros r' label' Hr' tail tail' Heq Hlen Hlen';
    destruct r'; vm_compute in Hr'; injection Hr' as <-;
    cbn [String.append] in Heq;
    try (injection Heq as Heq; split; [reflexivity|exact Heq]);
    try discriminate Heq;
    exfalso;
    repeat match goal with
      | H : String _ _ = String _ _ |- _ => injection H as ? H
      | H : String _ _ = ?t |- _ => is_var t; subst t
      | H : ?t = String _ _ |- _ => is_var t; subst t
      end;
    cbn in Hlen, Hlen'; try discriminate; try congruence.
Qed.

(** X16. [_card_label_for_scanner] returns a label for every card, the
    joker included: the dictionary of [_rank_label] is only looked up for
    the ranks it holds, so that no [KeyError] is raised. The label tells
    the card: two cards with the same label have the same rank and the
    same suit. *)
Theorem scanner_label_identifies_card (card : Card) :
  exists label,
    _card_label_for_scanner card = Returns label /\
    forall other, _card_label_for_scanner other = Returns label ->
      other = card.
Proof.
  destruct card as [r s].
  destruct (rank_label_returns r) as (rl & Hrl & _ & Hprefix).
  unfold _card_label_for_scanner. cbn [rank suit]. rewrite Hrl.
  cbn [mbind result_bind]. eexists. split; [reflexivity|].
  intros [r' s']. cbn [rank suit].
  destruct (rank_label_returns r') as (rl' & Hrl' & _ & _).
  rewrite Hrl'. cbn [mbind result_bind]. intros Heq.
  injection Heq as Heq. symmetry in Heq.
  destruct (Hprefix r' rl' Hrl' _ _ Heq) as [<- Hsuit].
  - destruct s; reflexivity.
  - destruct s'; reflexivity.
  - destruct s, s'; try discriminate Hsuit; reflexivity.
Qed.

Lemma only_a_fee_refl (g : InfiniteGame) : only_a_fee g g.
Proof.
  exists (balance (_session g)). split; [|left; reflexivity].
  destruct g as [s ? ? ? ? ? ? ?]. destruct s. reflexivity.
Qed.

Lemma pay_calibration_fee_only_a_fee (g : InfiniteGame) :
  match pay_calibration_fee g with
  | Returns g' => only_a_fee g g'
  | Raises e => e = ValueError \/ e = OverflowError
  end.
Proof.
  unfold pay_calibration_fee.
  destruct (float_of_int _) as [b|e] eqn:Hb; cbn [mbind result_bind];
    [|right; exact (float_of_int_raises _ _ Hb)].
  destruct (py_round _) as [r|e] eqn:Hr; cbn [mbind result_bind];
    [|exact (py_round_raises _ _ Hr)].
  eexists. split; [reflexivity|]. right. lia.
Qed.

Lemma calibration_prompt_only_a_fee (label : string) (lines : list string) :
  forall w,
  wp (calibration_prompt label lines)
    (fun _ w' =>
       only_a_fee (game w) (game w') /\
       exists read, lines = read ++ inputs w')
    input_or_range_error False w.
Proof.
  induction lines as [|line lines IH]; intros w.
  { cbn [calibration_prompt]. wp_step. left. reflexivity. }
  cbn [calibration_prompt]. wp_steps.
  assert (Hagain :
            wp (calibration_prompt label lines)
              (fun _ w' =>
                 only_a_fee (game w) (game w') /\
                 exists read, line :: lines = read ++ inputs w')
              input_or_range_error False
              (mkWorld (game w) lines (random w) (scanner w) (scans_made w))).
  { eapply wp_mono; [apply IH|].
    cbn [game]. intros [] w' [Hfee [read ->]].
    split; [exact Hfee|]. exists (line :: read). reflexivity. }
  assert (Hagain' :
            wp (calibration_prompt label lines)
              (fun _ w' =>
                 only_a_fee (game w) (game w') /\
                 exists read, line :: lines = read ++ inputs w')
              input_or_range_error False
              (mkWorld (game w) lines (random w) (scanner w)
                 (S (scans_made w)))).
  { eapply wp_mono; [apply IH|].
    cbn [game]. intros [] w' [Hfee [read ->]].
    split; [exact Hfee|]. exists (line :: read). reflexivity. }
  destruct (bool_decide _).
  { wp_steps. destruct (scanner w (scans_made w)) as [detected|].
    - destruct (detected_truthy detected); [|exact Hagain'].
      wp_steps. split; [apply only_a_fee_refl|]. exists [line]. reflexivity.
    - wp_steps. split; [apply only_a_fee_refl|]. exists [line]. reflexivity. }
  destruct (bool_decide _); [|exact Hagain].
  wp_steps. pose proof (pay_calibration_fee_only_a_fee (game w)) as Hfee.
  destruct (pay_calibration_fee (game w)) as [g'|e].
  - wp_steps. split; [exact Hfee|]. exists [line]. reflexivity.
  - right. destruct Hfee as [->| ->]; auto.
Qed.

(** X17. [_handle_calibration] returns or raises [EOFError],
    [OverflowError] or [ValueError]. When it returns, the game is as it
    was but for the balance: either the balance is untouched (a scan, a
    scanner that cannot be reached, or no calibration at all), or a fee of
    at least 1 was charged and the balance is what is left of it, 0 when
    the fee is more than the balance. With the calibration switched off
    nothing is read, drawn or changed. The lines it has read are a prefix
    of the lines there were. *)
Theorem calibration_takes_only_a_fee (w : World) :
  match _handle_calibration w with
  | Done (_, w') =>
      only_a_fee (game w) (game w') /\
      (calibration_enabled (_session (game w)) = false -> w' = w) /\
      exists read, inputs w = read ++ inputs w'
  | Raised e => input_or_range_error e
  | OutOfFuel => False
  end.
Proof.
  change (wp _handle_calibration
            (fun _ w' =>
               only_a_fee (game w) (game w') /\
               (calibration_enabled (_session (game w)) = false -> w' = w) /\
               exists read, inputs w = read ++ inputs w')
            input_or_range_error False w).
  unfold _handle_calibration. wp_steps.
  destruct (calibration_enabled (_session (game w))) eqn:Hon; cbn [negb].
  2: { wp_steps. split; [apply only_a_fee_refl|]. split; [reflexivity|].
       exists []. reflexivity. }
  destruct (_deck (game w)) as [deck|] eqn:Hdeck.
  2: { wp_steps. split; [apply only_a_fee_refl|]. split; [discriminate|].
       exists []. reflexivity. }
  wp_step. unfold _calibration_target_card. wp_steps. rewrite Hdeck.
  destruct (List.filter _ _) as [|c cs] eqn:Hf.
  { wp_steps. split; [apply only_a_fee_refl|]. split; [discriminate|].
    exists []. reflexivity. }
  wp_step. unfold random_choice, randbelow. wp_steps.
  set (target := nth _ (c :: cs) c).
  assert (Hjoker : is_joker target = false).
  { assert (Hin : In target (List.filter (fun card => negb (is_joker card))
                               (Deck.remaining_cards deck))).
    { rewrite Hf. apply nth_In. apply Nat.mod_upper_bound. discriminate. }
    apply filter_In in Hin as [_ Hin].
    destruct (is_joker target); [discriminate|reflexivity]. }
  destruct (card_label_for_scanner_returns target Hjoker) as [label ->].
  wp_steps. eapply wp_mono; [apply calibration_prompt_only_a_fee|].
  cbn [game inputs]. intros [] w' [Hfee Hread].
  split; [exact Hfee|]. split; [discriminate|exact Hread].
Qed.
